(** * Support Context Protocol: case store, similarity engines, orchestrator

    A shallow embedding of [scp/models.py], [scp/memory.py], [scp/search.py]
    and [scp/core.py], and of the keyword tables and normalising helpers of
    [scp/parsers.py].

    Conventions of the embedding.
    - Python [str] is [string]; texts are taken to be ASCII, and [lower],
      [split] and [strip] are the ASCII ones.
    - Python [float] scores are exact rationals [Q]: a Jaccard score is the
      quotient of two small naturals and an inner product is a finite sum of
      products, so order and bounds are those of the rationals.
    - A [datetime] is an integer count of microseconds; the clock
      ([datetime.utcnow()]) is an explicit argument of every operation that
      reads it.
    - A Python [dict] is an association list in insertion order: assignment
      to a present key keeps its position, assignment to a new key appends.
    - An exception is the [Raise] branch of [result]. *)

From Stdlib Require Import List String Ascii Bool Arith ZArith QArith Lia.
From Stdlib Require Import Sorting.Sorted Sorting.Permutation.
From Stdlib Require Import Numbers.DecimalString Numbers.DecimalZ.
Import ListNotations.

Set Warnings "-register-all".

Local Close Scope Q_scope.
Local Open Scope string_scope.
Local Open Scope nat_scope.
Local Open Scope list_scope.

(** ** Exceptions *)

Inductive exn : Type :=
| TypeError
| AttributeError
| ValidationError
| AssertionError.

Inductive result (A : Type) : Type :=
| Ok (a : A)
| Raise (e : exn).
Arguments Ok {A} a.
Arguments Raise {A} e.

Definition bind {A B : Type} (r : result A) (k : A -> result B) : result B :=
  match r with
  | Ok a => k a
  | Raise e => Raise e
  end.

Notation "x <- r ;; k" := (bind r (fun x => k))
  (at level 61, r at next level, right associativity).

Fixpoint mapM {A B : Type} (f : A -> result B) (l : list A) : result (list B) :=
  match l with
  | [] => Ok []
  | a :: l' => b <- f a ;; bs <- mapM f l' ;; Ok (b :: bs)
  end.

(** ** Python strings *)

Module PyStr.

(** [str.isspace] on a single ASCII character. *)
Definition isspace (a : ascii) : bool :=
  let n := nat_of_ascii a in
  ((9 <=? n) && (n <=? 13)) || ((28 <=? n) && (n <=? 32)).

Definition lower_ascii (a : ascii) : ascii :=
  let n := nat_of_ascii a in
  if (65 <=? n) && (n <=? 90) then ascii_of_nat (n + 32) else a.

(** [s.lower()] *)
Fixpoint lower (s : string) : string :=
  match s with
  | EmptyString => EmptyString
  | String a s' => String (lower_ascii a) (lower s')
  end.

(** [s.split()]: maximal runs of non-whitespace characters.  [cur] is the
    run being read, in reverse. *)
Definition rev_string (s : string) : string :=
  string_of_list_ascii (rev (list_ascii_of_string s)).

Definition flush (cur : string) (acc : list string) : list string :=
  match cur with
  | EmptyString => acc
  | _ => rev_string cur :: acc
  end.

Fixpoint split_aux (s : string) (cur : string) (acc : list string)
  : list string :=
  match s with
  | EmptyString => rev (flush cur acc)
  | String a s' =>
      if isspace a then split_aux s' EmptyString (flush cur acc)
      else split_aux s' (String a cur) acc
  end.

Definition split (s : string) : list string :=
  split_aux s EmptyString [].

(** [not s.strip()]: the string holds whitespace only. *)
Fixpoint strip_is_empty (s : string) : bool :=
  match s with
  | EmptyString => true
  | String a s' => isspace a && strip_is_empty s'
  end.

(** [needle in hay] *)
Fixpoint contains (needle hay : string) : bool :=
  if prefix needle hay then true
  else match hay with
       | EmptyString => false
       | String _ hay' => contains needle hay'
       end.

(** [sep.join(parts)] *)
Fixpoint join (sep : string) (parts : list string) : string :=
  match parts with
  | [] => EmptyString
  | [p] => p
  | p :: ps => (p ++ sep ++ join sep ps)%string
  end.

(** Truthiness of a string: non-empty. *)
Definition truthy (s : string) : bool :=
  match s with
  | EmptyString => false
  | _ => true
  end.

(** [x in xs] for a list of strings. *)
Definition mem (x : string) (xs : list string) : bool :=
  existsb (String.eqb x) xs.

(** [set(xs)] as a duplicate-free list (first occurrences, in order). *)
Fixpoint to_set (xs : list string) : list string :=
  match xs with
  | [] => []
  | x :: xs' => if mem x xs' then to_set xs' else x :: to_set xs'
  end.

End PyStr.

(** [xs[:k]] for a Python integer [k], also a negative one. *)
Definition py_slice_to {A : Type} (xs : list A) (k : Z) : list A :=
  if (0 <=? k)%Z then firstn (Z.to_nat k) xs
  else firstn (List.length xs - Z.to_nat (- k)) xs.

(** [sort(key=..., reverse=True)]: descending by a rational key, and stable:
    entries of equal key keep their order. *)
Section SortDesc.
Context {A : Type} (key : A -> Q).

Fixpoint insert_desc (x : A) (l : list A) : list A :=
  match l with
  | [] => [x]
  | y :: l' =>
      if Qle_bool (key y) (key x) then x :: l
      else y :: insert_desc x l'
  end.

Definition sort_desc (l : list A) : list A :=
  fold_right insert_desc [] l.
End SortDesc.

(** Non-increasing by a rational key. *)
Definition non_increasing {A : Type} (key : A -> Q) (l : list A) : Prop :=
  StronglySorted (fun a b => (key b <= key a)%Q) l.

(** ** Data models ([scp/models.py]) *)

Definition datetime : Type := Z.

(** Python values as they occur in [Dict[str, Any]] fields and in parsed
    JSON.  An [Enum(str)] member is the string of its value. *)
Inductive pyval : Type :=
| PNone
| PBool (b : bool)
| PInt (z : Z)
| PFloat (q : Q)
| PStr (s : string)
| PList (l : list pyval)
| PTuple (l : list pyval)
| PDict (d : list (string * pyval))
| PDatetime (t : datetime).

(** [d.get(key)] on an insertion-ordered dict. *)
Fixpoint dict_get {V : Type} (d : list (string * V)) (key : string) : option V :=
  match d with
  | [] => None
  | (k, v) :: d' => if String.eqb k key then Some v else dict_get d' key
  end.

(** [d[key] = v] *)
Fixpoint dict_set {V : Type} (d : list (string * V)) (key : string) (v : V)
  : list (string * V) :=
  match d with
  | [] => [(key, v)]
  | (k, v0) :: d' =>
      if String.eqb k key then (k, v) :: d' else (k, v0) :: dict_set d' key v
  end.

(** [del d[key]] *)
Fixpoint dict_del {V : Type} (d : list (string * V)) (key : string)
  : list (string * V) :=
  match d with
  | [] => []
  | (k, v0) :: d' =>
      if String.eqb k key then d' else (k, v0) :: dict_del d' key
  end.

(** [key in d] *)
Definition dict_mem {V : Type} (d : list (string * V)) (key : string) : bool :=
  match dict_get d key with
  | Some _ => true
  | None => false
  end.

Definition dict_keys {V : Type} (d : list (string * V)) : list string :=
  map fst d.

Definition dict_values {V : Type} (d : list (string * V)) : list V :=
  map snd d.

Inductive Priority : Type := CRITICAL | HIGH | MEDIUM | LOW.

Inductive Status : Type :=
| OPEN | IN_PROGRESS | PENDING_CUSTOMER | PENDING_MICROSOFT | RESOLVED | CLOSED.

Inductive EscalationFlag : Type :=
| EPS_CRITICAL | EPS_HIGH | BRANDON_FLAG | CUSTOMER_ESCALATION | MEDIA_ATTENTION.

Definition Priority_value (p : Priority) : string :=
  match p with
  | CRITICAL => "critical" | HIGH => "high" | MEDIUM => "medium" | LOW => "low"
  end.

Definition Status_value (s : Status) : string :=
  match s with
  | OPEN => "open" | IN_PROGRESS => "in_progress"
  | PENDING_CUSTOMER => "pending_customer"
  | PENDING_MICROSOFT => "pending_microsoft"
  | RESOLVED => "resolved" | CLOSED => "closed"
  end.

Definition EscalationFlag_value (f : EscalationFlag) : string :=
  match f with
  | EPS_CRITICAL => "eps_critical" | EPS_HIGH => "eps_high"
  | BRANDON_FLAG => "brandon_flag"
  | CUSTOMER_ESCALATION => "customer_escalation"
  | MEDIA_ATTENTION => "media_attention"
  end.

Definition Priority_eqb (a b : Priority) : bool :=
  match a, b with
  | CRITICAL, CRITICAL | HIGH, HIGH | MEDIUM, MEDIUM | LOW, LOW => true
  | _, _ => false
  end.

Definition Status_eqb (a b : Status) : bool :=
  match a, b with
  | OPEN, OPEN | IN_PROGRESS, IN_PROGRESS
  | PENDING_CUSTOMER, PENDING_CUSTOMER
  | PENDING_MICROSOFT, PENDING_MICROSOFT
  | RESOLVED, RESOLVED | CLOSED, CLOSED => true
  | _, _ => false
  end.

(** [field == member] for a field that may hold [None]. *)
Definition Status_is (field : option Status) (s : Status) : bool :=
  match field with
  | Some x => Status_eqb x s
  | None => false
  end.

Definition Priority_is (field : option Priority) (p : Priority) : bool :=
  match field with
  | Some x => Priority_eqb x p
  | None => false
  end.

(** [Enum(value)]: the member with that value, if any. *)
Definition enum_of_value {E : Type} (members : list E) (value : E -> string)
  (s : string) : option E :=
  find (fun m => String.eqb (value m) s) members.

Definition Priority_of_value : string -> option Priority :=
  enum_of_value [CRITICAL; HIGH; MEDIUM; LOW] Priority_value.

Definition Status_of_value : string -> option Status :=
  enum_of_value
    [OPEN; IN_PROGRESS; PENDING_CUSTOMER; PENDING_MICROSOFT; RESOLVED; CLOSED]
    Status_value.

Definition EscalationFlag_of_value : string -> option EscalationFlag :=
  enum_of_value
    [EPS_CRITICAL; EPS_HIGH; BRANDON_FLAG; CUSTOMER_ESCALATION; MEDIA_ATTENTION]
    EscalationFlag_value.

(** A [Field(ge=lo, le=hi)] constraint. *)
Definition in_range (lo hi q : Q) : bool :=
  Qle_bool lo q && Qle_bool q hi.

Module CaseTag.
Record t : Type := mk {
  name : string;
  confidence : Q;
  source : string
}.

(** [CaseTag(name=..., confidence=..., source=...)]: the constructor
    validates [confidence] against [ge=0.0, le=1.0]. *)
Definition new (name : string) (confidence : Q) (source : string) : result t :=
  if in_range 0 1 confidence then Ok (mk name confidence source)
  else Raise ValidationError.
End CaseTag.

Module LogEntry.
Record t : Type := mk {
  timestamp : datetime;
  content : string;
  source : option string;
  level : option string
}.
End LogEntry.

Module CaseMetrics.
Record t : Type := mk {
  response_time_hours : option Q;
  resolution_time_hours : option Q;
  customer_satisfaction : option Q;
  engineering_effort_hours : option Q;
  escalation_count : Z
}.

Definition default : t := mk None None None None 0%Z.
End CaseMetrics.

(** A partial update, as [CaseUpdate.dict(exclude_unset=True)] presents it:
    the outer [None] is a field the update does not set.  Every scalar field
    is declared [Optional], so each of them may be set to [None].  A list
    field that is set to [None] is skipped by [update_case], like one that
    is not set, so the two are not told apart. *)
Module CaseUpdate.
Record t : Type := mk {
  title : option (option string);
  status : option (option Status);
  priority : option (option Priority);
  description : option (option string);
  solution : option (option string);
  workaround : option (option string);
  root_cause : option (option string);
  symptoms : option (list string);
  error_messages : option (list string);
  reproduction_steps : option (list string);
  notes : option (list string)
}.

(** [CaseUpdate()] *)
Definition empty : t :=
  mk None None None None None None None None None None None.
End CaseUpdate.

(** A case as the program holds it.  [title], [status], [priority] and
    [description] are declared without [Optional] and the constructor gives
    each a value of its type; but assignment is not validated, and
    [update_case] can leave [None] in any of them, which is why they are
    options here. *)
Module SupportCase.
Record t : Type := mk {
  case_id : string;
  title : option string;
  customer : option string;
  product : option string;
  component : option string;
  status : option Status;
  priority : option Priority;
  severity : option string;
  created_at : datetime;
  updated_at : datetime;
  due_date : option datetime;
  symptoms : list string;
  error_messages : list string;
  reproduction_steps : list string;
  root_cause : option string;
  solution : option string;
  workaround : option string;
  logs : list LogEntry.t;
  law_uri : option string;
  dcr_uri : option string;
  tags : list CaseTag.t;
  category : option string;
  subcategory : option string;
  escalation_flags : list EscalationFlag;
  brandon_flags : list string;
  related_cases : list string;
  parent_case : option string;
  description : option string;
  rendered_description : option string;
  notes : list string;
  metrics : CaseMetrics.t;
  custom_fields : list (string * pyval)
}.

(** [self.updated_at = now] *)
Definition set_updated_at (self : t) (now : datetime) : t :=
  mk (case_id self) (title self) (customer self) (product self)
     (component self) (status self) (priority self) (severity self)
     (created_at self) now (due_date self) (symptoms self)
     (error_messages self) (reproduction_steps self) (root_cause self)
     (solution self) (workaround self) (logs self) (law_uri self)
     (dcr_uri self) (tags self) (category self) (subcategory self)
     (escalation_flags self) (brandon_flags self) (related_cases self)
     (parent_case self) (description self) (rendered_description self)
     (notes self) (metrics self) (custom_fields self).

(** [self.tags = new_tags] *)
Definition set_tags (self : t) (new_tags : list CaseTag.t) : t :=
  mk (case_id self) (title self) (customer self) (product self)
     (component self) (status self) (priority self) (severity self)
     (created_at self) (updated_at self) (due_date self) (symptoms self)
     (error_messages self) (reproduction_steps self) (root_cause self)
     (solution self) (workaround self) (logs self) (law_uri self)
     (dcr_uri self) new_tags (category self) (subcategory self)
     (escalation_flags self) (brandon_flags self) (related_cases self)
     (parent_case self) (description self) (rendered_description self)
     (notes self) (metrics self) (custom_fields self).

(** [SupportCase(case_id=..., title=...)]: every other field at its
    default; [created_at] and [updated_at] read the clock. *)
Definition new (now : datetime) (case_id title : string) : t :=
  mk case_id (Some title) None None None (Some OPEN) (Some MEDIUM) None now now
     None [] [] [] None None None [] None None [] None None [] [] [] None
     (Some EmptyString) None [] CaseMetrics.default [].

(** [add_tag]: the tags of another name are kept, then the new tag is
    constructed and appended.  The filtered list is assigned before the
    [CaseTag] constructor runs, so a rejected confidence leaves the case
    without a tag of that name and raises. *)
Definition add_tag (self : t) (name : string) (confidence : Q)
  (source : string) : t * result unit :=
  let self1 :=
    set_tags self
      (filter (fun tag => negb (String.eqb (CaseTag.name tag) name))
              (tags self)) in
  match CaseTag.new name confidence source with
  | Ok tag => (set_tags self1 (tags self1 ++ [tag]), Ok tt)
  | Raise e => (self1, Raise e)
  end.

(** [self.logs = new_logs] *)
Definition set_logs (self : t) (new_logs : list LogEntry.t) : t :=
  mk (case_id self) (title self) (customer self) (product self)
     (component self) (status self) (priority self) (severity self)
     (created_at self) (updated_at self) (due_date self) (symptoms self)
     (error_messages self) (reproduction_steps self) (root_cause self)
     (solution self) (workaround self) new_logs (law_uri self)
     (dcr_uri self) (tags self) (category self) (subcategory self)
     (escalation_flags self) (brandon_flags self) (related_cases self)
     (parent_case self) (description self) (rendered_description self)
     (notes self) (metrics self) (custom_fields self).

(** [self.escalation_flags = new_flags] *)
Definition set_escalation_flags (self : t)
  (new_flags : list EscalationFlag) : t :=
  mk (case_id self) (title self) (customer self) (product self)
     (component self) (status self) (priority self) (severity self)
     (created_at self) (updated_at self) (due_date self) (symptoms self)
     (error_messages self) (reproduction_steps self) (root_cause self)
     (solution self) (workaround self) (logs self) (law_uri self)
     (dcr_uri self) (tags self) (category self) (subcategory self) new_flags
     (brandon_flags self) (related_cases self) (parent_case self)
     (description self) (rendered_description self) (notes self)
     (metrics self) (custom_fields self).

(** [add_log]: the entry takes its timestamp from the clock. *)
Definition add_log (now : datetime) (self : t) (content : string)
  (source level : option string) : t :=
  set_logs self (logs self ++ [LogEntry.mk now content source level]).

Definition EscalationFlag_eqb (a b : EscalationFlag) : bool :=
  String.eqb (EscalationFlag_value a) (EscalationFlag_value b).

(** [add_escalation_flag]: appended only when not yet present. *)
Definition add_escalation_flag (self : t) (flag : EscalationFlag) : t :=
  if existsb (EscalationFlag_eqb flag) (escalation_flags self) then self
  else set_escalation_flags self (escalation_flags self ++ [flag]).

(** The loop of [update_case] over the fields an update sets: a scalar
    field is overwritten, a list field is extended. *)
Definition apply_update (self : t) (u : CaseUpdate.t) : t :=
  mk
     (case_id self)
     (match CaseUpdate.title u with
      | Some x => x
      | None => title self
      end)
     (customer self)
     (product self)
     (component self)
     (match CaseUpdate.status u with
      | Some x => x
      | None => status self
      end)
     (match CaseUpdate.priority u with
      | Some x => x
      | None => priority self
      end)
     (severity self)
     (created_at self)
     (updated_at self)
     (due_date self)
     (match CaseUpdate.symptoms u with
      | Some l => symptoms self ++ l
      | None => symptoms self
      end)
     (match CaseUpdate.error_messages u with
      | Some l => error_messages self ++ l
      | None => error_messages self
      end)
     (match CaseUpdate.reproduction_steps u with
      | Some l => reproduction_steps self ++ l
      | None => reproduction_steps self
      end)
     (match CaseUpdate.root_cause u with
      | Some x => x
      | None => root_cause self
      end)
     (match CaseUpdate.solution u with
      | Some x => x
      | None => solution self
      end)
     (match CaseUpdate.workaround u with
      | Some x => x
      | None => workaround self
      end)
     (logs self)
     (law_uri self)
     (dcr_uri self)
     (tags self)
     (category self)
     (subcategory self)
     (escalation_flags self)
     (brandon_flags self)
     (related_cases self)
     (parent_case self)
     (match CaseUpdate.description u with
      | Some x => x
      | None => description self
      end)
     (rendered_description self)
     (match CaseUpdate.notes u with
      | Some l => notes self ++ l
      | None => notes self
      end)
     (metrics self)
     (custom_fields self).

(** An optional string that is present and non-empty. *)
Definition truthy_part (o : option string) : list string :=
  match o with
  | Some s => if PyStr.truthy s then [s] else []
  | None => []
  end.

(** [filter(None, parts)]: [None] and the empty string are dropped. *)
Definition filter_none (parts : list (option string)) : list string :=
  flat_map truthy_part parts.

Definition get_text_content (self : t) : string :=
  let content_parts :=
    [ title self;
      description self;
      Some (PyStr.join " " (symptoms self));
      Some (PyStr.join " " (error_messages self));
      Some (PyStr.join " " (reproduction_steps self));
      Some (PyStr.join " " (notes self)) ]
    ++ map Some (truthy_part (root_cause self))
    ++ map Some (truthy_part (solution self))
    ++ map Some (truthy_part (workaround self))
    ++ map (fun log => Some (LogEntry.content log)) (logs self)
    ++ map (fun tag => Some (CaseTag.name tag)) (tags self) in
  PyStr.join " " (filter_none content_parts).
End SupportCase.

Module CaseQuery.
Record t : Type := mk {
  query : string;
  limit : Z;
  case_ids : option (list string);
  status_filter : option (list Status);
  priority_filter : option (list Priority);
  date_from : option datetime;
  date_to : option datetime;
  tags : option (list string)
}.

(** [CaseQuery(query=text)] *)
Definition of_str (text : string) : t :=
  mk text 10%Z None None None None None None.
End CaseQuery.

Module SearchResult.
Record t : Type := mk {
  case : SupportCase.t;
  similarity_score : Q;
  matched_fields : list string
}.

(** [SearchResult(case=..., similarity_score=..., matched_fields=[])]:
    the constructor validates the score against [ge=0.0, le=1.0]. *)
Definition new (case : SupportCase.t) (similarity_score : Q) : result t :=
  if in_range 0 1 similarity_score then Ok (mk case similarity_score [])
  else Raise ValidationError.
End SearchResult.

(** [SCPStats], but for [memory_usage_mb]: that figure is the size of the
    pickled store and has no counterpart here. *)
Module SCPStats.
Record t : Type := mk {
  total_cases : nat;
  cases_by_status : list (Status * nat);
  cases_by_priority : list (Priority * nat);
  avg_resolution_time_hours : option Q;
  top_tags : list (string * nat)
}.
End SCPStats.

(** ** JSON documents and serialisation of cases *)

(** What a JSON text denotes.  Object keys are taken to be distinct, as
    [json.dumps] writes them. *)
Inductive json : Type :=
| JNull
| JBool (b : bool)
| JInt (z : Z)
| JFloat (q : Q)
| JStr (s : string)
| JArr (l : list json)
| JObj (o : list (string * json)).

(** Rendering of a [datetime] by [str] and by [isoformat], and its reading
    by the model constructor; all three belong to the Python runtime and to
    pydantic. *)
Class DatetimeFormat : Type := {
  datetime_str : datetime -> string;
  datetime_isoformat : datetime -> string;
  parse_datetime : string -> option datetime
}.

(** The constructor reads what [str] writes. *)
Definition datetime_roundtrip (fmt : DatetimeFormat) : Prop :=
  forall d, parse_datetime (datetime_str d) = Some d.

(** [json.loads]: arrays become lists, objects dicts, [null] is [None]. *)
Fixpoint json_loads (j : json) : pyval :=
  match j with
  | JNull => PNone
  | JBool b => PBool b
  | JInt z => PInt z
  | JFloat q => PFloat q
  | JStr s => PStr s
  | JArr l => PList (map json_loads l)
  | JObj o => PDict (map (fun kv => (fst kv, json_loads (snd kv))) o)
  end.

(** Values that [json.loads] can produce. *)
Fixpoint json_native (v : pyval) : bool :=
  match v with
  | PNone | PBool _ | PInt _ | PFloat _ | PStr _ => true
  | PList l => forallb json_native l
  | PDict d => forallb (fun kv => json_native (snd kv)) d
  | PTuple _ | PDatetime _ => false
  end.

Definition obind {A B : Type} (o : option A) (k : A -> option B) : option B :=
  match o with
  | Some a => k a
  | None => None
  end.

Notation "x <~ o ;; k" := (obind o (fun x => k))
  (at level 61, o at next level, right associativity).

Fixpoint omap {A B : Type} (f : A -> option B) (l : list A) : option (list B) :=
  match l with
  | [] => Some []
  | a :: l' => b <~ f a ;; bs <~ omap f l' ;; Some (b :: bs)
  end.

Definition opt_pyval {A : Type} (f : A -> pyval) (o : option A) : pyval :=
  match o with
  | Some a => f a
  | None => PNone
  end.

Section Serialisation.
Context {fmt : DatetimeFormat}.

(** [json.dumps(v, default=str)]: a tuple is written as an array and a
    [datetime], which the encoder does not know, through [str]. *)
Fixpoint json_dumps (v : pyval) : json :=
  match v with
  | PNone => JNull
  | PBool b => JBool b
  | PInt z => JInt z
  | PFloat q => JFloat q
  | PStr s => JStr s
  | PList l => JArr (map json_dumps l)
  | PTuple l => JArr (map json_dumps l)
  | PDict d => JObj (map (fun kv => (fst kv, json_dumps (snd kv))) d)
  | PDatetime t => JStr (datetime_str t)
  end.

(** *** [.dict()] of the models *)

Definition CaseTag_dict (tag : CaseTag.t) : pyval :=
  PDict [ ("name", PStr (CaseTag.name tag));
          ("confidence", PFloat (CaseTag.confidence tag));
          ("source", PStr (CaseTag.source tag)) ].

Definition LogEntry_dict (e : LogEntry.t) : pyval :=
  PDict [ ("timestamp", PDatetime (LogEntry.timestamp e));
          ("content", PStr (LogEntry.content e));
          ("source", opt_pyval PStr (LogEntry.source e));
          ("level", opt_pyval PStr (LogEntry.level e)) ].

Definition CaseMetrics_dict (m : CaseMetrics.t) : pyval :=
  PDict [ ("response_time_hours",
            opt_pyval PFloat (CaseMetrics.response_time_hours m));
          ("resolution_time_hours",
            opt_pyval PFloat (CaseMetrics.resolution_time_hours m));
          ("customer_satisfaction",
            opt_pyval PFloat (CaseMetrics.customer_satisfaction m));
          ("engineering_effort_hours",
            opt_pyval PFloat (CaseMetrics.engineering_effort_hours m));
          ("escalation_count", PInt (CaseMetrics.escalation_count m)) ].

Definition str_list (l : list string) : pyval := PList (map PStr l).

Definition SupportCase_dict (c : SupportCase.t) : pyval :=
  PDict
    [ ("case_id", PStr (SupportCase.case_id c));
      ("title", opt_pyval PStr (SupportCase.title c));
      ("customer", opt_pyval PStr (SupportCase.customer c));
      ("product", opt_pyval PStr (SupportCase.product c));
      ("component", opt_pyval PStr (SupportCase.component c));
      ("status",
        opt_pyval (fun s => PStr (Status_value s)) (SupportCase.status c));
      ("priority",
        opt_pyval (fun p => PStr (Priority_value p)) (SupportCase.priority c));
      ("severity", opt_pyval PStr (SupportCase.severity c));
      ("created_at", PDatetime (SupportCase.created_at c));
      ("updated_at", PDatetime (SupportCase.updated_at c));
      ("due_date", opt_pyval PDatetime (SupportCase.due_date c));
      ("symptoms", str_list (SupportCase.symptoms c));
      ("error_messages", str_list (SupportCase.error_messages c));
      ("reproduction_steps", str_list (SupportCase.reproduction_steps c));
      ("root_cause", opt_pyval PStr (SupportCase.root_cause c));
      ("solution", opt_pyval PStr (SupportCase.solution c));
      ("workaround", opt_pyval PStr (SupportCase.workaround c));
      ("logs", PList (map LogEntry_dict (SupportCase.logs c)));
      ("law_uri", opt_pyval PStr (SupportCase.law_uri c));
      ("dcr_uri", opt_pyval PStr (SupportCase.dcr_uri c));
      ("tags", PList (map CaseTag_dict (SupportCase.tags c)));
      ("category", opt_pyval PStr (SupportCase.category c));
      ("subcategory", opt_pyval PStr (SupportCase.subcategory c));
      ("escalation_flags",
        str_list (map EscalationFlag_value (SupportCase.escalation_flags c)));
      ("brandon_flags", str_list (SupportCase.brandon_flags c));
      ("related_cases", str_list (SupportCase.related_cases c));
      ("parent_case", opt_pyval PStr (SupportCase.parent_case c));
      ("description", opt_pyval PStr (SupportCase.description c));
      ("rendered_description",
        opt_pyval PStr (SupportCase.rendered_description c));
      ("notes", str_list (SupportCase.notes c));
      ("metrics", CaseMetrics_dict (SupportCase.metrics c));
      ("custom_fields", PDict (SupportCase.custom_fields c)) ].
End Serialisation.

(** ** Validation by the model constructors

    The [SupportCase] constructor on keyword arguments of the kinds
    [json.loads] yields.  A
    field is read by its own name, a missing optional field takes its
    default, unknown keys are ignored.  The lenient coercions of pydantic
    (a number given for a [str] field, a numeric string for a [float], a
    [bool] or a float given for an [int]) are left out: such a record is
    rejected here, so a record accepted here is accepted by the
    constructor, not the other way round. *)
Section Validation.
Context {fmt : DatetimeFormat}.

Definition conv_str (v : pyval) : option string :=
  match v with
  | PStr s => Some s
  | _ => None
  end.

Definition conv_float (v : pyval) : option Q :=
  match v with
  | PFloat q => Some q
  | PInt z => Some (inject_Z z)
  | _ => None
  end.

Definition conv_int (v : pyval) : option Z :=
  match v with
  | PInt z => Some z
  | _ => None
  end.

Definition conv_datetime (v : pyval) : option datetime :=
  match v with
  | PDatetime t => Some t
  | PStr s => parse_datetime s
  | _ => None
  end.

(** [Optional[T]] *)
Definition conv_optional {A : Type} (conv : pyval -> option A) (v : pyval)
  : option (option A) :=
  match v with
  | PNone => Some None
  | _ => a <~ conv v ;; Some (Some a)
  end.

(** [List[T]] *)
Definition conv_list {A : Type} (conv : pyval -> option A) (v : pyval)
  : option (list A) :=
  match v with
  | PList l | PTuple l => omap conv l
  | _ => None
  end.

Definition conv_enum {E : Type} (of_value : string -> option E) (v : pyval)
  : option E :=
  match v with
  | PStr s => of_value s
  | _ => None
  end.

(** [Field(None, ge=lo, le=hi)] on an optional float. *)
Definition conv_optional_range (lo hi : Q) (v : pyval) : option (option Q) :=
  o <~ conv_optional conv_float v ;;
  match o with
  | Some q => if in_range lo hi q then Some o else None
  | None => Some o
  end.

Definition conv_dict (v : pyval) : option (list (string * pyval)) :=
  match v with
  | PDict d => Some d
  | _ => None
  end.

(** A field declared with [Field(...)] and no default. *)
Definition required {A : Type} (kw : list (string * pyval)) (key : string)
  (conv : pyval -> option A) : option A :=
  v <~ dict_get kw key ;; conv v.

(** A field with a default. *)
Definition optional {A : Type} (kw : list (string * pyval)) (key : string)
  (conv : pyval -> option A) (default : A) : option A :=
  match dict_get kw key with
  | Some v => conv v
  | None => Some default
  end.

Definition conv_CaseTag (v : pyval) : option CaseTag.t :=
  kw <~ conv_dict v ;;
  name <~ required kw "name" conv_str ;;
  confidence <~ required kw "confidence" conv_float ;;
  source <~ required kw "source" conv_str ;;
  if in_range 0 1 confidence then Some (CaseTag.mk name confidence source)
  else None.

Definition conv_LogEntry (now : datetime) (v : pyval) : option LogEntry.t :=
  kw <~ conv_dict v ;;
  timestamp <~ optional kw "timestamp" conv_datetime now ;;
  content <~ required kw "content" conv_str ;;
  source <~ optional kw "source" (conv_optional conv_str) None ;;
  level <~ optional kw "level" (conv_optional conv_str) None ;;
  Some (LogEntry.mk timestamp content source level).

Definition conv_CaseMetrics (v : pyval) : option CaseMetrics.t :=
  kw <~ conv_dict v ;;
  a <~ optional kw "response_time_hours" (conv_optional conv_float) None ;;
  b <~ optional kw "resolution_time_hours" (conv_optional conv_float) None ;;
  c <~ optional kw "customer_satisfaction" (conv_optional_range 1 5) None ;;
  d <~ optional kw "engineering_effort_hours" (conv_optional conv_float) None ;;
  e <~ optional kw "escalation_count" conv_int 0%Z ;;
  Some (CaseMetrics.mk a b c d e).

(** The fields in declaration order.  [updated_at] has a validator that
    runs before type validation and always answers the clock, so whatever
    the record carries under that key is discarded. *)
Definition SupportCase_validate_opt (now : datetime)
  (kw : list (string * pyval)) : option SupportCase.t :=
  let ostr := conv_optional conv_str in
  let strs := conv_list conv_str in
  case_id <~ required kw "case_id" conv_str ;;
  title <~ required kw "title" conv_str ;;
  customer <~ optional kw "customer" ostr None ;;
  product <~ optional kw "product" ostr None ;;
  component <~ optional kw "component" ostr None ;;
  status <~ optional kw "status" (conv_enum Status_of_value) OPEN ;;
  priority <~ optional kw "priority" (conv_enum Priority_of_value) MEDIUM ;;
  severity <~ optional kw "severity" ostr None ;;
  created_at <~ optional kw "created_at" conv_datetime now ;;
  due_date <~ optional kw "due_date" (conv_optional conv_datetime) None ;;
  symptoms <~ optional kw "symptoms" strs [] ;;
  error_messages <~ optional kw "error_messages" strs [] ;;
  reproduction_steps <~ optional kw "reproduction_steps" strs [] ;;
  root_cause <~ optional kw "root_cause" ostr None ;;
  solution <~ optional kw "solution" ostr None ;;
  workaround <~ optional kw "workaround" ostr None ;;
  logs <~ optional kw "logs" (conv_list (conv_LogEntry now)) [] ;;
  law_uri <~ optional kw "law_uri" ostr None ;;
  dcr_uri <~ optional kw "dcr_uri" ostr None ;;
  tags <~ optional kw "tags" (conv_list conv_CaseTag) [] ;;
  category <~ optional kw "category" ostr None ;;
  subcategory <~ optional kw "subcategory" ostr None ;;
  escalation_flags <~
    optional kw "escalation_flags"
      (conv_list (conv_enum EscalationFlag_of_value)) [] ;;
  brandon_flags <~ optional kw "brandon_flags" strs [] ;;
  related_cases <~ optional kw "related_cases" strs [] ;;
  parent_case <~ optional kw "parent_case" ostr None ;;
  description <~ optional kw "description" conv_str EmptyString ;;
  rendered_description <~ optional kw "rendered_description" ostr None ;;
  notes <~ optional kw "notes" strs [] ;;
  metrics <~ optional kw "metrics" conv_CaseMetrics CaseMetrics.default ;;
  custom_fields <~ optional kw "custom_fields" conv_dict [] ;;
  Some (SupportCase.mk case_id (Some title) customer product component
          (Some status) (Some priority) severity created_at now due_date
          symptoms error_messages reproduction_steps root_cause solution
          workaround logs law_uri dcr_uri tags category subcategory
          escalation_flags brandon_flags related_cases parent_case
          (Some description) rendered_description notes metrics
          custom_fields).

(** The constructor applied to an unpacked record: unpacking keyword
    arguments needs a mapping. *)
Definition SupportCase_validate (now : datetime) (case_data : pyval)
  : result SupportCase.t :=
  match case_data with
  | PDict kw =>
      match SupportCase_validate_opt now kw with
      | Some c => Ok c
      | None => Raise ValidationError
      end
  | _ => Raise TypeError
  end.
End Validation.

(** ** Assignment without validation

    The model does not set [validate_assignment], so [setattr] on a case
    stores the value as it is given.  The typed record has a place for a
    value of the field's declared type, and for [None] in an optional field
    and in [title], [status], [priority] and [description].  For another
    value, and for a value of [logs], [tags] or [metrics], which are model
    objects, it has no place: there the functions of this part answer
    [None], which marks the end of the embedding, not a failure of the
    program. *)

Definition exact_str (v : pyval) : option string :=
  match v with
  | PStr s => Some s
  | _ => None
  end.

Definition exact_datetime (v : pyval) : option datetime :=
  match v with
  | PDatetime t => Some t
  | _ => None
  end.

Definition exact_optional {A : Type} (exact : pyval -> option A) (v : pyval)
  : option (option A) :=
  match v with
  | PNone => Some None
  | _ => a <~ exact v ;; Some (Some a)
  end.

Definition exact_enum {E : Type} (of_value : string -> option E) (v : pyval)
  : option E :=
  match v with
  | PStr s => of_value s
  | _ => None
  end.

Definition exact_list {A : Type} (exact : pyval -> option A) (v : pyval)
  : option (list A) :=
  match v with
  | PList l => omap exact l
  | _ => None
  end.

Definition exact_dict (v : pyval) : option (list (string * pyval)) :=
  match v with
  | PDict d => Some d
  | _ => None
  end.

Definition no_place {A : Type} (v : pyval) : option A := None.

(** The field called [name] after [setattr(self, field, value)]. *)
Definition assign {A : Type} (field name : string)
  (exact : pyval -> option A) (value : pyval) (current : A) : option A :=
  if String.eqb field name then exact value else Some current.

(** The fields [SupportCase] declares. *)
Definition SupportCase_fields : list string :=
  [ "case_id"; "title"; "customer"; "product"; "component"; "status";
    "priority"; "severity"; "created_at"; "updated_at"; "due_date";
    "symptoms"; "error_messages"; "reproduction_steps"; "root_cause";
    "solution"; "workaround"; "logs"; "law_uri"; "dcr_uri"; "tags";
    "category"; "subcategory"; "escalation_flags"; "brandon_flags";
    "related_cases"; "parent_case"; "description"; "rendered_description";
    "notes"; "metrics"; "custom_fields" ].

(** The other attributes the class body of [SupportCase] defines. *)
Definition SupportCase_methods : list string :=
  [ "Config"; "set_updated_at"; "add_tag"; "add_log"; "add_escalation_flag";
    "get_text_content" ].

(** The names a model inherits from pydantic's [BaseModel] and from
    [object]: the public methods of the library, the names it reserves
    under [model_], and the private and special names. *)
Definition BaseModel_attribute (name : string) : bool :=
  PyStr.mem name
    [ "dict"; "json"; "copy"; "construct"; "parse_obj"; "parse_raw";
      "parse_file"; "from_orm"; "schema"; "schema_json"; "validate";
      "update_forward_refs" ]
  || String.prefix "_" name
  || String.prefix "model_" name.

(** [hasattr] holds of these names as well, and an assignment to one of
    them is refused by the model. *)
Definition SupportCase_other_attribute (name : string) : bool :=
  PyStr.mem name SupportCase_methods || BaseModel_attribute name.

(** [setattr(self, field, value)] for the name of a field. *)
Definition SupportCase_setattr (self : SupportCase.t) (field : string)
  (value : pyval) : option SupportCase.t :=
  case_id <~
    assign field "case_id" exact_str value (SupportCase.case_id self) ;;
  title <~
    assign field "title" (exact_optional exact_str) value
      (SupportCase.title self) ;;
  customer <~
    assign field "customer" (exact_optional exact_str) value
      (SupportCase.customer self) ;;
  product <~
    assign field "product" (exact_optional exact_str) value
      (SupportCase.product self) ;;
  component <~
    assign field "component" (exact_optional exact_str) value
      (SupportCase.component self) ;;
  status <~
    assign field "status" (exact_optional (exact_enum Status_of_value)) value
      (SupportCase.status self) ;;
  priority <~
    assign field "priority" (exact_optional (exact_enum Priority_of_value)) value
      (SupportCase.priority self) ;;
  severity <~
    assign field "severity" (exact_optional exact_str) value
      (SupportCase.severity self) ;;
  created_at <~
    assign field "created_at" exact_datetime value
      (SupportCase.created_at self) ;;
  updated_at <~
    assign field "updated_at" exact_datetime value
      (SupportCase.updated_at self) ;;
  due_date <~
    assign field "due_date" (exact_optional exact_datetime) value
      (SupportCase.due_date self) ;;
  symptoms <~
    assign field "symptoms" (exact_list exact_str) value
      (SupportCase.symptoms self) ;;
  error_messages <~
    assign field "error_messages" (exact_list exact_str) value
      (SupportCase.error_messages self) ;;
  reproduction_steps <~
    assign field "reproduction_steps" (exact_list exact_str) value
      (SupportCase.reproduction_steps self) ;;
  root_cause <~
    assign field "root_cause" (exact_optional exact_str) value
      (SupportCase.root_cause self) ;;
  solution <~
    assign field "solution" (exact_optional exact_str) value
      (SupportCase.solution self) ;;
  workaround <~
    assign field "workaround" (exact_optional exact_str) value
      (SupportCase.workaround self) ;;
  logs <~ assign field "logs" no_place value (SupportCase.logs self) ;;
  law_uri <~
    assign field "law_uri" (exact_optional exact_str) value
      (SupportCase.law_uri self) ;;
  dcr_uri <~
    assign field "dcr_uri" (exact_optional exact_str) value
      (SupportCase.dcr_uri self) ;;
  tags <~ assign field "tags" no_place value (SupportCase.tags self) ;;
  category <~
    assign field "category" (exact_optional exact_str) value
      (SupportCase.category self) ;;
  subcategory <~
    assign field "subcategory" (exact_optional exact_str) value
      (SupportCase.subcategory self) ;;
  escalation_flags <~
    assign field "escalation_flags"
      (exact_list (exact_enum EscalationFlag_of_value)) value
      (SupportCase.escalation_flags self) ;;
  brandon_flags <~
    assign field "brandon_flags" (exact_list exact_str) value
      (SupportCase.brandon_flags self) ;;
  related_cases <~
    assign field "related_cases" (exact_list exact_str) value
      (SupportCase.related_cases self) ;;
  parent_case <~
    assign field "parent_case" (exact_optional exact_str) value
      (SupportCase.parent_case self) ;;
  description <~
    assign field "description" (exact_optional exact_str) value
      (SupportCase.description self) ;;
  rendered_description <~
    assign field "rendered_description" (exact_optional exact_str) value
      (SupportCase.rendered_description self) ;;
  notes <~
    assign field "notes" (exact_list exact_str) value
      (SupportCase.notes self) ;;
  metrics <~
    assign field "metrics" no_place value (SupportCase.metrics self) ;;
  custom_fields <~
    assign field "custom_fields" exact_dict value
      (SupportCase.custom_fields self) ;;
  Some (SupportCase.mk
          case_id title customer product component status priority severity
          created_at updated_at due_date symptoms error_messages
          reproduction_steps root_cause solution workaround logs law_uri
          dcr_uri tags category subcategory escalation_flags brandon_flags
          related_cases parent_case description rendered_description notes
          metrics custom_fields).

(** [getattr(self, field, [])] for one of the four list fields that
    [update_case] extends. *)
Definition SupportCase_getattr_list (self : SupportCase.t) (field : string)
  : list string :=
  if String.eqb field "symptoms" then SupportCase.symptoms self
  else if String.eqb field "error_messages" then
    SupportCase.error_messages self
  else if String.eqb field "reproduction_steps" then
    SupportCase.reproduction_steps self
  else SupportCase.notes self.

(** [updates.dict(exclude_unset=True)]: the fields the update sets, in
    declaration order. *)
Definition entry {A : Type} (name : string) (enc : A -> pyval) (o : option A)
  : list (string * pyval) :=
  match o with
  | Some v => [(name, enc v)]
  | None => []
  end.

Definition CaseUpdate_dict (u : CaseUpdate.t) : list (string * pyval) :=
  entry "title" (opt_pyval PStr) (CaseUpdate.title u)
  ++ entry "status" (opt_pyval (fun s => PStr (Status_value s)))
       (CaseUpdate.status u)
  ++ entry "priority" (opt_pyval (fun p => PStr (Priority_value p)))
       (CaseUpdate.priority u)
  ++ entry "description" (opt_pyval PStr) (CaseUpdate.description u)
  ++ entry "solution" (opt_pyval PStr) (CaseUpdate.solution u)
  ++ entry "workaround" (opt_pyval PStr) (CaseUpdate.workaround u)
  ++ entry "root_cause" (opt_pyval PStr) (CaseUpdate.root_cause u)
  ++ entry "symptoms" str_list (CaseUpdate.symptoms u)
  ++ entry "error_messages" str_list (CaseUpdate.error_messages u)
  ++ entry "reproduction_steps" str_list (CaseUpdate.reproduction_steps u)
  ++ entry "notes" str_list (CaseUpdate.notes u).

(** ** The normalising helpers of the parser ([scp/parsers.py])

    The helpers that work by regular expressions are not embedded. *)
Module ICMParser.
(** [s.replace(' ', '_')] *)
Fixpoint replace_space (s : string) : string :=
  match s with
  | EmptyString => EmptyString
  | String a s' =>
      String (if Ascii.eqb a " "%char then "_"%char else a) (replace_space s')
  end.

(** A [Priority] member is the string of its value, which the string branch
    maps to the member itself. *)
Definition _normalize_priority (priority : pyval) : Priority :=
  match priority with
  | PStr s =>
      let priority_lower := PyStr.lower s in
      if PyStr.mem priority_lower ["critical"; "crit"; "1"] then CRITICAL
      else if PyStr.mem priority_lower ["high"; "2"] then HIGH
      else if PyStr.mem priority_lower ["medium"; "med"; "3"] then MEDIUM
      else if PyStr.mem priority_lower ["low"; "4"] then LOW
      else MEDIUM
  | _ => MEDIUM
  end.

Definition _normalize_status (status : pyval) : Status :=
  match status with
  | PStr s =>
      let status_lower := replace_space (PyStr.lower s) in
      match Status_of_value status_lower with
      | Some st => st
      | None => OPEN
      end
  | _ => OPEN
  end.

Definition TAG_KEYWORDS : list (string * list string) :=
  [ ("performance", ["slow"; "timeout"; "latency"; "performance"; "delay"]);
    ("connectivity", ["connection"; "network"; "unreachable"; "dns"]);
    ("authentication", ["auth"; "login"; "permission"; "access denied"]);
    ("database", ["sql"; "database"; "db"; "query"; "connection pool"]);
    ("api", ["api"; "rest"; "endpoint"; "service"; "microservice"]);
    ("storage", ["storage"; "blob"; "file"; "disk"; "capacity"]);
    ("monitoring", ["alert"; "metric"; "dashboard"; "telemetry"]);
    ("security", ["security"; "vulnerability"; "breach"; "certificate"]) ].

Definition EPS_KEYWORDS : list (EscalationFlag * list string) :=
  [ (EPS_CRITICAL, ["critical"; "outage"; "down"; "service unavailable"]);
    (EPS_HIGH, ["high priority"; "urgent"; "business critical"]);
    (BRANDON_FLAG, ["brandon"; "escalation"; "management attention"]);
    (CUSTOMER_ESCALATION, ["customer escalation"; "complaint"; "dissatisfied"]);
    (MEDIA_ATTENTION, ["media"; "press"; "public"; "social media"]) ].

(** The number of keywords found in the lowered text. *)
Definition matches_in (text_lower : string) (keywords : list string) : nat :=
  List.length (filter (fun keyword => PyStr.contains keyword text_lower) keywords).

(** The body of the loop of [_generate_tags] for one table row: each keyword
    found adds 0.2 to the confidence, which is capped at 1.0. *)
Definition tag_for (text_lower : string) (row : string * list string)
  : result (list CaseTag.t) :=
  let matches := matches_in text_lower (snd row) in
  if 0 <? matches then
    let confidence := Qmult (2 # 10) (inject_Z (Z.of_nat matches)) in
    let confidence := if Qle_bool confidence 1 then confidence else 1%Q in
    tag <- CaseTag.new (fst row) confidence "auto_parser" ;; Ok [tag]
  else Ok [].

Definition _generate_tags (text : string) : result (list CaseTag.t) :=
  let text_lower := PyStr.lower text in
  tags <- mapM (tag_for text_lower) TAG_KEYWORDS ;;
  Ok (List.concat tags).

Definition _detect_escalation_flags (text : string) : list EscalationFlag :=
  let text_lower := PyStr.lower text in
  map fst
    (filter (fun row =>
               existsb (fun keyword => PyStr.contains keyword text_lower)
                       (snd row))
            EPS_KEYWORDS).
End ICMParser.

(** ** The case store ([scp/memory.py])

    The lock around every method makes each of them atomic; the store is
    the dict [self._cases]. *)
Module MemoryStore.
Definition t : Type := list (string * SupportCase.t).

Definition empty : t := [].

Definition add_case (now : datetime) (self : t) (case : SupportCase.t) : t :=
  dict_set self (SupportCase.case_id case)
           (SupportCase.set_updated_at case now).

Definition get_case (self : t) (case_id : string) : option SupportCase.t :=
  dict_get self case_id.

Definition get_all_cases (self : t) : list SupportCase.t :=
  dict_values self.

Definition get_cases_by_status (self : t) (status : Status)
  : list SupportCase.t :=
  filter (fun case => Status_is (SupportCase.status case) status)
         (dict_values self).

Definition get_cases_by_priority (self : t) (priority : Priority)
  : list SupportCase.t :=
  filter (fun case => Priority_is (SupportCase.priority case) priority)
         (dict_values self).

Definition clear_all (self : t) : t := [].

Definition delete_case (self : t) (case_id : string) : t * bool :=
  if dict_mem self case_id then (dict_del self case_id, true)
  else (self, false).

Definition case_exists (self : t) (case_id : string) : bool :=
  dict_mem self case_id.

Definition get_case_count (self : t) : nat :=
  List.length self.

(** Truthiness of an [Optional[List[...]]] argument: [None] and the empty
    list are both false. *)
Definition given {A : Type} (o : option (list A)) : option (list A) :=
  match o with
  | Some (x :: l) => Some (x :: l)
  | _ => None
  end.

Definition search_cases (self : t) (query : string)
  (status_filter : option (list Status))
  (priority_filter : option (list Priority))
  (case_ids : option (list string)) : list SupportCase.t :=
  let cases := dict_values self in
  let cases :=
    match given case_ids with
    | Some ids =>
        filter (fun case => PyStr.mem (SupportCase.case_id case) ids) cases
    | None => cases
    end in
  let cases :=
    match given status_filter with
    | Some sts =>
        filter (fun case => existsb (Status_is (SupportCase.status case)) sts)
               cases
    | None => cases
    end in
  let cases :=
    match given priority_filter with
    | Some prs =>
        filter (fun case =>
                  existsb (Priority_is (SupportCase.priority case)) prs)
               cases
    | None => cases
    end in
  if PyStr.truthy query then
    let query_lower := PyStr.lower query in
    filter (fun case =>
              PyStr.contains query_lower
                (PyStr.lower (SupportCase.get_text_content case)))
           cases
  else cases.

(** [tag_counts[name] = tag_counts.get(name, 0) + 1] over a list of names. *)
Definition count_names (names : list string) : list (string * nat) :=
  fold_left
    (fun tag_counts name =>
       dict_set tag_counts name
         (match dict_get tag_counts name with
          | Some n => n + 1
          | None => 1
          end))
    names [].

(** [value or 0] *)
Definition or_zero (o : option Q) : Q :=
  match o with
  | Some q => q
  | None => 0%Q
  end.

(** [get_stats], without the size of the pickled store. *)
Definition get_stats (self : t) : SCPStats.t :=
  let cases := dict_values self in
  let status_counts :=
    map (fun status =>
           (status,
            List.length
              (filter (fun case => Status_is (SupportCase.status case) status)
                      cases)))
        [OPEN; IN_PROGRESS; PENDING_CUSTOMER; PENDING_MICROSOFT; RESOLVED;
         CLOSED] in
  let priority_counts :=
    map (fun priority =>
           (priority,
            List.length
              (filter (fun case =>
                         Priority_is (SupportCase.priority case) priority)
                      cases)))
        [CRITICAL; HIGH; MEDIUM; LOW] in
  let resolved_cases :=
    filter (fun case => Status_is (SupportCase.status case) RESOLVED) cases in
  let avg_resolution_time :=
    match resolved_cases with
    | [] => None
    | _ =>
        let total_time :=
          fold_left Qplus
            (map (fun case =>
                    or_zero (CaseMetrics.resolution_time_hours
                               (SupportCase.metrics case)))
                 resolved_cases)
            0%Q in
        Some (total_time / inject_Z (Z.of_nat (List.length resolved_cases)))%Q
    end in
  let tag_counts :=
    count_names
      (flat_map (fun case => map CaseTag.name (SupportCase.tags case)) cases) in
  let top_tags :=
    firstn 10 (sort_desc (fun nc => inject_Z (Z.of_nat (snd nc))) tag_counts) in
  SCPStats.mk (List.length cases) status_counts priority_counts
    avg_resolution_time top_tags.

(** Iteration over a value with [for ... in]. *)
Definition py_iter (v : pyval) : result (list pyval) :=
  match v with
  | PList l | PTuple l => Ok l
  | PDict d => Ok (map PStr (dict_keys d))
  | PStr s =>
      Ok (map (fun a => PStr (String a EmptyString)) (list_ascii_of_string s))
  | _ => Raise TypeError
  end.

Section Persistence.
Context {fmt : DatetimeFormat}.

Definition export_to_json (now : datetime) (self : t) : json :=
  let cases_data := map SupportCase_dict (dict_values self) in
  json_dumps
    (PDict [ ("export_timestamp", PStr (datetime_isoformat now));
             ("total_cases", PInt (Z.of_nat (List.length cases_data)));
             ("cases", PList cases_data) ]).

(** The loop of [import_from_json].  [clock tick] is the reading the
    constructor takes for the record at hand and [clock (S tick)] the
    one [add_case] takes.  The handler of a rejected record prints
    [case_data.get('case_id', 'unknown')], which only a dict answers:
    for any other value the handler itself raises and the loop is
    left. *)
Fixpoint import_loop (clock : nat -> datetime) (tick : nat) (self : t)
  (cases_data : list pyval) (imported_count : Z) : t * result Z :=
  match cases_data with
  | [] => (self, Ok imported_count)
  | case_data :: rest =>
      match SupportCase_validate (clock tick) case_data with
      | Ok case =>
          import_loop clock (2 + tick)
            (add_case (clock (S tick)) self case) rest
            (imported_count + 1)%Z
      | Raise _ =>
          match case_data with
          | PDict _ => import_loop clock (2 + tick) self rest imported_count
          | _ => (self, Raise AttributeError)
          end
      end
  end.

Definition import_from_json (clock : nat -> datetime) (self : t)
  (json_data : json) : t * result Z :=
  match json_loads json_data with
  | PDict data =>
      let cases_data :=
        match dict_get data "cases" with
        | Some v => v
        | None => PList []
        end in
      match py_iter cases_data with
      | Ok records => import_loop clock 0 self records 0%Z
      | Raise e => (self, Raise e)
      end
  | _ => (self, Raise AttributeError)
  end.
End Persistence.
End MemoryStore.

(** ** Similarity engines ([scp/search.py]) *)

(** The flat inner-product index of the FAISS library, as far as the engine
    uses it: rows are appended, and a search answers the [k] rows of largest
    inner product with the query, best first, each with its row number.
    The order among rows of equal product is the library's own and nothing
    in this source fixes it; they are taken in row order here, and a
    statement below that names which of two such rows is answered holds of
    this choice only.  When fewer than [k] rows exist the
    answer is padded with row number [-1] and the lowest score; a request
    for fewer than one row is refused. *)
Module IndexFlatIP.
Definition t : Type := list (list Q).

Definition inner_product (u v : list Q) : Q :=
  fold_right Qplus 0%Q (map (fun p => (fst p * snd p)%Q) (combine u v)).

Definition ntotal (self : t) : nat := List.length self.

Definition add (self : t) (v : list Q) : t := self ++ [v].

Definition lowest : Q :=
  ((- 340282346638528859811704183484516925440)%Z # 1)%Q.

Fixpoint number_from {A : Type} (i : Z) (l : list A) : list (A * Z) :=
  match l with
  | [] => []
  | a :: l' => (a, i) :: number_from (i + 1)%Z l'
  end.

Definition search (self : t) (q : list Q) (k : Z) : result (list (Q * Z)) :=
  if (k <=? 0)%Z then Raise AssertionError
  else
    let scored :=
      map (fun vi => (inner_product q (fst vi), snd vi))
          (number_from 0%Z self) in
    let best := firstn (Z.to_nat k) (sort_desc fst scored) in
    Ok (best ++ repeat (lowest, (-1)%Z) (Z.to_nat k - List.length best)).
End IndexFlatIP.

Module VectorSearchEngine.
Record t : Type := mk {
  encoder : string -> list Q;
  index : IndexFlatIP.t;
  case_ids : list string
}.

Definition _encode_text (self : t) (text : string) : list Q :=
  encoder self (if PyStr.strip_is_empty text then "empty case" else text).

Definition add_case (self : t) (case : SupportCase.t) : t :=
  let embedding := _encode_text self (SupportCase.get_text_content case) in
  mk (encoder self)
     (IndexFlatIP.add (index self) embedding)
     (case_ids self ++ [SupportCase.case_id case]).

(** Nothing is removed: the answer only says whether the id is indexed. *)
Definition remove_case (self : t) (case_id : string) : t * bool :=
  (self, PyStr.mem case_id (case_ids self)).

Definition update_case (self : t) (case : SupportCase.t) : t :=
  let self1 :=
    if PyStr.mem (SupportCase.case_id case) (case_ids self)
    then fst (remove_case self (SupportCase.case_id case))
    else self in
  add_case self1 case.

Definition search (self : t) (query : string) (k : Z) (threshold : Q)
  : result (list (string * Q)) :=
  if IndexFlatIP.ntotal (index self) =? 0 then Ok []
  else
    let query_embedding := _encode_text self query in
    let n := Z.of_nat (List.length (case_ids self)) in
    hits <- IndexFlatIP.search (index self) query_embedding (Z.min k n) ;;
    Ok (flat_map
          (fun hit =>
             let score := fst hit in
             let idx := snd hit in
             if ((0 <=? idx)%Z && (idx <? n)%Z) && Qle_bool threshold score
             then [(nth (Z.to_nat idx) (case_ids self) EmptyString, score)]
             else [])
          hits).

Definition find_similar_cases (self : t) (case : SupportCase.t) (k : Z)
  (threshold : Q) : result (list (string * Q)) :=
  let text_content := SupportCase.get_text_content case in
  search self text_content (k + 1)%Z threshold.

Definition rebuild_index (self : t) (cases : list SupportCase.t) : t :=
  fold_left add_case cases (mk (encoder self) [] []).
End VectorSearchEngine.

Module SimpleSearchEngine.
Definition t : Type := list (string * SupportCase.t).

Definition empty : t := [].

Definition add_case (self : t) (case : SupportCase.t) : t :=
  dict_set self (SupportCase.case_id case) case.

Definition update_case (self : t) (case : SupportCase.t) : t :=
  dict_set self (SupportCase.case_id case) case.

Definition remove_case (self : t) (case_id : string) : t * bool :=
  if dict_mem self case_id then (dict_del self case_id, true)
  else (self, false).

(** [a & b] and [a | b] on sets kept as duplicate-free lists. *)
Definition set_inter (a b : list string) : list string :=
  filter (fun w => PyStr.mem w b) a.

Definition set_union (a b : list string) : list string :=
  a ++ filter (fun w => negb (PyStr.mem w a)) b.

Definition words (text : string) : list string :=
  PyStr.to_set (PyStr.split (PyStr.lower text)).

(** [intersection / union] *)
Definition jaccard (query_words case_words : list string) : Q :=
  (Z.of_nat (List.length (set_inter query_words case_words))
   # Pos.of_nat (List.length (set_union query_words case_words)))%Q.

(** The body of the loop over the indexed cases: nothing when the union is
    empty or the score is below the threshold. *)
Definition score_case (query_words : list string) (threshold : Q)
  (entry : string * SupportCase.t) : list (string * Q) :=
  let case_words := words (SupportCase.get_text_content (snd entry)) in
  let union := List.length (set_union query_words case_words) in
  if 0 <? union then
    let score := jaccard query_words case_words in
    if Qle_bool threshold score then [(fst entry, score)] else []
  else [].

Definition search (self : t) (query : string) (k : Z) (threshold : Q)
  : list (string * Q) :=
  let query_words := words query in
  match query_words with
  | [] => []
  | _ =>
      let results := flat_map (score_case query_words threshold) self in
      py_slice_to (sort_desc snd results) k
  end.

Definition find_similar_cases (self : t) (case : SupportCase.t) (k : Z)
  (threshold : Q) : list (string * Q) :=
  let text_content := SupportCase.get_text_content case in
  let results := search self text_content (k + 1)%Z threshold in
  filter (fun r => negb (String.eqb (fst r) (SupportCase.case_id case)))
         results.

Definition rebuild_index (cases : list SupportCase.t) : t :=
  fold_left (fun d case => dict_set d (SupportCase.case_id case) case)
            cases [].
End SimpleSearchEngine.

(** ** The orchestrator ([scp/core.py]) *)

(** The two engines share method names; the manager holds one of them. *)
Inductive SearchEngine : Type :=
| Vector (e : VectorSearchEngine.t)
| Simple (e : SimpleSearchEngine.t).

Module SCPManager.
Record t : Type := mk {
  memory : MemoryStore.t;
  search_engine : SearchEngine
}.

(** The constructor sets the flag exactly when it builds the vector
    engine. *)
Definition vector_search_enabled (self : t) : bool :=
  match search_engine self with
  | Vector _ => true
  | Simple _ => false
  end.

Definition engine_add_case (e : SearchEngine) (case : SupportCase.t)
  : SearchEngine :=
  match e with
  | Vector v => Vector (VectorSearchEngine.add_case v case)
  | Simple s => Simple (SimpleSearchEngine.add_case s case)
  end.

Definition engine_remove_case (e : SearchEngine) (case_id : string)
  : SearchEngine :=
  match e with
  | Vector v => Vector (fst (VectorSearchEngine.remove_case v case_id))
  | Simple s => Simple (fst (SimpleSearchEngine.remove_case s case_id))
  end.

Definition engine_find_similar_cases (e : SearchEngine)
  (case : SupportCase.t) (k : Z) (threshold : Q)
  : result (list (string * Q)) :=
  match e with
  | Vector v => VectorSearchEngine.find_similar_cases v case k threshold
  | Simple s => Ok (SimpleSearchEngine.find_similar_cases s case k threshold)
  end.

Definition engine_rebuild_index (e : SearchEngine)
  (cases : list SupportCase.t) : SearchEngine :=
  match e with
  | Vector v => Vector (VectorSearchEngine.rebuild_index v cases)
  | Simple _ => Simple (SimpleSearchEngine.rebuild_index cases)
  end.

(** [add_case] with a [SupportCase] argument.  The engine receives the
    object the store has just stamped. *)
Definition add_case (now : datetime) (self : t) (case : SupportCase.t) : t :=
  let case := SupportCase.set_updated_at case now in
  mk (MemoryStore.add_case now (memory self) case)
     (engine_add_case (search_engine self) case).

Definition get_case (self : t) (case_id : string) : option SupportCase.t :=
  MemoryStore.get_case (memory self) case_id.

Definition delete_case (self : t) (case_id : string) : t * bool :=
  let (memory1, deleted) := MemoryStore.delete_case (memory self) case_id in
  if deleted
  then (mk memory1 (engine_remove_case (search_engine self) case_id), true)
  else (mk memory1 (search_engine self), false).

Definition date_ok (q : CaseQuery.t) (case : SupportCase.t) : bool :=
  negb (match CaseQuery.date_from q with
        | Some d => (SupportCase.created_at case <? d)%Z
        | None => false
        end)
  && negb (match CaseQuery.date_to q with
           | Some d => (d <? SupportCase.created_at case)%Z
           | None => false
           end).

(** The candidates: the store's filter, then the date and tag filters. *)
Definition candidates (self : t) (q : CaseQuery.t) : list SupportCase.t :=
  let cases :=
    MemoryStore.search_cases (memory self) (CaseQuery.query q)
      (CaseQuery.status_filter q) (CaseQuery.priority_filter q)
      (CaseQuery.case_ids q) in
  let cases :=
    match CaseQuery.date_from q, CaseQuery.date_to q with
    | None, None => cases
    | _, _ => filter (date_ok q) cases
    end in
  match MemoryStore.given (CaseQuery.tags q) with
  | Some tag_set =>
      filter (fun case =>
                existsb (fun tag => PyStr.mem (CaseTag.name tag) tag_set)
                        (SupportCase.tags case))
             cases
  | None => cases
  end.

(** [k=len(cases) if cases else 100] *)
Definition search_k (cases : list SupportCase.t) : Z :=
  match cases with
  | [] => 100%Z
  | _ => Z.of_nat (List.length cases)
  end.

(** [{case_id: score for case_id, score in vector_results}] *)
Definition score_map_of (vector_results : list (string * Q))
  : list (string * Q) :=
  fold_left (fun d r => dict_set d (fst r) (snd r)) vector_results [].

Definition score_map_get (score_map : list (string * Q)) (case_id : string)
  : Q :=
  match dict_get score_map case_id with
  | Some s => s
  | None => 0%Q
  end.

(** The answer before the limit is applied. *)
Definition scored_cases (self : t) (q : CaseQuery.t)
  : result (list SearchResult.t) :=
  let cases := candidates self q in
  match search_engine self with
  | Vector v =>
      if PyStr.truthy (CaseQuery.query q) then
        vector_results <-
          VectorSearchEngine.search v (CaseQuery.query q)
            (search_k cases) 0%Q ;;
        let score_map := score_map_of vector_results in
        rs <- mapM (fun case =>
                      SearchResult.new case
                        (score_map_get score_map (SupportCase.case_id case)))
                   cases ;;
        Ok (sort_desc SearchResult.similarity_score rs)
      else mapM (fun case => SearchResult.new case 1%Q) cases
  | Simple _ => mapM (fun case => SearchResult.new case 1%Q) cases
  end.

Definition search_cases (self : t) (q : CaseQuery.t)
  : result (list SearchResult.t) :=
  search_results <- scored_cases self q ;;
  Ok (py_slice_to search_results (CaseQuery.limit q)).

(** [search_cases] called with a plain string. *)
Definition search_cases_str (self : t) (text : string)
  : result (list SearchResult.t) :=
  search_cases self (CaseQuery.of_str text).

Definition find_similar_cases (self : t) (case_id : string) (limit : Z)
  (threshold : Q) : result (list SearchResult.t) :=
  match MemoryStore.get_case (memory self) case_id with
  | None => Ok []
  | Some case =>
      similar_results <-
        engine_find_similar_cases (search_engine self) case limit threshold ;;
      rs <- mapM (fun r =>
                    if negb (String.eqb (fst r) case_id) then
                      match MemoryStore.get_case (memory self) (fst r) with
                      | Some similar_case =>
                          x <- SearchResult.new similar_case (snd r) ;; Ok [x]
                      | None => Ok []
                      end
                    else Ok [])
                 similar_results ;;
      Ok (List.concat rs)
  end.

Definition _sync_search_index (self : t) : t :=
  match MemoryStore.get_all_cases (memory self) with
  | [] => self
  | all_cases =>
      mk (memory self) (engine_rebuild_index (search_engine self) all_cases)
  end.

Definition import_data {fmt : DatetimeFormat} (clock : nat -> datetime)
  (self : t) (json_data : json) : t * result Z :=
  let (memory1, r) :=
    MemoryStore.import_from_json clock (memory self) json_data in
  match r with
  | Ok n => (_sync_search_index (mk memory1 (search_engine self)), Ok n)
  | Raise e => (mk memory1 (search_engine self), Raise e)
  end.

Definition engine_update_case (e : SearchEngine) (case : SupportCase.t)
  : SearchEngine :=
  match e with
  | Vector v => Vector (VectorSearchEngine.update_case v case)
  | Simple s => Simple (SimpleSearchEngine.update_case s case)
  end.

(** [update_case] and [bulk_update_tags] change the object they found
    under [case_id] in place, so whatever holds that object shows the
    change before anything is stored: the store's entry under [case_id],
    and the entry of the lexical engine, which is given the store's objects.
    [case] is the object after the change. *)
Definition engine_changed_in_place (e : SearchEngine) (case_id : string)
  (case : SupportCase.t) : SearchEngine :=
  match e with
  | Vector v => Vector v
  | Simple s => Simple (if dict_mem s case_id then dict_set s case_id case else s)
  end.

(** The end of [update_case] and of an entry of [bulk_update_tags]: the
    changed and stamped object is stored under the id it now carries and
    handed to the engine.  An object that earlier changes of [case_id] have
    filed under further keys would show the change there as well; those
    entries are not followed. *)
Definition store_changed (now : datetime) (self : t) (case_id : string)
  (case : SupportCase.t) : t :=
  mk (MemoryStore.add_case now (dict_set (memory self) case_id case) case)
     (engine_update_case
        (engine_changed_in_place (search_engine self) case_id case) case).

(** [update_case] with a [CaseUpdate] argument. *)
Definition update_case (now : datetime) (self : t) (case_id : string)
  (updates : CaseUpdate.t) : t * option SupportCase.t :=
  match MemoryStore.get_case (memory self) case_id with
  | None => (self, None)
  | Some case =>
      let case :=
        SupportCase.set_updated_at (SupportCase.apply_update case updates) now in
      (store_changed now self case_id case, Some case)
  end.

(** The loop of [update_case] over the entries of the update mapping: a key
    that names no attribute is passed over, a list given for one of the four
    list fields extends it and any other value given for them is passed
    over, every other field is assigned.  A key that names a method or an
    inherited attribute has no counterpart: the program raises there, after
    the assignments made so far. *)
Fixpoint apply_update_dict (case : SupportCase.t)
  (update_dict : list (string * pyval)) : option SupportCase.t :=
  match update_dict with
  | [] => Some case
  | (field, value) :: rest =>
      if PyStr.mem field SupportCase_fields then
        if PyStr.mem field
             ["symptoms"; "error_messages"; "reproduction_steps"; "notes"]
        then
          match value with
          | PList items =>
              let current_list := SupportCase_getattr_list case field in
              case <~ SupportCase_setattr case field
                        (PList (map PStr current_list ++ items)) ;;
              apply_update_dict case rest
          | _ => apply_update_dict case rest
          end
        else
          case <~ SupportCase_setattr case field value ;;
          apply_update_dict case rest
      else if SupportCase_other_attribute field then None
      else apply_update_dict case rest
  end.

(** [update_case] with a mapping.  [None]: the mapping holds an entry the
    embedding has no place for. *)
Definition update_case_dict (now : datetime) (self : t) (case_id : string)
  (update_dict : list (string * pyval)) : option (t * option SupportCase.t) :=
  match MemoryStore.get_case (memory self) case_id with
  | None => Some (self, None)
  | Some case =>
      case <~ apply_update_dict case update_dict ;;
      let case := SupportCase.set_updated_at case now in
      Some (store_changed now self case_id case, Some case)
  end.

(** The tags of one entry of [bulk_update_tags], added in turn. *)
Definition add_tag_names (case : SupportCase.t) (tags : list string)
  : SupportCase.t :=
  fold_left
    (fun case tag_name =>
       fst (SupportCase.add_tag case tag_name 1%Q "bulk_update"))
    tags case.

(** [bulk_update_tags]: [clock i] is the reading taken when the [i]-th
    entry of the mapping is stored. *)
Fixpoint bulk_update_loop (clock : nat -> datetime) (tick : nat) (self : t)
  (tag_mappings : list (string * list string)) (updated_count : nat)
  : t * nat :=
  match tag_mappings with
  | [] => (self, updated_count)
  | (case_id, tags) :: rest =>
      match MemoryStore.get_case (memory self) case_id with
      | Some case =>
          let case :=
            SupportCase.set_updated_at (add_tag_names case tags) (clock tick) in
          bulk_update_loop clock (S tick)
            (store_changed (clock tick) self case_id case)
            rest (updated_count + 1)
      | None => bulk_update_loop clock (S tick) self rest updated_count
      end
  end.

Definition bulk_update_tags (clock : nat -> datetime) (self : t)
  (tag_mappings : list (string * list string)) : t * nat :=
  bulk_update_loop clock 0 self tag_mappings 0.

Definition get_case_ids (self : t) : list string :=
  map SupportCase.case_id (MemoryStore.get_all_cases (memory self)).

Definition get_stats (self : t) : SCPStats.t :=
  MemoryStore.get_stats (memory self).
End SCPManager.

(** ** Notions used in the statements *)

Definition tag_names (c : SupportCase.t) : list string :=
  map CaseTag.name (SupportCase.tags c).

(** A sequence of [add_tag] calls, each given as (name, confidence, source);
    a call that raises leaves the case as that call left it and the
    sequence goes on. *)
Definition add_tag_seq (c : SupportCase.t) (calls : list (string * Q * string))
  : SupportCase.t :=
  fold_left
    (fun c call =>
       fst (SupportCase.add_tag c (fst (fst call)) (snd (fst call)) (snd call)))
    calls c.

Definition other_name (name : string) (tag : CaseTag.t) : bool :=
  negb (String.eqb (CaseTag.name tag) name).

(** Every score of a result list lies between 0 and 1. *)
Definition scores_in_unit {A : Type} (rs : list (A * Q)) : Prop :=
  forall r, In r rs -> (0 <= snd r)%Q /\ (snd r <= 1)%Q.

(** The answer of the vector engine, read off the index search: the hits
    that name a known row and reach the threshold, in the order of the
    index answer. *)
Definition keep_hit (e : VectorSearchEngine.t) (threshold : Q) (hit : Q * Z)
  : list (string * Q) :=
  let n := Z.of_nat (List.length (VectorSearchEngine.case_ids e)) in
  if ((0 <=? snd hit)%Z && (snd hit <? n)%Z) && Qle_bool threshold (fst hit)
  then [(nth (Z.to_nat (snd hit)) (VectorSearchEngine.case_ids e) EmptyString,
         fst hit)]
  else [].

(** The invariant of the store: keys are distinct and every case is filed
    under its own id. *)
Definition store_wf (s : MemoryStore.t) : Prop :=
  NoDup (dict_keys s)
  /\ forall k c, In (k, c) s -> SupportCase.case_id c = k.

(** The ids of the cases in an answer of the orchestrator. *)
Definition result_ids (rs : list SearchResult.t) : list string :=
  map (fun r => SupportCase.case_id (SearchResult.case r)) rs.

(** The operations of the orchestrator that write to the store. *)
Inductive manager_op : Type :=
| Add (now : datetime) (case : SupportCase.t)
| Delete (case_id : string)
| Update (now : datetime) (case_id : string) (updates : CaseUpdate.t)
| UpdateDict (now : datetime) (case_id : string)
    (update_dict : list (string * pyval))
| BulkTags (clock : nat -> datetime)
    (tag_mappings : list (string * list string))
| Import (clock : nat -> datetime) (json_data : json).

(** The manager after an operation, whatever the operation answers; [None]
    where an update mapping leaves the embedding. *)
Definition apply_op {fmt : DatetimeFormat} (m : SCPManager.t)
  (op : manager_op) : option SCPManager.t :=
  match op with
  | Add now case => Some (SCPManager.add_case now m case)
  | Delete case_id => Some (fst (SCPManager.delete_case m case_id))
  | Update now case_id updates =>
      Some (fst (SCPManager.update_case now m case_id updates))
  | UpdateDict now case_id update_dict =>
      option_map fst (SCPManager.update_case_dict now m case_id update_dict)
  | BulkTags clock tag_mappings =>
      Some (fst (SCPManager.bulk_update_tags clock m tag_mappings))
  | Import clock json_data =>
      Some (fst (SCPManager.import_data clock m json_data))
  end.

Fixpoint run_ops {fmt : DatetimeFormat} (m : SCPManager.t)
  (ops : list manager_op) : option SCPManager.t :=
  match ops with
  | [] => Some m
  | op :: rest => m1 <~ apply_op m op ;; run_ops m1 rest
  end.

(** The operation is an update with a mapping that assigns [case_id]. *)
Definition rekeys (op : manager_op) : bool :=
  match op with
  | UpdateDict _ _ update_dict => dict_mem update_dict "case_id"
  | _ => false
  end.

(** The operation may store a case under the id: an [add_case] of a case
    with that id, an import, an update that assigns [case_id]. *)
Definition adds_id (case_id : string) (op : manager_op) : bool :=
  match op with
  | Add _ case => String.eqb (SupportCase.case_id case) case_id
  | Import _ _ => true
  | UpdateDict _ _ update_dict => dict_mem update_dict "case_id"
  | Delete _ | Update _ _ _ | BulkTags _ _ => false
  end.

(** As the specification words it: the number of rows asked of the index is
    the larger of the candidate count and 100. *)
Definition spec_search_k (cases : list SupportCase.t) : Z :=
  Z.max (Z.of_nat (List.length cases)) 100.

(** As the specification words it: under the lexical engine every candidate
    is scored by the Jaccard similarity of the query's and the case's word
    sets, and the answer is sorted by that score. *)
Definition spec_lexical_scores (query : string) (cases : list SupportCase.t)
  : list (string * Q) :=
  sort_desc snd
    (map (fun case =>
            (SupportCase.case_id case,
             SimpleSearchEngine.jaccard
               (SimpleSearchEngine.words query)
               (SimpleSearchEngine.words (SupportCase.get_text_content case))))
         cases).

(** Ids and scores of an answer of the orchestrator. *)
Definition result_scores (rs : list SearchResult.t) : list (string * Q) :=
  map (fun r => (SupportCase.case_id (SearchResult.case r),
                 SearchResult.similarity_score r)) rs.

(** The score of the last pair of an engine answer that names the id. *)
Definition last_score (vector_results : list (string * Q)) (case_id : string)
  : option Q :=
  option_map snd
    (find (fun r => String.eqb (fst r) case_id) (rev vector_results)).

(** A result with score 1.0 and no matched fields. *)
Definition unscored (case : SupportCase.t) : SearchResult.t :=
  SearchResult.mk case 1%Q [].

(** A value after [json.dumps] and [json.loads]. *)
Definition json_roundtrip {fmt : DatetimeFormat} (v : pyval) : pyval :=
  json_loads (json_dumps v).

(** A case up to its [updated_at]. *)
Definition forget_updated_at (c : SupportCase.t) : SupportCase.t :=
  SupportCase.set_updated_at c 0%Z.

(** Two lists of cases hold the same cases, [updated_at] aside. *)
Definition same_cases (xs ys : list SupportCase.t) : Prop :=
  forall c, In c (map forget_updated_at xs) <-> In c (map forget_updated_at ys).

(** [title], [status], [priority] and [description] hold a value, as the
    declarations of the model say. *)
Definition required_fields_set (c : SupportCase.t) : bool :=
  match SupportCase.title c, SupportCase.status c, SupportCase.priority c,
        SupportCase.description c with
  | Some _, Some _, Some _, Some _ => true
  | _, _, _, _ => false
  end.

(** What the constructor checks of a case: the four fields that are not
    [Optional] hold a value, a tag confidence lies between 0 and 1, a
    customer satisfaction between 1 and 5. *)
Definition valid_case (c : SupportCase.t) : bool :=
  required_fields_set c
  && forallb (fun tag => in_range 0 1 (CaseTag.confidence tag))
             (SupportCase.tags c)
  && match CaseMetrics.customer_satisfaction (SupportCase.metrics c) with
     | Some q => in_range 1 5 q
     | None => true
     end.

(** The custom fields hold only values that JSON can carry. *)
Definition native_custom_fields (c : SupportCase.t) : bool :=
  forallb (fun kv => json_native (snd kv)) (SupportCase.custom_fields c).

(** [restore(snapshot(S))] into an empty store. *)
Definition restore_snapshot {fmt : DatetimeFormat} (clock : nat -> datetime)
  (now : datetime) (S : MemoryStore.t) : MemoryStore.t * result Z :=
  MemoryStore.import_from_json clock MemoryStore.empty
    (MemoryStore.export_to_json now S).

(** ** Notions used in the further properties *)

(** The lexical engine holds exactly what the store holds. *)
Definition lexical_in_sync (m : SCPManager.t) : Prop :=
  SCPManager.search_engine m = Simple (SCPManager.memory m).

(** What an update leaves of a list field: the old entries, then the new. *)
Definition extended (old : list string) (new : option (list string))
  : list string :=
  match new with
  | Some l => old ++ l
  | None => old
  end.

(** ** Concrete inputs used below *)

Module Fixtures.
(** A format that writes the microsecond count in decimal. *)
Definition decimal_format : DatetimeFormat := {|
  datetime_str := fun d => NilEmpty.string_of_int (Z.to_int d);
  datetime_isoformat := fun d => NilEmpty.string_of_int (Z.to_int d);
  parse_datetime := fun s => option_map Z.of_int (NilEmpty.int_of_string s)
|}.

Definition case_A : SupportCase.t := SupportCase.new 0%Z "A" "database timeout".
Definition case_B : SupportCase.t := SupportCase.new 0%Z "B" "API 503 errors".
Definition case_C : SupportCase.t :=
  SupportCase.new 0%Z "C" "database connection pool exhausted".

(** An encoder with unit-length answers in the plane, by word count. *)
Definition unit_encoder (text : string) : list Q :=
  match List.length (PyStr.split text) with
  | 1 => [1%Q; 0%Q]
  | 2 => [(4 # 5)%Q; (3 # 5)%Q]
  | 3 => [(3 # 5)%Q; (4 # 5)%Q]
  | _ => [(-1)%Q; 0%Q]
  end.

Definition simple_manager : SCPManager.t :=
  SCPManager.mk MemoryStore.empty (Simple SimpleSearchEngine.empty).

Definition vector_manager : SCPManager.t :=
  SCPManager.mk MemoryStore.empty
    (Vector (VectorSearchEngine.mk unit_encoder [] [])).

(** The store of the scenario: A, B and C added in this order. *)
Definition add_ABC (m : SCPManager.t) : SCPManager.t :=
  SCPManager.add_case 3%Z
    (SCPManager.add_case 2%Z (SCPManager.add_case 1%Z m case_A) case_B)
    case_C.
(** A case built by the constructor with two tags of one name. *)
Definition twice_tagged : SupportCase.t :=
  SupportCase.set_tags case_A
    [CaseTag.mk "db" 1%Q "import"; CaseTag.mk "db" (1 # 2)%Q "import"].
(** An encoder whose answers are not of unit length: the word count. *)
Definition count_encoder (text : string) : list Q :=
  [inject_Z (Z.of_nat (List.length (PyStr.split text)))].

(** The vector engine after A, B and C were indexed. *)
Definition vector_engine (encoder : string -> list Q) : VectorSearchEngine.t :=
  VectorSearchEngine.rebuild_index
    (VectorSearchEngine.mk encoder [] []) [case_A; case_B; case_C].

(** The lexical engine after A, B and C were indexed. *)
Definition simple_engine : SimpleSearchEngine.t :=
  SimpleSearchEngine.rebuild_index [case_A; case_B; case_C].
(** The scenario with C stored before A. *)
Definition add_CBA (m : SCPManager.t) : SCPManager.t :=
  SCPManager.add_case 3%Z
    (SCPManager.add_case 2%Z (SCPManager.add_case 1%Z m case_C) case_B)
    case_A.

(** Text "a", restricted to the id B. *)
Definition query_a_in_B : CaseQuery.t :=
  CaseQuery.mk "a" 10%Z (Some ["B"]) None None None None None.

(** A snapshot document of two records, the first of which is a number. *)
Definition number_then_A : json :=
  JObj [ ("cases",
          JArr [ JInt 42%Z;
                 JObj [("case_id", JStr "A"); ("title", JStr "database timeout")] ]) ].

(** The same document without the number. *)
Definition only_A : json :=
  JObj [ ("cases",
          JArr [ JObj [("case_id", JStr "A"); ("title", JStr "database timeout")] ]) ].

(** A record without a title, then the record of A. *)
Definition untitled_then_A : json :=
  JObj [ ("cases",
          JArr [ JObj [("case_id", JStr "X")];
                 JObj [("case_id", JStr "A"); ("title", JStr "database timeout")] ]) ].
(** A case whose custom fields hold a tuple. *)
Definition case_T : SupportCase.t :=
  SupportCase.mk "T" (Some "tuple") None None None (Some OPEN) (Some MEDIUM)
    None 0%Z 0%Z None [] [] [] None None None [] None None [] None None [] []
    [] None (Some EmptyString) None [] CaseMetrics.default
    [("ids", PTuple [PInt 1%Z; PInt 2%Z])].

(** A case with every kind of field filled in. *)
Definition case_full : SupportCase.t :=
  SupportCase.mk "F" (Some "full") (Some "contoso") None None (Some RESOLVED)
    (Some HIGH) None 5%Z 6%Z (Some 9%Z) ["slow"] ["E1"; "E2"] [] (Some "pool")
    None None [LogEntry.mk 7%Z "timeout" (Some "LAW") None] None None
    [CaseTag.mk "db" (1 # 2)%Q "auto"] None None [EPS_HIGH] [] ["A"] None
    (Some "details") None ["note"]
    (CaseMetrics.mk None (Some (3 # 2)%Q) (Some 4%Q) None 2%Z)
    [("ids", PList [PInt 1%Z; PStr "x"]); ("k", PDict [("n", PNone)])].
End Fixtures.

(** * Properties *)

(** ** The embedding on small inputs *)

Example split_lowered :
  PyStr.split (PyStr.lower "  Database  connection POOL ")
  = ["database"; "connection"; "pool"].
Proof. reflexivity. Qed.

Example slice_to_examples :
  py_slice_to [1; 2; 3; 4] 2%Z = [1; 2]
  /\ py_slice_to [1; 2; 3; 4] (-1)%Z = [1; 2; 3]
  /\ py_slice_to [1; 2; 3; 4] 9%Z = [1; 2; 3; 4].
Proof. repeat split; reflexivity. Qed.

Example sort_desc_is_stable :
  sort_desc snd [("a", 0%Q); ("b", 1%Q); ("c", 0%Q); ("d", 1%Q)]
  = [("b", 1%Q); ("d", 1%Q); ("a", 0%Q); ("c", 0%Q)].
Proof. reflexivity. Qed.

Example text_content_of_full_case :
  SupportCase.get_text_content Fixtures.case_full
  = "full details slow E1 E2 note pool timeout db".
Proof. reflexivity. Qed.

Example lexical_scores_of_scenario :
  SimpleSearchEngine.search Fixtures.simple_engine "database" 10%Z 0%Q
  = [("A", (1 # 2)%Q); ("C", (1 # 4)%Q); ("B", (0 # 4)%Q)].
Proof. reflexivity. Qed.

(** ** Lists, dicts, sorting *)

Lemma string_eqb_refl (s : string) : String.eqb s s = true.
Proof. apply String.eqb_refl. Qed.

Lemma mem_In (x : string) (xs : list string) : PyStr.mem x xs = true <-> In x xs.
Proof.
  unfold PyStr.mem. rewrite existsb_exists. split.
  - intros [y [Hy He]]. apply String.eqb_eq in He. now subst.
  - intros H. exists x. split; [assumption | apply String.eqb_refl].
Qed.

Lemma dict_get_set_same {V : Type} (d : list (string * V)) k v :
  dict_get (dict_set d k v) k = Some v.
Proof.
  induction d as [|[k0 v0] d IH]; simpl.
  - now rewrite String.eqb_refl.
  - destruct (String.eqb k0 k) eqn:E; simpl; rewrite E; auto.
Qed.

Lemma dict_get_set_other {V : Type} (d : list (string * V)) k k' v :
  k <> k' -> dict_get (dict_set d k v) k' = dict_get d k'.
Proof.
  intros Hne. induction d as [|[k0 v0] d IH]; simpl.
  - destruct (String.eqb k k') eqn:E; [apply String.eqb_eq in E; contradiction | reflexivity].
  - destruct (String.eqb k0 k) eqn:E; simpl.
    + apply String.eqb_eq in E. subst k0.
      destruct (String.eqb k k') eqn:E'; [apply String.eqb_eq in E'; contradiction | reflexivity].
    + destruct (String.eqb k0 k'); auto.
Qed.

Lemma dict_keys_set_present {V : Type} (d : list (string * V)) k v :
  In k (dict_keys d) -> dict_keys (dict_set d k v) = dict_keys d.
Proof.
  unfold dict_keys. induction d as [|[k0 v0] d IH]; simpl; [tauto|].
  intros H. destruct (String.eqb k0 k) eqn:E; simpl; [reflexivity|].
  f_equal. apply IH. destruct H as [H|H]; [|assumption].
  subst k0. rewrite String.eqb_refl in E. discriminate.
Qed.

Lemma dict_keys_set_absent {V : Type} (d : list (string * V)) k v :
  ~ In k (dict_keys d) -> dict_keys (dict_set d k v) = dict_keys d ++ [k].
Proof.
  unfold dict_keys. induction d as [|[k0 v0] d IH]; simpl; [reflexivity|].
  intros H. destruct (String.eqb k0 k) eqn:E; simpl.
  - apply String.eqb_eq in E. tauto.
  - f_equal. apply IH. tauto.
Qed.

Lemma dict_get_In_keys {V : Type} (d : list (string * V)) k :
  In k (dict_keys d) <-> dict_get d k <> None.
Proof.
  unfold dict_keys. induction d as [|[k0 v0] d IH]; simpl; [tauto|].
  destruct (String.eqb k0 k) eqn:E.
  - apply String.eqb_eq in E. split; [discriminate | auto].
  - rewrite <- IH. split; [|tauto]. intros [H|H]; [|assumption].
    subst k0. rewrite String.eqb_refl in E. discriminate.
Qed.

Lemma dict_keys_set_NoDup {V : Type} (d : list (string * V)) k v :
  NoDup (dict_keys d) -> NoDup (dict_keys (dict_set d k v)).
Proof.
  intros H. destruct (in_dec string_dec k (dict_keys d)) as [Hin|Hout].
  - now rewrite dict_keys_set_present.
  - rewrite dict_keys_set_absent by assumption.
    apply NoDup_app; [assumption | repeat constructor; simpl; tauto |].
    intros x Hx [Hk|[]]. now subst.
Qed.

Lemma dict_del_keys_not_In {V : Type} (d : list (string * V)) k :
  NoDup (dict_keys d) -> ~ In k (dict_keys (dict_del d k)).
Proof.
  unfold dict_keys. induction d as [|[k0 v0] d IH]; simpl; [tauto|].
  intros H. inversion H as [|? ? Hk0 Hd]; subst.
  destruct (String.eqb k0 k) eqn:E; simpl.
  - apply String.eqb_eq in E. now subst.
  - intros [Hk|Hk]; [subst; rewrite String.eqb_refl in E; discriminate|].
    now apply IH.
Qed.

Lemma dict_del_incl {V : Type} (d : list (string * V)) k :
  incl (dict_del d k) d.
Proof.
  induction d as [|[k0 v0] d IH]; simpl; [apply incl_refl|].
  destruct (String.eqb k0 k).
  - apply incl_tl, incl_refl.
  - intros x [Hx|Hx]; [now left | right; now apply IH].
Qed.

Lemma dict_del_keys_NoDup {V : Type} (d : list (string * V)) k :
  NoDup (dict_keys d) -> NoDup (dict_keys (dict_del d k)).
Proof.
  unfold dict_keys. induction d as [|[k0 v0] d IH]; simpl; [auto|].
  intros H. inversion H as [|? ? Hk0 Hd]; subst.
  destruct (String.eqb k0 k); simpl; [assumption|].
  constructor; [|now apply IH].
  intros Hin. apply Hk0. apply in_map_iff in Hin as [[k1 v1] [E1 Hin]].
  apply in_map_iff. exists (k1, v1). split; [assumption|].
  now apply (dict_del_incl d k).
Qed.

Lemma firstn_In {A : Type} (n : nat) (l : list A) (x : A) :
  In x (firstn n l) -> In x l.
Proof.
  revert n. induction l as [|y l IH]; intros [|n]; simpl; try tauto.
  intros [H|H]; [now left | right; eauto].
Qed.

Section SortDescFacts.
Context {A : Type} (key : A -> Q).

Lemma insert_desc_Permutation (x : A) (l : list A) :
  Permutation (x :: l) (insert_desc key x l).
Proof.
  induction l as [|y l IH]; simpl; [reflexivity|].
  destruct (Qle_bool (key y) (key x)); [reflexivity|].
  rewrite perm_swap. now constructor.
Qed.

Lemma sort_desc_Permutation (l : list A) : Permutation l (sort_desc key l).
Proof.
  induction l as [|x l IH]; simpl; [reflexivity|].
  rewrite <- insert_desc_Permutation. now constructor.
Qed.

Lemma insert_desc_sorted (x : A) (l : list A) :
  non_increasing key l -> non_increasing key (insert_desc key x l).
Proof.
  unfold non_increasing. induction l as [|y l IH]; simpl; intros H.
  - repeat constructor.
  - inversion H as [|? ? Hl Hy]; subst.
    destruct (Qle_bool (key y) (key x)) eqn:E.
    + apply Qle_bool_iff in E. constructor; [assumption|].
      constructor; [assumption|].
      rewrite Forall_forall in *. intros z Hz.
      apply Qle_trans with (key y); auto.
    + assert (Hlt : (key x <= key y)%Q).
      { destruct (Qlt_le_dec (key x) (key y)) as [Hl'|Hl'].
        - now apply Qlt_le_weak.
        - apply Qle_bool_iff in Hl'. congruence. }
      constructor; [now apply IH|].
      rewrite Forall_forall in *. intros z Hz.
      apply (Permutation_in _ (Permutation_sym (insert_desc_Permutation x l))) in Hz.
      destruct Hz as [Hz|Hz]; [now subst | auto].
Qed.

Lemma sort_desc_sorted (l : list A) : non_increasing key (sort_desc key l).
Proof.
  induction l as [|x l IH]; simpl; [constructor | now apply insert_desc_sorted].
Qed.

Lemma sort_desc_In (x : A) (l : list A) : In x (sort_desc key l) <-> In x l.
Proof.
  split; apply Permutation_in;
    [apply Permutation_sym|]; apply sort_desc_Permutation.
Qed.

Lemma non_increasing_firstn (n : nat) (l : list A) :
  non_increasing key l -> non_increasing key (firstn n l).
Proof.
  unfold non_increasing. revert n.
  induction l as [|x l IH]; intros [|n] H; simpl; try constructor.
  - inversion H; subst. now apply IH.
  - inversion H as [|? ? Hl Hx]; subst.
    rewrite Forall_forall in *. intros z Hz. apply Hx.
    eapply firstn_In; eassumption.
Qed.

Lemma non_increasing_slice (k : Z) (l : list A) :
  non_increasing key l -> non_increasing key (py_slice_to l k).
Proof.
  unfold py_slice_to. destruct (0 <=? k)%Z; apply non_increasing_firstn.
Qed.
End SortDescFacts.

Lemma slice_incl {A : Type} (l : list A) (k : Z) : incl (py_slice_to l k) l.
Proof.
  unfold py_slice_to. intros x.
  destruct (0 <=? k)%Z; apply firstn_In.
Qed.

(** ** The store's filter *)

(** C10.  An empty list given as id allowlist, status filter or priority
    filter switches that predicate off: the answer is the one obtained with
    no list at all, and with all three empty and no text every stored case
    is returned. *)
Theorem empty_filter_list_disables_predicate
  (self : MemoryStore.t) (query : string)
  (status_filter : option (list Status))
  (priority_filter : option (list Priority))
  (case_ids : option (list string)) :
  MemoryStore.search_cases self query status_filter priority_filter (Some [])
  = MemoryStore.search_cases self query status_filter priority_filter None
  /\ MemoryStore.search_cases self query (Some []) priority_filter case_ids
     = MemoryStore.search_cases self query None priority_filter case_ids
  /\ MemoryStore.search_cases self query status_filter (Some []) case_ids
     = MemoryStore.search_cases self query status_filter None case_ids
  /\ MemoryStore.search_cases self EmptyString (Some []) (Some []) (Some [])
     = MemoryStore.get_all_cases self.
Proof. repeat split; reflexivity. Qed.

(** ** Upsert *)

Lemma set_updated_at_twice (c : SupportCase.t) (t1 t2 : datetime) :
  SupportCase.set_updated_at (SupportCase.set_updated_at c t1) t2
  = SupportCase.set_updated_at c t2.
Proof. reflexivity. Qed.

Lemma dict_keys_set_twice {V : Type} (d : list (string * V)) k (v1 v2 : V) :
  dict_keys (dict_set (dict_set d k v1) k v2) = dict_keys (dict_set d k v1).
Proof.
  apply dict_keys_set_present. apply dict_get_In_keys.
  rewrite dict_get_set_same. discriminate.
Qed.

Lemma add_case_keys_NoDup (now : datetime) (s : MemoryStore.t) (c : SupportCase.t) :
  NoDup (dict_keys s) -> NoDup (dict_keys (MemoryStore.add_case now s c)).
Proof. apply dict_keys_set_NoDup. Qed.

(** C5.  Storing a case twice leaves, under its id, the case as a single
    store leaves it but for [updated_at], which holds the later clock
    reading; the second store answers without an error (the operation has no
    failing branch), changes no other entry and adds no key, and keys stay
    distinct.  The second call receives the object the first one stamped. *)
Theorem upsert_idempotent
  (self : MemoryStore.t) (c : SupportCase.t) (t1 t2 : datetime) :
  let s1 := MemoryStore.add_case t1 self c in
  let s2 := MemoryStore.add_case t2 s1 (SupportCase.set_updated_at c t1) in
  MemoryStore.get_case s1 (SupportCase.case_id c)
  = Some (SupportCase.set_updated_at c t1)
  /\ MemoryStore.get_case s2 (SupportCase.case_id c)
     = Some (SupportCase.set_updated_at c t2)
  /\ option_map forget_updated_at
       (MemoryStore.get_case s2 (SupportCase.case_id c))
     = option_map forget_updated_at
         (MemoryStore.get_case s1 (SupportCase.case_id c))
  /\ (forall id, id <> SupportCase.case_id c ->
        MemoryStore.get_case s2 id = MemoryStore.get_case s1 id)
  /\ dict_keys s2 = dict_keys s1
  /\ MemoryStore.get_case_count s2 = MemoryStore.get_case_count s1
  /\ (NoDup (dict_keys self) -> NoDup (dict_keys s2)).
Proof.
  intros s1 s2. unfold s2, s1, MemoryStore.add_case, MemoryStore.get_case.
  change (SupportCase.case_id (SupportCase.set_updated_at c t1))
    with (SupportCase.case_id c).
  rewrite set_updated_at_twice.
  pose proof (dict_keys_set_twice self (SupportCase.case_id c)
                (SupportCase.set_updated_at c t1)
                (SupportCase.set_updated_at c t2)) as Hk.
  repeat split.
  - apply dict_get_set_same.
  - apply dict_get_set_same.
  - now rewrite !dict_get_set_same.
  - intros id Hid. apply dict_get_set_other. congruence.
  - exact Hk.
  - unfold MemoryStore.get_case_count.
    rewrite <- (length_map fst (dict_set (dict_set _ _ _) _ _)).
    rewrite <- (length_map fst (dict_set self _ _)).
    exact (f_equal (@List.length string) Hk).
  - intros Hnd. rewrite Hk. now apply dict_keys_set_NoDup.
Qed.

Lemma upsert_idempotent_witness :
  NoDup (dict_keys MemoryStore.empty)
  /\ NoDup (dict_keys
              (MemoryStore.add_case 2%Z
                 (MemoryStore.add_case 1%Z MemoryStore.empty Fixtures.case_A)
                 (SupportCase.set_updated_at Fixtures.case_A 1%Z))).
Proof.
  assert (H0 : NoDup (dict_keys MemoryStore.empty)) by constructor.
  split; [exact H0|].
  exact (proj2 (proj2 (proj2 (proj2 (proj2 (proj2
           (upsert_idempotent MemoryStore.empty Fixtures.case_A 1%Z 2%Z))))))
           H0).
Defined.

(** ** Tags *)

Lemma add_tag_tags (c : SupportCase.t) name confidence source :
  SupportCase.tags (fst (SupportCase.add_tag c name confidence source))
  = filter (other_name name) (SupportCase.tags c)
    ++ (if in_range 0 1 confidence
        then [CaseTag.mk name confidence source] else []).
Proof.
  unfold SupportCase.add_tag, CaseTag.new.
  destruct (in_range 0 1 confidence); simpl; [reflexivity|].
  now rewrite app_nil_r.
Qed.

Lemma names_filter_other (name : string) (ts : list CaseTag.t) :
  ~ In name (map CaseTag.name (filter (other_name name) ts)).
Proof.
  intros Hin. apply in_map_iff in Hin as [t [Hn Ht]].
  apply filter_In in Ht as [_ Ht]. unfold other_name in Ht.
  rewrite Hn, String.eqb_refl in Ht. discriminate.
Qed.

Lemma names_filter_NoDup (f : CaseTag.t -> bool) (ts : list CaseTag.t) :
  NoDup (map CaseTag.name ts) -> NoDup (map CaseTag.name (filter f ts)).
Proof.
  induction ts as [|t ts IH]; simpl; intros H; [constructor|].
  inversion H as [|? ? Hout Hts]; subst.
  destruct (f t); simpl; [|auto].
  constructor; [|auto].
  intros Hin. apply Hout. apply in_map_iff in Hin as [t' [Hn Ht']].
  apply filter_In in Ht' as [Ht' _]. apply in_map_iff. now exists t'.
Qed.

Lemma add_tag_NoDup (c : SupportCase.t) name confidence source :
  NoDup (tag_names c) ->
  NoDup (tag_names (fst (SupportCase.add_tag c name confidence source))).
Proof.
  unfold tag_names. intros H. rewrite add_tag_tags, map_app.
  apply NoDup_app.
  - now apply names_filter_NoDup.
  - destruct (in_range 0 1 confidence); simpl; repeat constructor; simpl; tauto.
  - intros x Hx Hx'.
    destruct (in_range 0 1 confidence); simpl in Hx'; [|contradiction].
    destruct Hx' as [Hx'|[]]. subst x.
    now apply names_filter_other in Hx.
Qed.

Lemma count_occ_names_filter_other (name : string) (ts : list CaseTag.t) :
  count_occ string_dec (map CaseTag.name (filter (other_name name) ts)) name = 0.
Proof. apply count_occ_not_In, names_filter_other. Qed.

(** C8, the claim as stated fails: a case that holds two tags of one name
    (the constructor accepts such a list) still holds them after a tag of
    another name is added. *)
Lemma add_tag_keeps_foreign_duplicates :
  ~ NoDup (tag_names
             (add_tag_seq Fixtures.twice_tagged [("api", 1%Q, "manual")])).
Proof.
  vm_compute. intros H. inversion H as [|? ? Hout _]; subst.
  apply Hout. now left.
Qed.

(** C8, amended.  [add_tag] with an accepted confidence drops every tag of
    that name, keeps the others in order and appends the new tag, so the
    name then occurs exactly once; and when the tag names of a case are
    distinct they are still distinct after any sequence of [add_tag]
    calls, as for a case created without tags. *)
Theorem add_tag_names_unique :
  (forall (c : SupportCase.t) name confidence source,
      in_range 0 1 confidence = true ->
      let r := SupportCase.add_tag c name confidence source in
      snd r = Ok tt
      /\ SupportCase.tags (fst r)
         = filter (other_name name) (SupportCase.tags c)
           ++ [CaseTag.mk name confidence source]
      /\ count_occ string_dec (tag_names (fst r)) name = 1)
  /\ (forall (c : SupportCase.t) calls,
         NoDup (tag_names c) -> NoDup (tag_names (add_tag_seq c calls)))
  /\ (forall now case_id title calls,
         NoDup (tag_names
                  (add_tag_seq (SupportCase.new now case_id title) calls))).
Proof.
  assert (Hseq : forall calls (c : SupportCase.t),
             NoDup (tag_names c) -> NoDup (tag_names (add_tag_seq c calls))).
  { unfold add_tag_seq. induction calls as [|call calls IH]; simpl; intros c H.
    - assumption.
    - apply IH. now apply add_tag_NoDup. }
  split; [|split].
  - intros c name confidence source Hr r. subst r.
    pose proof (add_tag_tags c name confidence source) as Ht.
    rewrite Hr in Ht. repeat split.
    + unfold SupportCase.add_tag, CaseTag.new. now rewrite Hr.
    + exact Ht.
    + unfold tag_names. rewrite Ht, map_app, count_occ_app.
      rewrite count_occ_names_filter_other. simpl.
      destruct (string_dec name name); [reflexivity | contradiction].
  - intros c calls. apply Hseq.
  - intros now case_id title calls. apply Hseq. constructor.
Qed.

Lemma add_tag_names_unique_witness :
  in_range 0 1 1 = true
  /\ NoDup (tag_names Fixtures.case_A)
  /\ count_occ string_dec
       (tag_names (fst (SupportCase.add_tag Fixtures.twice_tagged "db" 1%Q "manual")))
       "db" = 1
  /\ NoDup (tag_names
              (add_tag_seq Fixtures.case_A
                 [("db", 1%Q, "manual"); ("db", (1 # 2)%Q, "auto")])).
Proof.
  assert (Hr : in_range 0 1 1 = true) by reflexivity.
  assert (Hn : NoDup (tag_names Fixtures.case_A)) by constructor.
  split; [exact Hr|]. split; [exact Hn|]. split.
  - exact (proj2 (proj2 (proj1 add_tag_names_unique
                           Fixtures.twice_tagged "db" 1%Q "manual" Hr))).
  - exact (proj1 (proj2 add_tag_names_unique) Fixtures.case_A
             [("db", 1%Q, "manual"); ("db", (1 # 2)%Q, "auto")] Hn).
Defined.

(** ** Scores of the two engines *)

Lemma jaccard_in_unit (i u : nat) :
  0 < u -> i <= u ->
  (0 <= Z.of_nat i # Pos.of_nat u)%Q /\ (Z.of_nat i # Pos.of_nat u <= 1)%Q.
Proof.
  intros Hu Hi. unfold Qle. simpl. split; [lia|].
  assert (Z.pos (Pos.of_nat u) = Z.of_nat u).
  { rewrite <- positive_nat_Z, Nat2Pos.id; [reflexivity | lia]. }
  lia.
Qed.

Lemma filter_length_le {A : Type} (f : A -> bool) (l : list A) :
  List.length (filter f l) <= List.length l.
Proof.
  induction l as [|x l IH]; simpl; [lia|]. destruct (f x); simpl; lia.
Qed.

Lemma score_case_in_unit (query_words : list string) (threshold : Q)
  (entry : string * SupportCase.t) :
  scores_in_unit (SimpleSearchEngine.score_case query_words threshold entry).
Proof.
  unfold scores_in_unit, SimpleSearchEngine.score_case,
    SimpleSearchEngine.jaccard. intros r Hr.
  destruct (0 <? _) eqn:Hu; [|contradiction].
  destruct (Qle_bool threshold _); [|contradiction].
  destruct Hr as [Hr|[]]. subst r. simpl snd.
  apply Nat.ltb_lt in Hu. apply jaccard_in_unit; [assumption|].
  unfold SimpleSearchEngine.set_inter, SimpleSearchEngine.set_union.
  rewrite length_app.
  pose proof (filter_length_le
                (fun w => PyStr.mem w
                   (SimpleSearchEngine.words
                      (SupportCase.get_text_content (snd entry))))
                query_words).
  lia.
Qed.

Lemma simple_search_in_unit (e : SimpleSearchEngine.t) query k threshold :
  scores_in_unit (SimpleSearchEngine.search e query k threshold).
Proof.
  unfold SimpleSearchEngine.search.
  destruct (SimpleSearchEngine.words query) as [|w ws] eqn:Hw.
  - intros r [].
  - intros r Hr. apply slice_incl in Hr. apply sort_desc_In in Hr.
    apply in_flat_map in Hr as [entry [_ Hr]].
    now apply (score_case_in_unit (w :: ws) threshold entry).
Qed.

Lemma simple_search_sorted (e : SimpleSearchEngine.t) query k threshold :
  non_increasing snd (SimpleSearchEngine.search e query k threshold).
Proof.
  unfold SimpleSearchEngine.search.
  destruct (SimpleSearchEngine.words query); [constructor|].
  apply non_increasing_slice, sort_desc_sorted.
Qed.

(** A map that answers at most one entry per element, of the same key,
    keeps a list non-increasing. *)
Lemma non_increasing_flat_map {A B : Type} (ka : A -> Q) (kb : B -> Q)
  (f : A -> list B) (l : list A) :
  (forall a, f a = [] \/ exists b, f a = [b] /\ kb b = ka a) ->
  non_increasing ka l -> non_increasing kb (flat_map f l).
Proof.
  intros Hf. unfold non_increasing.
  induction l as [|a l IH]; simpl; intros H; [constructor|].
  inversion H as [|? ? Hl Ha]; subst.
  destruct (Hf a) as [E|[b [E Hb]]]; rewrite E; simpl; [auto|].
  constructor; [auto|].
  rewrite Forall_forall in *. intros y Hy.
  apply in_flat_map in Hy as [a' [Ha' Hy]].
  destruct (Hf a') as [E'|[b' [E' Hb']]]; rewrite E' in Hy; [contradiction|].
  destruct Hy as [Hy|[]]. subst y. rewrite Hb, Hb'. auto.
Qed.

Lemma number_from_In {A : Type} (l : list A) (i : Z) (p : A * Z) :
  In p (IndexFlatIP.number_from i l) ->
  In (fst p) l /\ (i <= snd p < i + Z.of_nat (List.length l))%Z.
Proof.
  revert i. induction l as [|a l IH]; simpl; intros i H; [contradiction|].
  destruct H as [H|H].
  - subst p. simpl. split; [now left | lia].
  - apply IH in H as [H1 H2]. split; [now right | lia].
Qed.

Lemma flat_map_nil {A B : Type} (f : A -> list B) (l : list A) :
  (forall a, In a l -> f a = []) -> flat_map f l = [].
Proof.
  induction l as [|a l IH]; simpl; intros H; [reflexivity|].
  rewrite (H a) by now left. apply IH. intros; apply H. now right.
Qed.

Lemma vector_search_shape (e : VectorSearchEngine.t) query k threshold rs :
  VectorSearchEngine.search e query k threshold = Ok rs ->
  exists best,
    non_increasing fst best
    /\ (forall h, In h best ->
          exists v, In v (VectorSearchEngine.index e)
                    /\ fst h = IndexFlatIP.inner_product
                                 (VectorSearchEngine._encode_text e query) v)
    /\ rs = flat_map (keep_hit e threshold) best.
Proof.
  unfold VectorSearchEngine.search.
  destruct (IndexFlatIP.ntotal (VectorSearchEngine.index e) =? 0).
  - intros H. injection H as <-. exists []. repeat split.
    + constructor.
    + intros h [].
  - unfold IndexFlatIP.search.
    destruct (Z.min k _ <=? 0)%Z; simpl; [discriminate|].
    intros H. injection H as <-.
    set (q := VectorSearchEngine._encode_text e query).
    set (scored := map _ (IndexFlatIP.number_from 0 (VectorSearchEngine.index e))).
    set (best := firstn _ (sort_desc fst scored)).
    exists best. repeat split.
    + apply non_increasing_firstn, sort_desc_sorted.
    + intros h Hh. apply firstn_In in Hh. apply sort_desc_In in Hh.
      apply in_map_iff in Hh as [vi [Hh Hvi]].
      apply number_from_In in Hvi as [Hv _].
      exists (fst vi). split; [assumption|]. now subst h.
    + rewrite flat_map_app. fold (keep_hit e threshold).
      rewrite (flat_map_nil (keep_hit e threshold) (repeat _ _)).
      * now rewrite app_nil_r.
      * intros a Ha. apply repeat_spec in Ha. subst a. reflexivity.
Qed.

Lemma keep_hit_cases (e : VectorSearchEngine.t) (threshold : Q) (hit : Q * Z) :
  keep_hit e threshold hit = []
  \/ exists r, keep_hit e threshold hit = [r] /\ snd r = fst hit.
Proof.
  unfold keep_hit. destruct (_ && _); [right | now left].
  eexists. split; reflexivity.
Qed.

Lemma keep_hit_threshold (e : VectorSearchEngine.t) (threshold : Q) hit r :
  In r (keep_hit e threshold hit) ->
  (threshold <= snd r)%Q /\ snd r = fst hit.
Proof.
  unfold keep_hit. destruct (_ && _) eqn:E; [|contradiction].
  intros [<-|[]]. apply andb_prop in E as [_ E].
  apply Qle_bool_iff in E. now split.
Qed.

Lemma vector_search_scores (e : VectorSearchEngine.t) query k threshold rs r :
  VectorSearchEngine.search e query k threshold = Ok rs ->
  In r rs ->
  (threshold <= snd r)%Q
  /\ exists v, In v (VectorSearchEngine.index e)
               /\ snd r = IndexFlatIP.inner_product
                            (VectorSearchEngine._encode_text e query) v.
Proof.
  intros Hrs Hr.
  apply vector_search_shape in Hrs as [best [_ [Hrows ->]]].
  apply in_flat_map in Hr as [h [Hh Hr]].
  apply keep_hit_threshold in Hr as [Ht Hs].
  split; [assumption|].
  destruct (Hrows h Hh) as [v [Hv Hq]]. exists v. split; [assumption|].
  now rewrite Hs.
Qed.

(** C2, the claim as stated fails on the embedding engine.  With an encoder
    of unit-length answers and threshold -1 a score of -1 is returned; with
    an encoder that counts words a score of 2 is returned at the default
    threshold. *)
Lemma vector_search_score_outside_unit :
  (exists rs,
      VectorSearchEngine.search (Fixtures.vector_engine Fixtures.unit_encoder)
        "database" 10%Z (-1)%Q = Ok rs
      /\ In ("C", (-1)%Q) rs /\ ~ scores_in_unit rs)
  /\ (exists rs,
         VectorSearchEngine.search (Fixtures.vector_engine Fixtures.count_encoder)
           "database" 10%Z 0%Q = Ok rs
         /\ In ("A", 2%Q) rs /\ ~ scores_in_unit rs).
Proof.
  split; eexists; (split; [vm_compute; reflexivity|]).
  - split; [simpl; tauto|]. intros H.
    destruct (H ("C", (-1)%Q)) as [H0 _]; [simpl; tauto|].
    vm_compute in H0. now apply H0.
  - split; [simpl; tauto|]. intros H.
    destruct (H ("A", 2%Q)) as [_ H1]; [simpl; tauto|].
    vm_compute in H1. now apply H1.
Qed.

(** C2, amended.  The lexical engine answers scores between 0 and 1,
    non-increasing.  The embedding engine answers, whenever the index is
    empty or the number of requested rows is positive; its answer is
    non-increasing, every score is an inner product of the encoded query
    with an indexed row and reaches the threshold, and the scores lie
    between 0 and 1 when the threshold is not negative and no such inner
    product exceeds 1. *)
Theorem search_scores_sorted_and_bounded :
  (forall (e : SimpleSearchEngine.t) query k threshold,
      non_increasing snd (SimpleSearchEngine.search e query k threshold)
      /\ scores_in_unit (SimpleSearchEngine.search e query k threshold))
  /\ (forall (e : VectorSearchEngine.t) query k threshold,
         let q := VectorSearchEngine._encode_text e query in
         let n := Z.of_nat (List.length (VectorSearchEngine.case_ids e)) in
         (IndexFlatIP.ntotal (VectorSearchEngine.index e) = 0
          \/ (0 < Z.min k n)%Z ->
          exists rs, VectorSearchEngine.search e query k threshold = Ok rs)
         /\ forall rs,
             VectorSearchEngine.search e query k threshold = Ok rs ->
             non_increasing snd rs
             /\ (forall r, In r rs ->
                   (threshold <= snd r)%Q
                   /\ exists v, In v (VectorSearchEngine.index e)
                                /\ snd r = IndexFlatIP.inner_product q v)
             /\ ((0 <= threshold)%Q ->
                 (forall v, In v (VectorSearchEngine.index e) ->
                            (IndexFlatIP.inner_product q v <= 1)%Q) ->
                 scores_in_unit rs)).
Proof.
  split.
  - intros e query k threshold. split.
    + apply simple_search_sorted.
    + apply simple_search_in_unit.
  - intros e query k threshold q n. split.
    + intros H. unfold VectorSearchEngine.search.
      destruct (IndexFlatIP.ntotal _ =? 0) eqn:E; [eauto|].
      destruct H as [H|H]; [apply Nat.eqb_neq in E; contradiction|].
      unfold IndexFlatIP.search. fold n.
      destruct (Z.min k n <=? 0)%Z eqn:E'; [lia|]. simpl. eauto.
    + intros rs Hrs.
      pose proof (fun r => vector_search_scores e query k threshold rs r Hrs)
        as Hin.
      split; [|split].
      * apply vector_search_shape in Hrs as [best [Hsorted [_ ->]]].
        apply (non_increasing_flat_map fst snd); [|assumption].
        intros a. apply keep_hit_cases.
      * exact Hin.
      * intros H0 H1 r Hr. destruct (Hin r Hr) as [Ht [v [Hv Hs]]]. split.
        -- now apply Qle_trans with threshold.
        -- rewrite Hs. now apply H1.
Qed.

Lemma search_scores_sorted_and_bounded_witness :
  exists rs,
    VectorSearchEngine.search (Fixtures.vector_engine Fixtures.unit_encoder)
      "database" 10%Z 0%Q = Ok rs
    /\ (0 <= 0)%Q
    /\ scores_in_unit rs.
Proof.
  set (e := Fixtures.vector_engine Fixtures.unit_encoder).
  exists [("A", (20 # 25)%Q); ("B", (15 # 25)%Q)].
  assert (Hs : VectorSearchEngine.search e "database" 10%Z 0%Q
               = Ok [("A", (20 # 25)%Q); ("B", (15 # 25)%Q)])
    by (vm_compute; reflexivity).
  assert (H0 : (0 <= 0)%Q) by (vm_compute; discriminate).
  assert (H1 : forall v, In v (VectorSearchEngine.index e) ->
             (IndexFlatIP.inner_product
                (VectorSearchEngine._encode_text e "database") v <= 1)%Q).
  { intros v Hv. vm_compute in Hv.
    destruct Hv as [<-|[<-|[<-|[]]]]; vm_compute; discriminate. }
  split; [exact Hs|]. split; [exact H0|].
  exact (proj2 (proj2 (proj2 (proj2 search_scores_sorted_and_bounded
                                 e "database" 10%Z 0%Q) _ Hs)) H0 H1).
Defined.

(** ** Self-exclusion in [find_similar_cases] *)

Lemma dict_get_In {V : Type} (d : list (string * V)) k v :
  dict_get d k = Some v -> In (k, v) d.
Proof.
  induction d as [|[k0 v0] d IH]; simpl; [discriminate|].
  destruct (String.eqb k0 k) eqn:E.
  - apply String.eqb_eq in E. intros H. injection H as ->. subst. now left.
  - intros H. right. auto.
Qed.

Lemma mapM_Forall2 {A B : Type} (f : A -> result B) (l : list A) (rs : list B) :
  mapM f l = Ok rs -> Forall2 (fun a b => f a = Ok b) l rs.
Proof.
  revert rs. induction l as [|a l IH]; simpl; intros rs H.
  - injection H as <-. constructor.
  - destruct (f a) as [b|] eqn:Ea; simpl in H; [|discriminate].
    destruct (mapM f l) as [bs|] eqn:El; simpl in H; [|discriminate].
    injection H as <-. constructor; auto.
Qed.

(** The lexical engine filters the case's own id out of its answer. *)
Lemma simple_find_similar_excludes_self
  (e : SimpleSearchEngine.t) (c : SupportCase.t) (k : Z) (threshold : Q) :
  ~ In (SupportCase.case_id c)
       (map fst (SimpleSearchEngine.find_similar_cases e c k threshold)).
Proof.
  unfold SimpleSearchEngine.find_similar_cases. intros H.
  apply in_map_iff in H as [r [Hr H]]. apply filter_In in H as [_ H].
  rewrite Hr, String.eqb_refl in H. discriminate.
Qed.

(** The orchestrator drops the asked id from whatever the engine answers,
    and, the store being well formed, no returned case carries it. *)
Lemma manager_find_similar_excludes_self
  (m : SCPManager.t) (case_id : string) (limit : Z) (threshold : Q)
  (rs : list SearchResult.t) :
  store_wf (SCPManager.memory m) ->
  SCPManager.find_similar_cases m case_id limit threshold = Ok rs ->
  ~ In case_id (result_ids rs).
Proof.
  intros [_ Hwf]. unfold SCPManager.find_similar_cases.
  destruct (MemoryStore.get_case (SCPManager.memory m) case_id) as [c|];
    [|intros H; injection H as <-; simpl; tauto].
  destruct (SCPManager.engine_find_similar_cases _ _ _ _) as [sim|]; simpl;
    [|discriminate].
  destruct (mapM _ sim) as [parts|] eqn:Ep; simpl; [|discriminate].
  intros H. injection H as <-. apply mapM_Forall2 in Ep.
  unfold result_ids. intros Hin. apply in_map_iff in Hin as [r [Hid Hr]].
  apply in_concat in Hr as [part [Hpart Hr]].
  induction Ep as [|a part' sims parts Ha _ IH]; [contradiction|].
  destruct Hpart as [->|Hpart]; [|auto].
  destruct (negb (String.eqb (fst a) case_id)) eqn:Hne;
    [|injection Ha as <-; contradiction].
  destruct (MemoryStore.get_case (SCPManager.memory m) (fst a)) as [sc|] eqn:Hg;
    [|injection Ha as <-; contradiction].
  unfold SearchResult.new in Ha.
  destruct (in_range 0 1 (snd a)); simpl in Ha; [|discriminate].
  injection Ha as <-. destruct Hr as [<-|[]]. simpl in Hid.
  apply dict_get_In, Hwf in Hg. rewrite Hid in Hg. subst case_id.
  rewrite String.eqb_refl in Hne. discriminate.
Qed.

(** The same on any encoder: an engine that indexes a single case answers
    that very case to [find_similar_cases], as soon as the inner product of
    its embedding with itself reaches the threshold. *)
Lemma vector_find_similar_alone
  (encoder : string -> list Q) (c : SupportCase.t) (k : Z) (threshold : Q) :
  let e := VectorSearchEngine.rebuild_index
             (VectorSearchEngine.mk encoder [] []) [c] in
  let v := VectorSearchEngine._encode_text e (SupportCase.get_text_content c) in
  (0 <= k)%Z ->
  Qle_bool threshold (IndexFlatIP.inner_product v v) = true ->
  VectorSearchEngine.find_similar_cases e c k threshold
  = Ok [(SupportCase.case_id c, IndexFlatIP.inner_product v v)].
Proof.
  intros e v Hk Ht.
  unfold VectorSearchEngine.find_similar_cases, VectorSearchEngine.search.
  change (VectorSearchEngine.index e) with [v].
  change (VectorSearchEngine.case_ids e) with [SupportCase.case_id c].
  change (VectorSearchEngine._encode_text e (SupportCase.get_text_content c))
    with v.
  change (IndexFlatIP.ntotal [v] =? 0) with false. cbv iota.
  clearbody v. clear e.
  replace (Z.min (k + 1) (Z.of_nat (List.length [SupportCase.case_id c])))
    with 1%Z by (simpl List.length; lia).
  unfold IndexFlatIP.search.
  change (IndexFlatIP.number_from 0%Z [v]) with [(v, 0%Z)].
  cbn [Z.leb Z.compare map fst snd sort_desc fold_right insert_desc bind].
  change (Z.to_nat 1) with 1.
  cbn [firstn List.length Nat.sub repeat app flat_map].
  cbn [fst snd]. rewrite Ht. reflexivity.
Qed.

(** C1, evaluated on the embedding engine.  With A, B and C indexed,
    [find_similar_cases] for A with the default [k] and threshold answers A
    itself first: the engine asks for one row more "to exclude self" and
    then returns the search answer as it is. *)
Theorem vector_find_similar_returns_self :
  VectorSearchEngine.find_similar_cases
    (Fixtures.vector_engine Fixtures.unit_encoder) Fixtures.case_A 5%Z (1 # 10)%Q
  = Ok [("A", (625 # 625)%Q); ("B", (600 # 625)%Q)].
Proof. vm_compute. reflexivity. Qed.

(** ** Deleted cases and search *)

Lemma store_search_incl (s : MemoryStore.t) query status_filter priority_filter
  case_ids :
  incl (MemoryStore.search_cases s query status_filter priority_filter case_ids)
       (dict_values s).
Proof.
  unfold MemoryStore.search_cases. intros c Hc.
  destruct (PyStr.truthy query); [apply filter_In in Hc as [Hc _]|];
    (destruct (MemoryStore.given priority_filter);
       [apply filter_In in Hc as [Hc _]|]);
    (destruct (MemoryStore.given status_filter);
       [apply filter_In in Hc as [Hc _]|]);
    (destruct (MemoryStore.given case_ids);
       [apply filter_In in Hc as [Hc _]|]);
    exact Hc.
Qed.

Lemma candidates_incl (m : SCPManager.t) (q : CaseQuery.t) :
  incl (SCPManager.candidates m q) (dict_values (SCPManager.memory m)).
Proof.
  unfold SCPManager.candidates. intros c Hc.
  apply (store_search_incl (SCPManager.memory m) (CaseQuery.query q)
           (CaseQuery.status_filter q) (CaseQuery.priority_filter q)
           (CaseQuery.case_ids q)).
  destruct (MemoryStore.given (CaseQuery.tags q));
    [apply filter_In in Hc as [Hc _]|];
    (destruct (CaseQuery.date_from q), (CaseQuery.date_to q);
       try (apply filter_In in Hc as [Hc _]); exact Hc).
Qed.

Lemma mapM_new_cases (g : SupportCase.t -> Q) (cases : list SupportCase.t)
  (rs : list SearchResult.t) :
  mapM (fun case => SearchResult.new case (g case)) cases = Ok rs ->
  map SearchResult.case rs = cases
  /\ forall r, In r rs ->
       SearchResult.similarity_score r = g (SearchResult.case r).
Proof.
  intros H. apply mapM_Forall2 in H.
  induction H as [|c r cases rs Hr _ [IH1 IH2]]; [split; [reflexivity | intros r []]|].
  unfold SearchResult.new in Hr.
  destruct (in_range 0 1 (g c)); [|discriminate]. injection Hr as <-.
  split; [simpl; now f_equal|].
  intros r [<-|Hr]; [reflexivity | auto].
Qed.

Lemma scored_cases_Permutation (m : SCPManager.t) (q : CaseQuery.t)
  (xs : list SearchResult.t) :
  SCPManager.scored_cases m q = Ok xs ->
  Permutation (map SearchResult.case xs) (SCPManager.candidates m q).
Proof.
  unfold SCPManager.scored_cases.
  set (cases := SCPManager.candidates m q).
  assert (Hplain : forall ys,
             mapM (fun case => SearchResult.new case 1%Q) cases = Ok ys ->
             Permutation (map SearchResult.case ys) cases).
  { intros ys Hys.
    apply (mapM_new_cases (fun _ => 1%Q)) in Hys as [Hys _].
    now rewrite Hys. }
  destruct (SCPManager.search_engine m) as [v|s]; [|apply Hplain].
  destruct (PyStr.truthy (CaseQuery.query q)); [|apply Hplain].
  destruct (VectorSearchEngine.search v _ _ _) as [vr|]; simpl; [|discriminate].
  destruct (mapM (fun case => SearchResult.new case (SCPManager.score_map_get _ _))
                 cases) as [ys|] eqn:Ey; simpl; [|discriminate].
  intros H. injection H as <-.
  apply (mapM_new_cases
           (fun case => SCPManager.score_map_get (SCPManager.score_map_of vr)
                          (SupportCase.case_id case))) in Ey as [Ey _].
  rewrite <- Ey. apply Permutation_map, Permutation_sym, sort_desc_Permutation.
Qed.

(** Every case the orchestrator returns is one of the candidates. *)
Lemma search_cases_incl (m : SCPManager.t) (q : CaseQuery.t)
  (rs : list SearchResult.t) :
  SCPManager.search_cases m q = Ok rs ->
  incl (map SearchResult.case rs) (SCPManager.candidates m q).
Proof.
  unfold SCPManager.search_cases.
  destruct (SCPManager.scored_cases m q) as [xs|] eqn:Ex; simpl; [|discriminate].
  intros H. injection H as <-. intros c Hc.
  apply in_map_iff in Hc as [r [<- Hr]]. apply slice_incl in Hr.
  apply (Permutation_in _ (scored_cases_Permutation m q xs Ex)).
  now apply in_map.
Qed.

Lemma dict_set_In {V : Type} (d : list (string * V)) k v (p : string * V) :
  In p (dict_set d k v) -> p = (k, v) \/ In p d.
Proof.
  induction d as [|[k0 v0] d IH]; simpl.
  - intros [H|[]]; auto.
  - destruct (String.eqb k0 k) eqn:E; simpl.
    + apply String.eqb_eq in E. subst k0. intros [H|H]; auto.
    + intros [H|H]; [auto|]. destruct (IH H); auto.
Qed.

Lemma dict_keys_set_In {V : Type} (d : list (string * V)) k v k' :
  In k' (dict_keys (dict_set d k v)) -> k' = k \/ In k' (dict_keys d).
Proof.
  unfold dict_keys. intros H. apply in_map_iff in H as [p [Hp H]].
  apply dict_set_In in H as [->|H]; [now left | right].
  apply in_map_iff. now exists p.
Qed.

Lemma store_wf_empty : store_wf MemoryStore.empty.
Proof. split; [constructor | intros k c []]. Qed.

Lemma store_wf_add (now : datetime) (s : MemoryStore.t) (c : SupportCase.t) :
  store_wf s -> store_wf (MemoryStore.add_case now s c).
Proof.
  intros [Hnd Hid]. split; [now apply add_case_keys_NoDup|].
  intros k c' H. apply dict_set_In in H as [H|H]; [|auto].
  now injection H as -> ->.
Qed.

Lemma store_wf_delete (s : MemoryStore.t) (case_id : string) :
  store_wf s -> store_wf (fst (MemoryStore.delete_case s case_id)).
Proof.
  intros [Hnd Hid]. unfold MemoryStore.delete_case.
  destruct (dict_mem s case_id); simpl; [|now split].
  split; [now apply dict_del_keys_NoDup|].
  intros k c H. apply Hid. now apply (dict_del_incl s case_id).
Qed.

Lemma manager_delete_memory (m : SCPManager.t) (case_id : string) :
  SCPManager.memory (fst (SCPManager.delete_case m case_id))
  = fst (MemoryStore.delete_case (SCPManager.memory m) case_id)
  /\ snd (SCPManager.delete_case m case_id)
     = snd (MemoryStore.delete_case (SCPManager.memory m) case_id).
Proof.
  unfold SCPManager.delete_case.
  destruct (MemoryStore.delete_case (SCPManager.memory m) case_id) as [s [|]];
    split; reflexivity.
Qed.

Lemma store_delete_absent (s : MemoryStore.t) (case_id : string) :
  store_wf s ->
  ~ In case_id (dict_keys (fst (MemoryStore.delete_case s case_id))).
Proof.
  intros [Hnd _]. unfold MemoryStore.delete_case.
  destruct (dict_mem s case_id) eqn:E; simpl.
  - now apply dict_del_keys_not_In.
  - unfold dict_mem in E. intros H. apply dict_get_In_keys in H.
    destruct (dict_get s case_id); [discriminate | contradiction].
Qed.

Lemma dict_set_twice {V : Type} (d : list (string * V)) k (v1 v2 : V) :
  dict_set (dict_set d k v1) k v2 = dict_set d k v2.
Proof.
  induction d as [|[k0 v0] d IH]; simpl.
  - now rewrite String.eqb_refl.
  - destruct (String.eqb k0 k) eqn:E; simpl; rewrite E; [reflexivity|].
    now rewrite IH.
Qed.

(** Where the changed case still carries the id it was found under, the
    change in place and the storing write the same entry. *)
Lemma store_changed_memory (now : datetime) (m : SCPManager.t)
  (case_id : string) (c : SupportCase.t) :
  SupportCase.case_id c = case_id ->
  SCPManager.memory (SCPManager.store_changed now m case_id c)
  = MemoryStore.add_case now (SCPManager.memory m) c.
Proof.
  intros <-. unfold SCPManager.store_changed, MemoryStore.add_case.
  cbn [SCPManager.memory]. apply dict_set_twice.
Qed.

Lemma add_tag_keeps_id (c : SupportCase.t) name confidence source :
  SupportCase.case_id (fst (SupportCase.add_tag c name confidence source))
  = SupportCase.case_id c.
Proof.
  unfold SupportCase.add_tag. now destruct (CaseTag.new name confidence source).
Qed.

Lemma add_tag_names_keeps_id (tags : list string) (c : SupportCase.t) :
  SupportCase.case_id (SCPManager.add_tag_names c tags) = SupportCase.case_id c.
Proof.
  unfold SCPManager.add_tag_names. revert c.
  induction tags as [|t tags IH]; intros c; cbn [fold_left]; [reflexivity|].
  now rewrite IH, add_tag_keeps_id.
Qed.

Lemma add_case_count (now : datetime) (s : MemoryStore.t) (c : SupportCase.t) :
  List.length (MemoryStore.add_case now s c) = List.length s
  \/ List.length (MemoryStore.add_case now s c) = S (List.length s).
Proof.
  unfold MemoryStore.add_case.
  generalize (SupportCase.case_id c), (SupportCase.set_updated_at c now).
  intros k v. induction s as [|[k0 v0] s IH]; simpl; [now right|].
  destruct (String.eqb k0 k); simpl; [now left|].
  destruct IH as [->| ->]; auto.
Qed.

Lemma add_case_keeps_keys (now : datetime) (s : MemoryStore.t)
  (c : SupportCase.t) (id : string) :
  In id (dict_keys s) -> In id (dict_keys (MemoryStore.add_case now s c)).
Proof.
  unfold MemoryStore.add_case. intros H.
  destruct (in_dec string_dec (SupportCase.case_id c) (dict_keys s)) as [Hin|Hout].
  - now rewrite dict_keys_set_present.
  - rewrite dict_keys_set_absent by assumption. apply in_or_app. now left.
Qed.

Lemma import_loop_wf {fmt : DatetimeFormat} (clock : nat -> datetime)
  (records : list pyval) :
  forall tick s n,
    store_wf s ->
    let r := MemoryStore.import_loop clock tick s records n in
    store_wf (fst r)
    /\ List.length s <= List.length (fst r)
    /\ (forall id, In id (dict_keys s) -> In id (dict_keys (fst r))).
Proof.
  induction records as [|record records IH]; intros tick s n Hwf; simpl.
  - repeat split; auto; apply Hwf.
  - destruct (SupportCase_validate (clock tick) record) as [c|].
    + destruct (IH (S (S tick)) (MemoryStore.add_case (clock (S tick)) s c)
                  (n + 1)%Z (store_wf_add _ _ _ Hwf)) as [H1 [H2 H3]].
      split; [exact H1|]. split.
      * eapply Nat.le_trans; [|exact H2].
        destruct (add_case_count (clock (S tick)) s c); lia.
      * intros id Hid. apply H3. now apply add_case_keeps_keys.
    + destruct record; try (simpl; repeat split; auto; apply Hwf).
      apply IH. exact Hwf.
Qed.

Lemma import_from_json_wf {fmt : DatetimeFormat} (clock : nat -> datetime)
  (s : MemoryStore.t) (doc : json) :
  store_wf s ->
  let r := MemoryStore.import_from_json clock s doc in
  store_wf (fst r)
  /\ List.length s <= List.length (fst r)
  /\ (forall id, In id (dict_keys s) -> In id (dict_keys (fst r))).
Proof.
  intros Hwf. unfold MemoryStore.import_from_json.
  destruct (json_loads doc); try (simpl; repeat split; auto; apply Hwf).
  destruct (MemoryStore.py_iter _) as [records|];
    [|simpl; repeat split; auto; apply Hwf].
  now apply import_loop_wf.
Qed.

Ltac bind_step :=
  match goal with
  | |- obind ?o _ = _ -> _ => destruct o; cbn [obind]; [|discriminate]
  end.

Lemma setattr_keeps_id (c c' : SupportCase.t) (field : string) (value : pyval) :
  field <> "case_id" ->
  SupportCase_setattr c field value = Some c' ->
  SupportCase.case_id c' = SupportCase.case_id c.
Proof.
  intros Hne. unfold SupportCase_setattr.
  unfold assign at 1.
  destruct (String.eqb field "case_id") eqn:E;
    [apply String.eqb_eq in E; contradiction|].
  cbn [obind]. do 31 bind_step.
  intros H. now injection H as <-.
Qed.

Lemma apply_update_dict_keeps_id (update_dict : list (string * pyval)) :
  forall c c',
    ~ In "case_id" (dict_keys update_dict) ->
    SCPManager.apply_update_dict c update_dict = Some c' ->
    SupportCase.case_id c' = SupportCase.case_id c.
Proof.
  induction update_dict as [|[field value] rest IH]; intros c c' Hout;
    cbn [SCPManager.apply_update_dict].
  - intros H. now injection H as <-.
  - assert (Hne : field <> "case_id") by (intros ->; apply Hout; now left).
    assert (Hrest : ~ In "case_id" (dict_keys rest))
      by (intros H; apply Hout; now right).
    destruct (PyStr.mem field SupportCase_fields).
    + destruct (PyStr.mem field _).
      * destruct value; try (now apply IH).
        destruct (SupportCase_setattr c field _) as [c1|] eqn:E;
          [|discriminate].
        cbn [obind]. intros H. rewrite (IH c1 c' Hrest H).
        exact (setattr_keeps_id _ _ _ _ Hne E).
      * destruct (SupportCase_setattr c field value) as [c1|] eqn:E;
          [|discriminate].
        cbn [obind]. intros H. rewrite (IH c1 c' Hrest H).
        exact (setattr_keeps_id _ _ _ _ Hne E).
    + destruct (SupportCase_other_attribute field); [discriminate|].
      now apply IH.
Qed.

(** A case that was changed but still carries the id it is filed under
    leaves the store keyed by id. *)
Lemma store_changed_wf (now : datetime) (m : SCPManager.t) (case_id : string)
  (c : SupportCase.t) :
  store_wf (SCPManager.memory m) ->
  SupportCase.case_id c = case_id ->
  store_wf (SCPManager.memory (SCPManager.store_changed now m case_id c)).
Proof.
  intros Hwf Hid. rewrite store_changed_memory by exact Hid.
  now apply store_wf_add.
Qed.

Lemma stored_under_own_id (s : MemoryStore.t) (case_id : string)
  (c : SupportCase.t) :
  store_wf s -> MemoryStore.get_case s case_id = Some c ->
  SupportCase.case_id c = case_id.
Proof. intros Hwf Hg. apply (proj2 Hwf). now apply dict_get_In. Qed.

Lemma update_case_wf (now : datetime) (m : SCPManager.t) (case_id : string)
  (u : CaseUpdate.t) :
  store_wf (SCPManager.memory m) ->
  store_wf (SCPManager.memory (fst (SCPManager.update_case now m case_id u))).
Proof.
  intros Hwf. unfold SCPManager.update_case.
  destruct (MemoryStore.get_case (SCPManager.memory m) case_id) as [c|] eqn:Hg;
    [|exact Hwf].
  apply store_changed_wf; [exact Hwf|].
  exact (stored_under_own_id _ _ _ Hwf Hg).
Qed.

Lemma update_case_dict_wf (now : datetime) (m m' : SCPManager.t)
  (case_id : string) (update_dict : list (string * pyval))
  (r : option SupportCase.t) :
  store_wf (SCPManager.memory m) ->
  ~ In "case_id" (dict_keys update_dict) ->
  SCPManager.update_case_dict now m case_id update_dict = Some (m', r) ->
  store_wf (SCPManager.memory m').
Proof.
  intros Hwf Hout. unfold SCPManager.update_case_dict.
  destruct (MemoryStore.get_case (SCPManager.memory m) case_id) as [c|] eqn:Hg.
  - destruct (SCPManager.apply_update_dict c update_dict) as [c1|] eqn:E;
      [|discriminate].
    cbn [obind]. intros H. injection H as <- _.
    apply store_changed_wf; [exact Hwf|].
    cbn [SupportCase.set_updated_at SupportCase.case_id].
    rewrite (apply_update_dict_keeps_id update_dict c c1 Hout E).
    exact (stored_under_own_id _ _ _ Hwf Hg).
  - intros H. now injection H as <- _.
Qed.

Lemma bulk_update_loop_wf (clock : nat -> datetime)
  (mappings : list (string * list string)) :
  forall tick m n,
    store_wf (SCPManager.memory m) ->
    store_wf
      (SCPManager.memory
         (fst (SCPManager.bulk_update_loop clock tick m mappings n))).
Proof.
  induction mappings as [|[id tags] mappings IH]; intros tick m n Hwf;
    cbn [SCPManager.bulk_update_loop]; [exact Hwf|].
  destruct (MemoryStore.get_case (SCPManager.memory m) id) as [c|] eqn:Hg;
    apply IH; [|exact Hwf].
  apply store_changed_wf; [exact Hwf|].
  cbn [SupportCase.set_updated_at SupportCase.case_id].
  rewrite add_tag_names_keeps_id.
  exact (stored_under_own_id _ _ _ Hwf Hg).
Qed.

Lemma import_data_wf {fmt : DatetimeFormat} (clock : nat -> datetime)
  (m : SCPManager.t) (doc : json) :
  store_wf (SCPManager.memory m) ->
  store_wf (SCPManager.memory (fst (SCPManager.import_data clock m doc))).
Proof.
  intros Hwf. unfold SCPManager.import_data.
  pose proof (import_from_json_wf clock (SCPManager.memory m) doc Hwf)
    as [H _].
  destruct (MemoryStore.import_from_json clock (SCPManager.memory m) doc)
    as [memory1 [n|e]]; [|exact H].
  unfold SCPManager._sync_search_index. cbn [fst snd SCPManager.memory] in *.
  now destruct (MemoryStore.get_all_cases memory1).
Qed.

Lemma dict_mem_In_keys {V : Type} (d : list (string * V)) (k : string) :
  dict_mem d k = false -> ~ In k (dict_keys d).
Proof.
  unfold dict_mem. intros H Hin. apply dict_get_In_keys in Hin.
  now destruct (dict_get d k).
Qed.

Section Operations.
Context {fmt : DatetimeFormat}.

Lemma apply_op_wf (m m' : SCPManager.t) (op : manager_op) :
  rekeys op = false ->
  apply_op m op = Some m' ->
  store_wf (SCPManager.memory m) ->
  store_wf (SCPManager.memory m').
Proof.
  destruct op as [now c|id|now id u|now id d|clock mappings|clock doc];
    cbn [apply_op rekeys]; intros Hk H Hwf;
    try (injection H as <-).
  - now apply store_wf_add.
  - rewrite (proj1 (manager_delete_memory m id)). now apply store_wf_delete.
  - now apply update_case_wf.
  - destruct (SCPManager.update_case_dict now m id d) as [[m1 r]|] eqn:E;
      [|discriminate].
    injection H as <-.
    exact (update_case_dict_wf now m m1 id d r Hwf (dict_mem_In_keys _ _ Hk) E).
  - now apply bulk_update_loop_wf.
  - now apply import_data_wf.
Qed.

Lemma store_changed_keys (now : datetime) (m : SCPManager.t)
  (case_id : string) (c c0 : SupportCase.t) :
  store_wf (SCPManager.memory m) ->
  MemoryStore.get_case (SCPManager.memory m) case_id = Some c0 ->
  SupportCase.case_id c = case_id ->
  dict_keys (SCPManager.memory (SCPManager.store_changed now m case_id c))
  = dict_keys (SCPManager.memory m).
Proof.
  intros Hwf Hg Hid. rewrite store_changed_memory by exact Hid.
  unfold MemoryStore.add_case. rewrite Hid.
  apply dict_keys_set_present, dict_get_In_keys.
  unfold MemoryStore.get_case in Hg. congruence.
Qed.

Lemma bulk_update_loop_keys (clock : nat -> datetime)
  (mappings : list (string * list string)) :
  forall tick m n,
    store_wf (SCPManager.memory m) ->
    dict_keys
      (SCPManager.memory
         (fst (SCPManager.bulk_update_loop clock tick m mappings n)))
    = dict_keys (SCPManager.memory m).
Proof.
  induction mappings as [|[id tags] mappings IH]; intros tick m n Hwf;
    cbn [SCPManager.bulk_update_loop]; [reflexivity|].
  destruct (MemoryStore.get_case (SCPManager.memory m) id) as [c|] eqn:Hg;
    [|now apply IH].
  assert (Hid : SupportCase.case_id
                  (SupportCase.set_updated_at
                     (SCPManager.add_tag_names c tags) (clock tick)) = id).
  { cbn [SupportCase.set_updated_at SupportCase.case_id].
    rewrite add_tag_names_keeps_id.
    exact (stored_under_own_id _ _ _ Hwf Hg). }
  rewrite IH by (now apply store_changed_wf).
  exact (store_changed_keys _ _ _ _ _ Hwf Hg Hid).
Qed.

Lemma apply_op_absent (m m' : SCPManager.t) (op : manager_op)
  (case_id : string) :
  adds_id case_id op = false ->
  apply_op m op = Some m' ->
  store_wf (SCPManager.memory m) ->
  ~ In case_id (dict_keys (SCPManager.memory m)) ->
  ~ In case_id (dict_keys (SCPManager.memory m')).
Proof.
  destruct op as [now c|id|now id u|now id d|clock mappings|clock doc];
    cbn [apply_op adds_id]; intros Hop H Hwf Hout Hin;
    try discriminate Hop; try (injection H as <-).
  - unfold SCPManager.add_case, MemoryStore.add_case in Hin.
    cbn [SCPManager.memory] in Hin.
    apply dict_keys_set_In in Hin as [Hin|Hin]; [|contradiction].
    simpl in Hin. subst case_id. rewrite String.eqb_refl in Hop. discriminate.
  - rewrite (proj1 (manager_delete_memory m id)) in Hin.
    unfold MemoryStore.delete_case in Hin.
    destruct (dict_mem _ id); simpl in Hin; [|contradiction].
    apply Hout. unfold dict_keys in *.
    apply in_map_iff in Hin as [p [Hp Hin]]. apply in_map_iff.
    exists p. split; [assumption|]. now apply (dict_del_incl _ id).
  - unfold SCPManager.update_case in Hin.
    destruct (MemoryStore.get_case (SCPManager.memory m) id) as [c|] eqn:Hg;
      [|contradiction].
    cbn [fst] in Hin.
    rewrite (store_changed_keys now m id _ c Hwf Hg) in Hin; [contradiction|].
    exact (stored_under_own_id _ _ _ Hwf Hg).
  - unfold SCPManager.update_case_dict in H.
    destruct (MemoryStore.get_case (SCPManager.memory m) id) as [c|] eqn:Hg.
    + destruct (SCPManager.apply_update_dict c d) as [c1|] eqn:E;
        [|discriminate].
      cbn [obind option_map fst] in H. injection H as <-.
      rewrite (store_changed_keys now m id _ c Hwf Hg) in Hin; [contradiction|].
      cbn [SupportCase.set_updated_at SupportCase.case_id].
      rewrite (apply_update_dict_keeps_id d c c1 (dict_mem_In_keys _ _ Hop) E).
      exact (stored_under_own_id _ _ _ Hwf Hg).
    + cbn [option_map fst] in H. injection H as <-. contradiction.
  - unfold SCPManager.bulk_update_tags in Hin.
    rewrite bulk_update_loop_keys in Hin by exact Hwf. contradiction.
Qed.

Lemma adds_id_rekeys (case_id : string) (op : manager_op) :
  adds_id case_id op = false -> rekeys op = false.
Proof. destruct op; cbn; congruence. Qed.

Lemma run_ops_wf (ops : list manager_op) :
  forall m m',
    forallb (fun op => negb (rekeys op)) ops = true ->
    run_ops m ops = Some m' ->
    store_wf (SCPManager.memory m) ->
    store_wf (SCPManager.memory m').
Proof.
  induction ops as [|op ops IH]; cbn [run_ops forallb]; intros m m' Hops H Hwf.
  - now injection H as <-.
  - apply andb_prop in Hops as [Hop Hops]. apply negb_true_iff in Hop.
    destruct (apply_op m op) as [m1|] eqn:E; [|discriminate].
    cbn [obind] in H.
    exact (IH m1 m' Hops H (apply_op_wf m m1 op Hop E Hwf)).
Qed.

Lemma run_ops_absent (ops : list manager_op) (case_id : string) :
  forall m m',
    forallb (fun op => negb (adds_id case_id op)) ops = true ->
    run_ops m ops = Some m' ->
    store_wf (SCPManager.memory m) ->
    ~ In case_id (dict_keys (SCPManager.memory m)) ->
    ~ In case_id (dict_keys (SCPManager.memory m')).
Proof.
  induction ops as [|op ops IH]; cbn [run_ops forallb];
    intros m m' Hops H Hwf Hout.
  - now injection H as <-.
  - apply andb_prop in Hops as [Hop Hops]. apply negb_true_iff in Hop.
    destruct (apply_op m op) as [m1|] eqn:E; [|discriminate].
    cbn [obind] in H.
    apply (IH m1 m' Hops H).
    + exact (apply_op_wf m m1 op (adds_id_rekeys _ _ Hop) E Hwf).
    + exact (apply_op_absent m m1 op case_id Hop E Hwf Hout).
Qed.
End Operations.

(** No answer of the orchestrator names an id that the store does not
    hold. *)
Lemma search_cases_absent (m : SCPManager.t) (case_id : string)
  (q : CaseQuery.t) (rs : list SearchResult.t) :
  store_wf (SCPManager.memory m) ->
  ~ In case_id (dict_keys (SCPManager.memory m)) ->
  SCPManager.search_cases m q = Ok rs ->
  ~ In case_id (result_ids rs).
Proof.
  intros [_ Hid] Hout Hs Hin. apply Hout.
  unfold result_ids in Hin. apply in_map_iff in Hin as [r [Hr Hin]].
  assert (Hc : In (SearchResult.case r) (dict_values (SCPManager.memory m))).
  { apply (candidates_incl m q), (search_cases_incl m q rs Hs).
    now apply in_map. }
  unfold dict_values in Hc. apply in_map_iff in Hc as [[k c] [Hc Hp]].
  simpl in Hc. subst c. pose proof (Hid _ _ Hp) as Hk.
  rewrite Hr in Hk. subst k.
  unfold dict_keys. apply in_map_iff. exists (case_id, SearchResult.case r).
  split; [reflexivity | exact Hp].
Qed.

Lemma mapM_new_one (cases : list SupportCase.t) :
  exists rs, mapM (fun case => SearchResult.new case 1%Q) cases = Ok rs.
Proof.
  induction cases as [|c cases [rs IH]]; simpl; [eauto|].
  rewrite IH. simpl. eauto.
Qed.

(** C9, the claim as stated fails.  [update_case] takes a mapping and
    assigns whatever it names, [case_id] included: the case found under B
    is changed in place to carry the id Z and is then filed under Z as
    well.  [delete_case] of Z answers true and [get_case] of Z finds
    nothing, yet the object is still filed under B, and a search returns a
    case with the id Z, with either engine. *)
Lemma rekeyed_case_outlives_delete :
  Forall
    (fun start =>
       let m := SCPManager.add_case 1%Z start Fixtures.case_B in
       exists m1 c m2 rs,
         SCPManager.update_case_dict 2%Z m "B" [("case_id", PStr "Z")]
         = Some (m1, Some c)
         /\ SupportCase.case_id c = "Z"
         /\ SCPManager.get_case m1 "B" = Some c
         /\ SCPManager.get_case m1 "Z" = Some c
         /\ SCPManager.delete_case m1 "Z" = (m2, true)
         /\ SCPManager.get_case m2 "Z" = None
         /\ SCPManager.search_cases_str m2 "api" = Ok rs
         /\ result_ids rs = ["Z"])
    [Fixtures.simple_manager; Fixtures.vector_manager].
Proof.
  repeat constructor; do 4 eexists;
    (split; [reflexivity|]); repeat split; vm_compute; reflexivity.
Qed.

(** C9, amended.  In a store whose cases are filed under their own ids:
    once [delete_case] has answered true for an id, [get_case] finds
    nothing under it.  Let any operations follow, none of them an update
    with a mapping that assigns [case_id].  If none of them is an
    [add_case] of that id or an import, [get_case] still finds nothing;
    and whenever [get_case] finds nothing under the id, no answer of
    [search_cases] holds a case of that id, for every query and with either
    engine.  With the lexical engine the search always answers. *)
Theorem deleted_case_is_never_found {fmt : DatetimeFormat}
  (m m1 m2 : SCPManager.t) (case_id : string) (ops : list manager_op) :
  store_wf (SCPManager.memory m) ->
  SCPManager.delete_case m case_id = (m1, true) ->
  forallb (fun op => negb (rekeys op)) ops = true ->
  run_ops m1 ops = Some m2 ->
  SCPManager.get_case m1 case_id = None
  /\ (forallb (fun op => negb (adds_id case_id op)) ops = true ->
      SCPManager.get_case m2 case_id = None)
  /\ (SCPManager.get_case m2 case_id = None ->
      forall q rs, SCPManager.search_cases m2 q = Ok rs ->
                   ~ In case_id (result_ids rs))
  /\ (forall q, SCPManager.vector_search_enabled m2 = false ->
                exists rs, SCPManager.search_cases m2 q = Ok rs).
Proof.
  intros Hwf Hdel Hkeys Hrun.
  assert (Hm1 : SCPManager.memory m1
                = fst (MemoryStore.delete_case (SCPManager.memory m) case_id)).
  { rewrite <- (proj1 (manager_delete_memory m case_id)). now rewrite Hdel. }
  assert (Hwf1 : store_wf (SCPManager.memory m1)).
  { rewrite Hm1. now apply store_wf_delete. }
  assert (Hout1 : ~ In case_id (dict_keys (SCPManager.memory m1))).
  { rewrite Hm1. now apply store_delete_absent. }
  assert (Hwf2 : store_wf (SCPManager.memory m2))
    by exact (run_ops_wf ops m1 m2 Hkeys Hrun Hwf1).
  assert (Hget : forall x, ~ In case_id (dict_keys (SCPManager.memory x)) ->
             SCPManager.get_case x case_id = None).
  { intros x Hx. unfold SCPManager.get_case, MemoryStore.get_case.
    destruct (dict_get (SCPManager.memory x) case_id) eqn:E; [|reflexivity].
    exfalso. apply Hx, dict_get_In_keys. congruence. }
  split; [now apply Hget|]. split; [|split].
  - intros Hops. apply Hget.
    exact (run_ops_absent ops case_id m1 m2 Hops Hrun Hwf1 Hout1).
  - intros Hnone q rs. apply search_cases_absent; [exact Hwf2|].
    intros Hin. apply dict_get_In_keys in Hin.
    unfold SCPManager.get_case, MemoryStore.get_case in Hnone. contradiction.
  - intros q Hv. unfold SCPManager.search_cases, SCPManager.scored_cases.
    unfold SCPManager.vector_search_enabled in Hv.
    destruct (SCPManager.search_engine m2); [discriminate|].
    destruct (mapM_new_one (SCPManager.candidates m2 q)) as [rs Hrs].
    rewrite Hrs. simpl. eauto.
Qed.

Lemma deleted_case_is_never_found_witness :
  let m := Fixtures.add_ABC Fixtures.simple_manager in
  let ops :=
    [ Add 5%Z Fixtures.case_B;
      Update 6%Z "B"
        (CaseUpdate.mk None (Some None) None None None None None None None
           None None);
      UpdateDict 7%Z "C" [("customer", PStr "contoso"); ("color", PInt 1%Z)];
      BulkTags (fun tick => Z.of_nat tick) [("B", ["api"])];
      Delete "C" ] in
  store_wf (SCPManager.memory m)
  /\ exists m2,
       run_ops (fmt := Fixtures.decimal_format)
         (fst (SCPManager.delete_case m "A")) ops = Some m2
       /\ SCPManager.get_case m2 "A" = None.
Proof.
  intros m ops.
  assert (Hwf : store_wf (SCPManager.memory m)).
  { unfold m, Fixtures.add_ABC. simpl SCPManager.memory.
    repeat apply store_wf_add. apply store_wf_empty. }
  split; [exact Hwf|].
  destruct (run_ops (fmt := Fixtures.decimal_format)
              (fst (SCPManager.delete_case m "A")) ops) as [m2|] eqn:E;
    [|vm_compute in E; discriminate].
  exists m2. split; [reflexivity|].
  exact (proj1 (proj2
           (deleted_case_is_never_found (fmt := Fixtures.decimal_format)
              m (fst (SCPManager.delete_case m "A")) m2 "A" ops
              Hwf eq_refl eq_refl E)) eq_refl).
Defined.

(** ** Search under the lexical engine *)

Lemma mapM_map {A B : Type} (f : A -> result B) (g : A -> B) (l : list A) :
  (forall a, In a l -> f a = Ok (g a)) -> mapM f l = Ok (map g l).
Proof.
  induction l as [|a l IH]; simpl; intros H; [reflexivity|].
  rewrite (H a) by now left. simpl. rewrite IH; [reflexivity|].
  intros; apply H. now right.
Qed.

Lemma mapM_unscored (cases : list SupportCase.t) :
  mapM (fun case => SearchResult.new case 1%Q) cases = Ok (map unscored cases).
Proof. apply mapM_map. intros; reflexivity. Qed.

Lemma candidates_contain_query (m : SCPManager.t) (q : CaseQuery.t)
  (c : SupportCase.t) :
  PyStr.truthy (CaseQuery.query q) = true ->
  In c (SCPManager.candidates m q) ->
  PyStr.contains (PyStr.lower (CaseQuery.query q))
    (PyStr.lower (SupportCase.get_text_content c)) = true.
Proof.
  intros Hq Hc. unfold SCPManager.candidates in Hc.
  assert (Hs : In c (MemoryStore.search_cases (SCPManager.memory m)
                       (CaseQuery.query q) (CaseQuery.status_filter q)
                       (CaseQuery.priority_filter q) (CaseQuery.case_ids q))).
  { destruct (MemoryStore.given (CaseQuery.tags q));
      [apply filter_In in Hc as [Hc _]|];
      (destruct (CaseQuery.date_from q), (CaseQuery.date_to q);
         try (apply filter_In in Hc as [Hc _]); exact Hc). }
  unfold MemoryStore.search_cases in Hs. rewrite Hq in Hs.
  now apply filter_In in Hs as [_ Hs].
Qed.

(** C3, the claim as stated fails.  Under the lexical engine the answer to
    "database" holds A and C with score 1 each, in store order, and not B;
    the Jaccard scores of the candidates are 1/2 and 1/4, and with C stored
    before A the answer lists C first although A has the larger Jaccard
    score. *)
Lemma lexical_search_is_not_jaccard_ranked :
  (exists rs,
      SCPManager.search_cases_str
        (Fixtures.add_ABC Fixtures.simple_manager) "database" = Ok rs
      /\ result_scores rs = [("A", 1%Q); ("C", 1%Q)])
  /\ (exists rs,
         SCPManager.search_cases_str
           (Fixtures.add_CBA Fixtures.simple_manager) "database" = Ok rs
         /\ result_scores rs = [("C", 1%Q); ("A", 1%Q)]
         /\ spec_lexical_scores "database"
              (SCPManager.candidates (Fixtures.add_CBA Fixtures.simple_manager)
                 (CaseQuery.of_str "database"))
            = [("A", (1 # 2)%Q); ("C", (1 # 4)%Q)]
         /\ result_scores rs
            <> spec_lexical_scores "database"
                 (SCPManager.candidates (Fixtures.add_CBA Fixtures.simple_manager)
                    (CaseQuery.of_str "database"))).
Proof.
  split.
  - eexists. split; vm_compute; reflexivity.
  - eexists. split; [vm_compute; reflexivity|].
    split; [vm_compute; reflexivity|].
    split; [vm_compute; reflexivity|].
    vm_compute. discriminate.
Qed.

(** C3, amended.  With the lexical engine active the orchestrator does not
    score: its answer is the candidates in store order, each with score 1.0,
    cut to the limit; when the query carries text every candidate contains
    the lowered query in its lowered text; and for the store of A, B and C
    the answer to "database" is A then C, each with score 1.0, without B. *)
Theorem lexical_search_is_unscored :
  (forall (m : SCPManager.t) (q : CaseQuery.t),
      SCPManager.vector_search_enabled m = false ->
      SCPManager.search_cases m q
      = Ok (py_slice_to (map unscored (SCPManager.candidates m q))
                        (CaseQuery.limit q)))
  /\ (forall (m : SCPManager.t) (q : CaseQuery.t) (c : SupportCase.t),
         PyStr.truthy (CaseQuery.query q) = true ->
         In c (SCPManager.candidates m q) ->
         PyStr.contains (PyStr.lower (CaseQuery.query q))
           (PyStr.lower (SupportCase.get_text_content c)) = true)
  /\ (exists rs,
         SCPManager.search_cases_str
           (Fixtures.add_ABC Fixtures.simple_manager) "database" = Ok rs
         /\ result_scores rs = [("A", 1%Q); ("C", 1%Q)]).
Proof.
  split; [|split].
  - intros m q Hv. unfold SCPManager.search_cases, SCPManager.scored_cases.
    unfold SCPManager.vector_search_enabled in Hv.
    destruct (SCPManager.search_engine m); [discriminate|].
    now rewrite mapM_unscored.
  - apply candidates_contain_query.
  - eexists. split; vm_compute; reflexivity.
Qed.

Lemma lexical_search_is_unscored_witness :
  SCPManager.vector_search_enabled (Fixtures.add_ABC Fixtures.simple_manager)
  = false
  /\ SCPManager.search_cases (Fixtures.add_ABC Fixtures.simple_manager)
       (CaseQuery.of_str "database")
     = Ok (py_slice_to
             (map unscored
                (SCPManager.candidates (Fixtures.add_ABC Fixtures.simple_manager)
                   (CaseQuery.of_str "database")))
             10%Z).
Proof.
  split; [reflexivity|].
  exact (proj1 lexical_search_is_unscored
           (Fixtures.add_ABC Fixtures.simple_manager)
           (CaseQuery.of_str "database") eq_refl).
Defined.

(** ** Search under the embedding engine *)

Lemma find_app_first {A : Type} (f : A -> bool) (l1 l2 : list A) :
  find f (l1 ++ l2)
  = match find f l1 with
    | Some x => Some x
    | None => find f l2
    end.
Proof.
  induction l1 as [|a l1 IH]; simpl; [reflexivity|].
  destruct (f a); auto.
Qed.

Lemma dict_get_fold_set (vr : list (string * Q)) (d : list (string * Q))
  (case_id : string) :
  dict_get (fold_left (fun d r => dict_set d (fst r) (snd r)) vr d) case_id
  = match last_score vr case_id with
    | Some s => Some s
    | None => dict_get d case_id
    end.
Proof.
  unfold last_score. revert d.
  induction vr as [|[k s] vr IH]; simpl; intros d; [reflexivity|].
  rewrite IH, find_app_first.
  destruct (find _ (rev vr)); simpl; [reflexivity|].
  destruct (String.eqb k case_id) eqn:E; simpl.
  - apply String.eqb_eq in E. subst case_id. apply dict_get_set_same.
  - apply dict_get_set_other. intros ->.
    rewrite String.eqb_refl in E. discriminate.
Qed.

(** The map built from an engine answer gives the score of the last pair
    naming the id, and 0.0 for an id the answer does not name. *)
Lemma score_map_get_last (vr : list (string * Q)) (case_id : string) :
  SCPManager.score_map_get (SCPManager.score_map_of vr) case_id
  = match last_score vr case_id with
    | Some s => s
    | None => 0%Q
    end.
Proof.
  unfold SCPManager.score_map_get, SCPManager.score_map_of.
  rewrite dict_get_fold_set. now destruct (last_score vr case_id).
Qed.

Lemma last_score_In (vr : list (string * Q)) (case_id : string) (s : Q) :
  last_score vr case_id = Some s -> In (case_id, s) vr.
Proof.
  unfold last_score. destruct (find _ (rev vr)) as [r|] eqn:E; [|discriminate].
  simpl. intros H. injection H as <-. apply find_some in E as [Hin He].
  apply String.eqb_eq in He. subst case_id. apply in_rev.
  now destruct r.
Qed.

Lemma in_range_iff (lo hi q : Q) :
  in_range lo hi q = true <-> (lo <= q)%Q /\ (q <= hi)%Q.
Proof.
  unfold in_range. rewrite andb_true_iff, !Qle_bool_iff. tauto.
Qed.

(** C4, the claim as stated fails.  With A, B and C indexed and the query
    "a" restricted to the id B there is one candidate, so one row is asked
    of the index, not max(1, 100) = 100: the single row is A, and B gets the
    default score 0.  A search for 100 rows answers 3/5 for B. *)
Lemma search_k_is_not_max_with_100 :
  let m := Fixtures.add_ABC Fixtures.vector_manager in
  let cases := SCPManager.candidates m Fixtures.query_a_in_B in
  SCPManager.search_k cases = 1%Z
  /\ spec_search_k cases = 100%Z
  /\ (exists rs, SCPManager.search_cases m Fixtures.query_a_in_B = Ok rs
                 /\ result_scores rs = [("B", 0%Q)])
  /\ (exists vr,
         VectorSearchEngine.search
           (Fixtures.vector_engine Fixtures.unit_encoder) "a"
           (spec_search_k cases) 0%Q = Ok vr
         /\ SCPManager.score_map_get (SCPManager.score_map_of vr) "B"
            = (15 # 25)%Q).
Proof.
  intros m cases. split; [reflexivity|]. split; [reflexivity|]. split.
  - eexists. split; vm_compute; reflexivity.
  - eexists. split; vm_compute; reflexivity.
Qed.

(** The sort is stable: the entries of one key are in the order they had. *)
Lemma insert_desc_same_key {A : Type} (key : A -> Q) (s : Q) (x : A)
  (l : list A) :
  filter (fun y => Qeq_bool (key y) s) (insert_desc key x l)
  = filter (fun y => Qeq_bool (key y) s) (x :: l).
Proof.
  induction l as [|y l IH]; [reflexivity|].
  cbn [insert_desc]. destruct (Qle_bool (key y) (key x)) eqn:E; [reflexivity|].
  cbn [filter] in *. rewrite IH.
  destruct (Qeq_bool (key y) s) eqn:Ey, (Qeq_bool (key x) s) eqn:Ex;
    try reflexivity.
  exfalso. apply Qeq_bool_iff in Ey, Ex.
  assert (H : Qle_bool (key y) (key x) = true).
  { apply Qle_bool_iff. rewrite Ey, Ex. apply Qle_refl. }
  congruence.
Qed.

Lemma sort_desc_same_key {A : Type} (key : A -> Q) (s : Q) (l : list A) :
  filter (fun y => Qeq_bool (key y) s) (sort_desc key l)
  = filter (fun y => Qeq_bool (key y) s) l.
Proof.
  induction l as [|x l IH]; [reflexivity|].
  cbn [sort_desc fold_right]. fold (sort_desc key l).
  rewrite insert_desc_same_key. cbn [filter]. now rewrite IH.
Qed.

(** The result constructors over the candidates: all results, or the
    validation error of the first score outside [0, 1]. *)
Lemma mapM_new_scores (score : SupportCase.t -> Q)
  (cases : list SupportCase.t) :
  mapM (fun case => SearchResult.new case (score case)) cases
  = if forallb (fun case => in_range 0 1 (score case)) cases
    then Ok (map (fun case => SearchResult.mk case (score case) []) cases)
    else Raise ValidationError.
Proof.
  induction cases as [|c cases IH]; [reflexivity|].
  cbn [mapM forallb map]. unfold SearchResult.new at 1.
  destruct (in_range 0 1 (score c)); [|reflexivity].
  cbn [bind andb]. rewrite IH. now destruct (forallb _ cases).
Qed.

Lemma mapM_ext {A B : Type} (f g : A -> result B) (l : list A) :
  (forall a, f a = g a) -> mapM f l = mapM g l.
Proof.
  intros H. induction l as [|a l IH]; [reflexivity|].
  cbn [mapM]. now rewrite H, IH.
Qed.

Lemma forallb_ext_in {A : Type} (f g : A -> bool) (l : list A) :
  (forall a, In a l -> f a = g a) -> forallb f l = forallb g l.
Proof.
  induction l as [|a l IH]; intros H; [reflexivity|]. cbn [forallb].
  rewrite (H a) by now left. f_equal. apply IH. intros; apply H. now right.
Qed.

(** C4, amended.  With the embedding engine and a query that carries text,
    the orchestrator asks the index for as many rows as there are
    candidates, or for 100 when there are none; every candidate gets the
    score the answer gives its id (the last one, should the id occur more
    than once) or 0.0 when the answer does not name it.  If no candidate's
    score exceeds 1, the answer is the candidates sorted by falling score,
    candidates of one score in store order, cut to the limit.  If a
    candidate's score exceeds 1, the result constructor rejects it and the
    search raises a validation error instead of answering. *)
Theorem vector_search_scores_candidates
  (m : SCPManager.t) (v : VectorSearchEngine.t) (q : CaseQuery.t)
  (vector_results : list (string * Q)) :
  SCPManager.search_engine m = Vector v ->
  PyStr.truthy (CaseQuery.query q) = true ->
  let cases := SCPManager.candidates m q in
  let k := match cases with
           | [] => 100%Z
           | _ => Z.of_nat (List.length cases)
           end in
  VectorSearchEngine.search v (CaseQuery.query q) k 0%Q = Ok vector_results ->
  let score := fun case =>
                 match last_score vector_results (SupportCase.case_id case) with
                 | Some s => s
                 | None => 0%Q
                 end in
  let scored := map (fun case => SearchResult.mk case (score case) []) cases in
  let xs := sort_desc SearchResult.similarity_score scored in
  (forallb (fun case => Qle_bool (score case) 1) cases = true ->
   SCPManager.scored_cases m q = Ok xs
   /\ SCPManager.search_cases m q = Ok (py_slice_to xs (CaseQuery.limit q)))
  /\ (forallb (fun case => Qle_bool (score case) 1) cases = false ->
      SCPManager.search_cases m q = Raise ValidationError)
  /\ Permutation (map SearchResult.case xs) cases
  /\ non_increasing SearchResult.similarity_score xs
  /\ (forall s,
        filter (fun r => Qeq_bool (SearchResult.similarity_score r) s) xs
        = filter (fun r => Qeq_bool (SearchResult.similarity_score r) s)
                 scored).
Proof.
  intros He Hq cases k Hvr score scored xs.
  assert (Hscore : forall case,
             SCPManager.score_map_get (SCPManager.score_map_of vector_results)
               (SupportCase.case_id case) = score case).
  { intros case. apply score_map_get_last. }
  assert (Hrange : forallb (fun case => in_range 0 1 (score case)) cases
                   = forallb (fun case => Qle_bool (score case) 1) cases).
  { apply forallb_ext_in. intros c _. unfold in_range, score.
    destruct (last_score vector_results (SupportCase.case_id c)) as [s|] eqn:El;
      [|reflexivity].
    apply last_score_In in El.
    pose proof (proj1 (vector_search_scores v _ _ _ _ _ Hvr El)) as H0.
    apply Qle_bool_iff in H0. cbn [snd] in H0. now rewrite H0. }
  assert (Hsc : SCPManager.scored_cases m q
                = if forallb (fun case => Qle_bool (score case) 1) cases
                  then Ok xs else Raise ValidationError).
  { unfold SCPManager.scored_cases. rewrite He, Hq.
    fold cases. change (SCPManager.search_k cases) with k.
    rewrite Hvr. cbv beta iota zeta delta [bind].
    rewrite (mapM_ext _ (fun case => SearchResult.new case (score case)))
      by (intros c; now rewrite Hscore).
    rewrite mapM_new_scores, Hrange. clear Hrange.
    destruct (forallb (fun case => Qle_bool (score case) 1) cases);
      reflexivity. }
  split; [|split; [|split; [|split]]].
  - intros H. rewrite H in Hsc. split; [exact Hsc|].
    unfold SCPManager.search_cases. now rewrite Hsc.
  - intros H. rewrite H in Hsc. unfold SCPManager.search_cases.
    now rewrite Hsc.
  - unfold xs.
    rewrite <- (Permutation_map SearchResult.case
                  (sort_desc_Permutation SearchResult.similarity_score scored)).
    unfold scored. rewrite map_map. simpl. now rewrite map_id.
  - apply sort_desc_sorted.
  - intros s. apply sort_desc_same_key.
Qed.

Lemma vector_search_scores_candidates_witness :
  exists xs,
    SCPManager.search_cases (Fixtures.add_ABC Fixtures.vector_manager)
      (CaseQuery.of_str "database") = Ok xs
    /\ result_scores xs = [("A", (20 # 25)%Q); ("C", 0%Q)].
Proof.
  set (m := Fixtures.add_ABC Fixtures.vector_manager).
  set (q := CaseQuery.of_str "database").
  set (vr := [("A", (20 # 25)%Q); ("B", (15 # 25)%Q)]).
  destruct (proj1 (vector_search_scores_candidates m
                     (Fixtures.vector_engine Fixtures.unit_encoder) q vr
                     eq_refl eq_refl eq_refl) eq_refl) as [_ H].
  eexists. split; [exact H|]. reflexivity.
Defined.

(** The error branch is reached: with an encoder whose answers are not of
    unit length a candidate's inner product with the query exceeds 1, and
    the search raises. *)
Lemma vector_search_raises_above_one :
  SCPManager.search_cases_str
    (Fixtures.add_ABC
       (SCPManager.mk MemoryStore.empty
          (Vector (VectorSearchEngine.mk Fixtures.count_encoder [] []))))
    "database"
  = Raise ValidationError.
Proof. vm_compute. reflexivity. Qed.

(** ** Import of a batch *)

(** A record that is a mapping never stops the loop: the loop answers a
    count, at least the count it started from. *)
Lemma import_loop_of_mappings {fmt : DatetimeFormat} (clock : nat -> datetime)
  (records : list pyval) :
  Forall (fun r => exists kw, r = PDict kw) records ->
  forall tick s n,
  exists s' n',
    MemoryStore.import_loop clock tick s records n = (s', Ok n')
    /\ (n <= n' <= n + Z.of_nat (List.length records))%Z.
Proof.
  induction 1 as [|r records [kw ->] _ IH]; intros tick s n; simpl.
  - exists s, n. split; [reflexivity | lia].
  - destruct (SupportCase_validate_opt (clock tick) kw) as [c|].
    + destruct (IH (S (S tick)) (MemoryStore.add_case (clock (S tick)) s c)
                  (n + 1)%Z) as [s' [n' [E Hn]]].
      exists s', n'. split; [exact E | lia].
    + destruct (IH (S (S tick)) s n) as [s' [n' [E Hn]]].
      exists s', n'. split; [exact E | lia].
Qed.

(** A record that is no mapping ends the loop with the handler's error,
    whatever follows it. *)
Lemma import_loop_non_mapping {fmt : DatetimeFormat} (clock : nat -> datetime)
  (tick : nat) (s : MemoryStore.t) (record : pyval) (rest : list pyval) (n : Z) :
  (forall kw, record <> PDict kw) ->
  MemoryStore.import_loop clock tick s (record :: rest) n
  = (s, Raise AttributeError).
Proof.
  intros H. destruct record; try reflexivity. now destruct (H d).
Qed.

(** C7, evaluated.  A batch whose first record is the number 42 and whose
    second record is a valid case: the constructor rejects the number, the
    handler asks the number for its [get] and raises, and the import ends
    with that error, no count, and the valid record not stored.  The valid
    record alone is imported with count 1, and a record that is a mapping
    without a title is skipped. *)
Theorem import_aborts_on_non_mapping_record (clock : nat -> datetime) :
  MemoryStore.import_from_json (fmt := Fixtures.decimal_format) clock
    MemoryStore.empty Fixtures.number_then_A
  = (MemoryStore.empty, Raise AttributeError)
  /\ (let r := MemoryStore.import_from_json (fmt := Fixtures.decimal_format)
                 clock MemoryStore.empty Fixtures.only_A in
      dict_keys (fst r) = ["A"] /\ snd r = Ok 1%Z)
  /\ (let r := MemoryStore.import_from_json (fmt := Fixtures.decimal_format)
                 clock MemoryStore.empty Fixtures.untitled_then_A in
      dict_keys (fst r) = ["A"] /\ snd r = Ok 1%Z).
Proof. repeat split; reflexivity. Qed.

(** ** Snapshot and restore *)

Lemma pyval_nested_ind (P : pyval -> Prop) :
  P PNone ->
  (forall b, P (PBool b)) ->
  (forall z, P (PInt z)) ->
  (forall q, P (PFloat q)) ->
  (forall s, P (PStr s)) ->
  (forall l, Forall P l -> P (PList l)) ->
  (forall l, Forall P l -> P (PTuple l)) ->
  (forall d, Forall (fun kv => P (snd kv)) d -> P (PDict d)) ->
  (forall t, P (PDatetime t)) ->
  forall v, P v.
Proof.
  intros HNone HBool HInt HFloat HStr HList HTuple HDict HDatetime.
  fix IH 1. intros [ | b | z | q | s | l | l | d | t].
  - exact HNone.
  - apply HBool.
  - apply HInt.
  - apply HFloat.
  - apply HStr.
  - apply HList. induction l as [|x l IHl]; constructor; [apply IH | exact IHl].
  - apply HTuple. induction l as [|x l IHl]; constructor; [apply IH | exact IHl].
  - apply HDict. induction d as [|[k x] d IHd]; constructor; [apply IH | exact IHd].
  - apply HDatetime.
Qed.

Section Roundtrip.
Context {fmt : DatetimeFormat}.
Hypothesis Hfmt : datetime_roundtrip fmt.

Lemma json_roundtrip_native (v : pyval) :
  json_native v = true -> json_roundtrip v = v.
Proof.
  unfold json_roundtrip.
  induction v as [ | b | z | q | s | l IH | l IH | d IH | t]
    using pyval_nested_ind; simpl; try reflexivity; try discriminate.
  - intros H. f_equal. rewrite map_map.
    induction IH as [|x l Hx _ IHl]; simpl in *; [reflexivity|].
    apply andb_prop in H as [H1 H2]. now rewrite Hx, IHl.
  - intros H. f_equal. rewrite map_map.
    induction IH as [|[k x] d Hx _ IHd]; simpl in *; [reflexivity|].
    apply andb_prop in H as [H1 H2]. now rewrite Hx, IHd.
Qed.

Lemma json_roundtrip_dict (d : list (string * pyval)) :
  json_roundtrip (PDict d)
  = PDict (map (fun kv => (fst kv, json_roundtrip (snd kv))) d).
Proof. unfold json_roundtrip. simpl. now rewrite map_map. Qed.

Lemma json_roundtrip_list (l : list pyval) :
  json_roundtrip (PList l) = PList (map json_roundtrip l).
Proof. unfold json_roundtrip. simpl. now rewrite map_map. Qed.

Lemma omap_map {A B : Type} (conv : pyval -> option B) (enc : A -> pyval)
  (dec : A -> B) (l : list A) :
  (forall a, In a l -> conv (json_roundtrip (enc a)) = Some (dec a)) ->
  omap conv (map json_roundtrip (map enc l)) = Some (map dec l).
Proof.
  induction l as [|a l IH]; simpl; intros H; [reflexivity|].
  rewrite (H a) by now left. simpl. rewrite IH; [reflexivity|].
  intros; apply H. now right.
Qed.

Lemma rt_str (s : string) : conv_str (json_roundtrip (PStr s)) = Some s.
Proof. reflexivity. Qed.

Lemma rt_opt_str (o : option string) :
  conv_optional conv_str (json_roundtrip (opt_pyval PStr o)) = Some o.
Proof. destruct o; reflexivity. Qed.

Lemma rt_str_list (l : list string) :
  conv_list conv_str (json_roundtrip (str_list l)) = Some l.
Proof.
  unfold str_list. rewrite json_roundtrip_list. simpl.
  rewrite (omap_map conv_str PStr (fun s => s)); [now rewrite map_id|].
  intros; reflexivity.
Qed.

Lemma rt_datetime (t : datetime) :
  conv_datetime (json_roundtrip (PDatetime t)) = Some t.
Proof. unfold json_roundtrip. simpl. apply Hfmt. Qed.

Lemma rt_opt_datetime (o : option datetime) :
  conv_optional conv_datetime (json_roundtrip (opt_pyval PDatetime o)) = Some o.
Proof.
  destruct o as [t|]; [|reflexivity].
  unfold json_roundtrip. simpl. now rewrite Hfmt.
Qed.

Lemma rt_opt_float (o : option Q) :
  conv_optional conv_float (json_roundtrip (opt_pyval PFloat o)) = Some o.
Proof. destruct o; reflexivity. Qed.

Lemma rt_status (s : Status) :
  conv_enum Status_of_value (json_roundtrip (PStr (Status_value s))) = Some s.
Proof. destruct s; reflexivity. Qed.

Lemma rt_priority (p : Priority) :
  conv_enum Priority_of_value (json_roundtrip (PStr (Priority_value p)))
  = Some p.
Proof. destruct p; reflexivity. Qed.

Lemma rt_flags (l : list EscalationFlag) :
  conv_list (conv_enum EscalationFlag_of_value)
    (json_roundtrip (str_list (map EscalationFlag_value l))) = Some l.
Proof.
  unfold str_list. rewrite map_map, json_roundtrip_list. simpl.
  rewrite (omap_map _ (fun f => PStr (EscalationFlag_value f)) (fun f => f));
    [now rewrite map_id|].
  intros f _. destruct f; reflexivity.
Qed.
End Roundtrip.

Section RoundtripRecords.
Context {fmt : DatetimeFormat}.
Hypothesis Hfmt : datetime_roundtrip fmt.

Lemma rt_LogEntry (now : datetime) (e : LogEntry.t) :
  conv_LogEntry now (json_roundtrip (LogEntry_dict e)) = Some e.
Proof.
  unfold LogEntry_dict. rewrite json_roundtrip_dict.
  unfold conv_LogEntry, required, optional.
  cbn [map fst snd conv_dict obind dict_get String.eqb Ascii.eqb Bool.eqb andb].
  rewrite (rt_datetime Hfmt). cbn [obind].
  rewrite rt_str. cbn [obind].
  rewrite !rt_opt_str. cbn [obind].
  now destruct e.
Qed.

Lemma rt_logs (now : datetime) (l : list LogEntry.t) :
  conv_list (conv_LogEntry now) (json_roundtrip (PList (map LogEntry_dict l)))
  = Some l.
Proof.
  rewrite json_roundtrip_list. simpl.
  rewrite (omap_map _ LogEntry_dict (fun e => e)); [now rewrite map_id|].
  intros e _. apply rt_LogEntry.
Qed.

Lemma rt_CaseTag (tag : CaseTag.t) :
  in_range 0 1 (CaseTag.confidence tag) = true ->
  conv_CaseTag (json_roundtrip (CaseTag_dict tag)) = Some tag.
Proof.
  intros Hr. unfold CaseTag_dict. rewrite json_roundtrip_dict.
  unfold conv_CaseTag, required.
  cbn [map fst snd conv_dict obind dict_get String.eqb Ascii.eqb Bool.eqb andb].
  rewrite !rt_str. cbn [obind].
  change (conv_float (json_roundtrip (PFloat (CaseTag.confidence tag))))
    with (Some (CaseTag.confidence tag)).
  cbn [obind]. rewrite Hr. now destruct tag.
Qed.

Lemma rt_tags (l : list CaseTag.t) :
  forallb (fun tag => in_range 0 1 (CaseTag.confidence tag)) l = true ->
  conv_list conv_CaseTag (json_roundtrip (PList (map CaseTag_dict l))) = Some l.
Proof.
  intros H. rewrite json_roundtrip_list. simpl.
  rewrite (omap_map _ CaseTag_dict (fun t => t)); [now rewrite map_id|].
  intros t Ht. apply rt_CaseTag. rewrite forallb_forall in H. now apply H.
Qed.

Lemma rt_opt_range (lo hi : Q) (o : option Q) :
  match o with
  | Some q => in_range lo hi q
  | None => true
  end = true ->
  conv_optional_range lo hi (json_roundtrip (opt_pyval PFloat o)) = Some o.
Proof.
  unfold conv_optional_range. rewrite rt_opt_float. simpl.
  destruct o as [q|]; [|reflexivity]. now intros ->.
Qed.

Lemma rt_CaseMetrics (m : CaseMetrics.t) :
  match CaseMetrics.customer_satisfaction m with
  | Some q => in_range 1 5 q
  | None => true
  end = true ->
  conv_CaseMetrics (json_roundtrip (CaseMetrics_dict m)) = Some m.
Proof.
  intros Hr. unfold CaseMetrics_dict. rewrite json_roundtrip_dict.
  unfold conv_CaseMetrics, optional.
  cbn [map fst snd conv_dict obind dict_get String.eqb Ascii.eqb Bool.eqb andb].
  rewrite !rt_opt_float. cbn [obind].
  rewrite (rt_opt_range 1 5 _ Hr). cbn [obind].
  change (conv_int (json_roundtrip (PInt (CaseMetrics.escalation_count m))))
    with (Some (CaseMetrics.escalation_count m)).
  cbn [obind]. now destruct m.
Qed.

Lemma rt_custom_fields (d : list (string * pyval)) :
  forallb (fun kv => json_native (snd kv)) d = true ->
  conv_dict (json_roundtrip (PDict d)) = Some d.
Proof.
  intros H. rewrite json_roundtrip_native; [reflexivity | exact H].
Qed.
End RoundtripRecords.

Section RoundtripCase.
Context {fmt : DatetimeFormat}.
Hypothesis Hfmt : datetime_roundtrip fmt.

(** The constructor reads a case back from its exported record, with the
    clock in [updated_at]. *)
Lemma rt_SupportCase (now : datetime) (c : SupportCase.t) :
  valid_case c = true ->
  native_custom_fields c = true ->
  SupportCase_validate now (json_roundtrip (SupportCase_dict c))
  = Ok (SupportCase.set_updated_at c now).
Proof.
  unfold valid_case, native_custom_fields, required_fields_set.
  intros Hv Hn.
  apply andb_prop in Hv as [Hv Hsat]. apply andb_prop in Hv as [Hreq Htags].
  destruct c as [case_id [title|] customer product component [status|]
                 [priority|] severity created_at updated_at due_date symptoms
                 error_messages reproduction_steps root_cause solution
                 workaround logs law_uri dcr_uri tags category subcategory
                 escalation_flags brandon_flags related_cases parent_case
                 [description|] rendered_description notes metrics
                 custom_fields];
    try discriminate Hreq.
  cbn [SupportCase.tags SupportCase.metrics SupportCase.custom_fields]
    in Htags, Hsat, Hn.
  unfold SupportCase_dict, SupportCase.set_updated_at.
  cbn [SupportCase.case_id SupportCase.title SupportCase.customer
       SupportCase.product SupportCase.component SupportCase.status
       SupportCase.priority SupportCase.severity SupportCase.created_at
       SupportCase.updated_at SupportCase.due_date SupportCase.symptoms
       SupportCase.error_messages SupportCase.reproduction_steps
       SupportCase.root_cause SupportCase.solution SupportCase.workaround
       SupportCase.logs SupportCase.law_uri SupportCase.dcr_uri
       SupportCase.tags SupportCase.category SupportCase.subcategory
       SupportCase.escalation_flags SupportCase.brandon_flags
       SupportCase.related_cases SupportCase.parent_case
       SupportCase.description SupportCase.rendered_description
       SupportCase.notes SupportCase.metrics SupportCase.custom_fields].
  change (opt_pyval PStr (Some title)) with (PStr title).
  change (opt_pyval PStr (Some description)) with (PStr description).
  change (opt_pyval (fun s => PStr (Status_value s)) (Some status))
    with (PStr (Status_value status)).
  change (opt_pyval (fun p => PStr (Priority_value p)) (Some priority))
    with (PStr (Priority_value priority)).
  rewrite json_roundtrip_dict.
  unfold SupportCase_validate, SupportCase_validate_opt, required, optional.
  cbn [map fst snd obind dict_get String.eqb Ascii.eqb Bool.eqb andb].
  rewrite !rt_str, !rt_opt_str, !rt_str_list.
  rewrite !(rt_datetime Hfmt), !(rt_opt_datetime Hfmt).
  rewrite rt_status, rt_priority, rt_flags, (rt_logs Hfmt).
  rewrite (rt_tags _ Htags), (rt_CaseMetrics _ Hsat), (rt_custom_fields _ Hn).
  cbn [obind]. reflexivity.
Qed.
End RoundtripCase.

Lemma dict_set_absent_app {V : Type} (d : list (string * V)) k v :
  ~ In k (dict_keys d) -> dict_set d k v = d ++ [(k, v)].
Proof.
  unfold dict_keys. induction d as [|[k0 v0] d IH]; simpl; intros H; [reflexivity|].
  destruct (String.eqb k0 k) eqn:E.
  - apply String.eqb_eq in E. tauto.
  - f_equal. apply IH. tauto.
Qed.

Lemma store_wf_ids (s : MemoryStore.t) :
  store_wf s -> map SupportCase.case_id (dict_values s) = dict_keys s.
Proof.
  intros [_ Hid]. unfold dict_values, dict_keys. rewrite map_map.
  apply map_ext_in. intros [k c] Hin. simpl. now apply Hid.
Qed.

Section RoundtripStore.
Context {fmt : DatetimeFormat}.
Hypothesis Hfmt : datetime_roundtrip fmt.
Variable clock : nat -> datetime.

(** The loop of the import on the records of an export: every record is
    read back and filed after the entries already there. *)
Lemma import_loop_exported (vs : list SupportCase.t) :
  Forall (fun c => valid_case c = true /\ native_custom_fields c = true) vs ->
  NoDup (map SupportCase.case_id vs) ->
  forall tick acc n,
  (forall c, In c vs -> ~ In (SupportCase.case_id c) (dict_keys acc)) ->
  let r := MemoryStore.import_loop clock tick acc
             (map (fun c => json_roundtrip (SupportCase_dict c)) vs) n in
  snd r = Ok (n + Z.of_nat (List.length vs))%Z
  /\ dict_keys (fst r) = dict_keys acc ++ map SupportCase.case_id vs
  /\ map forget_updated_at (dict_values (fst r))
     = map forget_updated_at (dict_values acc) ++ map forget_updated_at vs.
Proof.
  induction 1 as [|c vs [Hv Hn] _ IH]; intros Hnd tick acc n Hout;
    cbv zeta; cbn [map MemoryStore.import_loop].
  - cbn [fst snd List.length]. rewrite !app_nil_r. repeat split. f_equal. lia.
  - inversion Hnd as [|? ? Hc Hnd']; subst.
    rewrite (rt_SupportCase Hfmt (clock tick) c Hv Hn).
    unfold MemoryStore.add_case.
    change (SupportCase.case_id (SupportCase.set_updated_at c (clock tick)))
      with (SupportCase.case_id c).
    rewrite set_updated_at_twice.
    rewrite dict_set_absent_app by (apply Hout; now left).
    set (acc' := acc ++ [(SupportCase.case_id c,
                          SupportCase.set_updated_at c (clock (S tick)))]).
    assert (Hout' : forall c', In c' vs ->
               ~ In (SupportCase.case_id c') (dict_keys acc')).
    { intros c' Hc' Hin. unfold acc', dict_keys in Hin.
      rewrite map_app in Hin. apply in_app_or in Hin as [Hin|[Hin|[]]].
      - apply (Hout c'); [now right | exact Hin].
      - simpl in Hin. apply Hc. rewrite Hin. now apply in_map. }
    destruct (IH Hnd' (2 + tick) acc' (n + 1)%Z Hout') as [H1 [H2 H3]].
    split; [|split].
    + rewrite H1. f_equal. cbn [List.length]. lia.
    + rewrite H2. unfold acc', dict_keys. rewrite map_app, <- app_assoc.
      reflexivity.
    + rewrite H3. unfold acc', dict_values.
      rewrite !map_app, <- app_assoc. reflexivity.
Qed.

Lemma restore_snapshot_unfold (now : datetime) (S : MemoryStore.t) :
  restore_snapshot clock now S
  = MemoryStore.import_loop clock 0 MemoryStore.empty
      (map (fun c => json_roundtrip (SupportCase_dict c)) (dict_values S)) 0%Z.
Proof.
  unfold restore_snapshot, MemoryStore.import_from_json,
    MemoryStore.export_to_json.
  change (json_loads (json_dumps ?v)) with (json_roundtrip v).
  rewrite json_roundtrip_dict.
  cbn [map fst snd dict_get String.eqb Ascii.eqb Bool.eqb andb].
  rewrite json_roundtrip_list. cbn [MemoryStore.py_iter].
  now rewrite map_map.
Qed.
End RoundtripStore.

Lemma decimal_format_roundtrip : datetime_roundtrip Fixtures.decimal_format.
Proof.
  intros d. simpl. rewrite NilEmpty.isi. simpl. now rewrite DecimalZ.of_to.
Qed.




(** * Further properties of the code *)

(** ** The store: filters, lookup, deletion *)

Lemma Status_eqb_eq (a b : Status) : Status_eqb a b = true <-> a = b.
Proof. destruct a, b; simpl; split; intros H; congruence. Qed.

Lemma Priority_eqb_eq (a b : Priority) : Priority_eqb a b = true <-> a = b.
Proof. destruct a, b; simpl; split; intros H; congruence. Qed.

Lemma existsb_Status (x : option Status) (l : list Status) :
  existsb (Status_is x) l = true <-> In x (map Some l).
Proof.
  rewrite existsb_exists, in_map_iff.
  split; intros [y [H1 H2]]; exists y.
  - destruct x as [x|]; [|discriminate]. apply Status_eqb_eq in H2.
    subst. now split.
  - subst x. split; [assumption | now apply Status_eqb_eq].
Qed.

Lemma existsb_Priority (x : option Priority) (l : list Priority) :
  existsb (Priority_is x) l = true <-> In x (map Some l).
Proof.
  rewrite existsb_exists, in_map_iff.
  split; intros [y [H1 H2]]; exists y.
  - destruct x as [x|]; [|discriminate]. apply Priority_eqb_eq in H2.
    subst. now split.
  - subst x. split; [assumption | now apply Priority_eqb_eq].
Qed.

(** X1.  The store's filter is a conjunction: a case is returned exactly
    when it is stored and passes every predicate that is given with a
    non-empty list, and the text predicate when the query is not empty.  A
    case whose status or priority is [None] passes no status or priority
    list. *)
Theorem store_search_is_conjunction
  (s : MemoryStore.t) (query : string)
  (status_filter : option (list Status))
  (priority_filter : option (list Priority))
  (case_ids : option (list string)) (c : SupportCase.t) :
  In c (MemoryStore.search_cases s query status_filter priority_filter case_ids)
  <-> In c (MemoryStore.get_all_cases s)
      /\ (forall ids, MemoryStore.given case_ids = Some ids ->
            In (SupportCase.case_id c) ids)
      /\ (forall sts, MemoryStore.given status_filter = Some sts ->
            In (SupportCase.status c) (map Some sts))
      /\ (forall prs, MemoryStore.given priority_filter = Some prs ->
            In (SupportCase.priority c) (map Some prs))
      /\ (PyStr.truthy query = true ->
          PyStr.contains (PyStr.lower query)
            (PyStr.lower (SupportCase.get_text_content c)) = true).
Proof.
  unfold MemoryStore.search_cases, MemoryStore.get_all_cases.
  destruct (MemoryStore.given case_ids) as [ids|];
    destruct (MemoryStore.given status_filter) as [sts|];
    destruct (MemoryStore.given priority_filter) as [prs|];
    destruct (PyStr.truthy query);
    repeat rewrite filter_In;
    repeat rewrite existsb_Status; repeat rewrite existsb_Priority;
    repeat rewrite mem_In;
    (split;
     [ intros H;
       repeat split;
       try (intros ? E; first [discriminate E | injection E as <-]);
       try discriminate; tauto
     | intros [H0 [H1 [H2 [H3 H4]]]];
       try specialize (H1 _ eq_refl); try specialize (H2 _ eq_refl);
       try specialize (H3 _ eq_refl); try specialize (H4 eq_refl);
       tauto ]).
Qed.

(** X2.  The two one-attribute queries agree with the general filter given
    a one-element list and nothing else. *)
Theorem by_status_and_by_priority_are_filters
  (s : MemoryStore.t) (status : Status) (priority : Priority) :
  MemoryStore.get_cases_by_status s status
  = MemoryStore.search_cases s EmptyString (Some [status]) None None
  /\ MemoryStore.get_cases_by_priority s priority
     = MemoryStore.search_cases s EmptyString None (Some [priority]) None.
Proof.
  unfold MemoryStore.get_cases_by_status, MemoryStore.get_cases_by_priority,
    MemoryStore.search_cases. simpl.
  split; apply filter_ext; intros c; now rewrite orb_false_r.
Qed.

Lemma dict_get_del_other {V : Type} (d : list (string * V)) k k' :
  k <> k' -> dict_get (dict_del d k) k' = dict_get d k'.
Proof.
  intros Hne. induction d as [|[k0 v0] d IH]; simpl; [reflexivity|].
  destruct (String.eqb k0 k) eqn:E; simpl.
  - apply String.eqb_eq in E. subst k0.
    destruct (String.eqb k k') eqn:E'; [|reflexivity].
    apply String.eqb_eq in E'. contradiction.
  - destruct (String.eqb k0 k'); auto.
Qed.

Lemma dict_del_length {V : Type} (d : list (string * V)) k :
  dict_mem d k = true -> S (List.length (dict_del d k)) = List.length d.
Proof.
  unfold dict_mem. induction d as [|[k0 v0] d IH]; simpl; [discriminate|].
  destruct (String.eqb k0 k); simpl; [reflexivity|].
  intros H. f_equal. auto.
Qed.

Lemma dict_get_absent {V : Type} (d : list (string * V)) k :
  ~ In k (dict_keys d) -> dict_get d k = None.
Proof.
  intros H. destruct (dict_get d k) eqn:E; [|reflexivity].
  exfalso. apply H, dict_get_In_keys. congruence.
Qed.

(** X3.  [delete_case] answers true exactly when the id is stored.  An
    unknown id leaves the store as it is.  With distinct keys, a deleted id
    is no longer found, one entry less is stored, and every other id is
    found as before. *)
Theorem delete_case_removes_one (s : MemoryStore.t) (case_id : string) :
  NoDup (dict_keys s) ->
  let r := MemoryStore.delete_case s case_id in
  snd r = MemoryStore.case_exists s case_id
  /\ (snd r = false -> fst r = s)
  /\ MemoryStore.get_case (fst r) case_id = None
  /\ (snd r = true ->
      S (MemoryStore.get_case_count (fst r)) = MemoryStore.get_case_count s)
  /\ (forall other, other <> case_id ->
        MemoryStore.get_case (fst r) other = MemoryStore.get_case s other).
Proof.
  intros Hnd r. unfold r, MemoryStore.delete_case, MemoryStore.case_exists,
    MemoryStore.get_case, MemoryStore.get_case_count.
  destruct (dict_mem s case_id) eqn:E; simpl.
  - repeat split; try discriminate.
    + apply dict_get_absent. now apply dict_del_keys_not_In.
    + intros _. now apply dict_del_length.
    + intros other Ho. apply dict_get_del_other. congruence.
  - repeat split; try discriminate.
    unfold dict_mem in E. now destruct (dict_get s case_id).
Qed.

Lemma delete_case_removes_one_witness :
  NoDup (dict_keys (SCPManager.memory (Fixtures.add_ABC Fixtures.simple_manager)))
  /\ MemoryStore.get_case
       (fst (MemoryStore.delete_case
               (SCPManager.memory (Fixtures.add_ABC Fixtures.simple_manager))
               "B")) "B" = None.
Proof.
  assert (H : NoDup (dict_keys (SCPManager.memory
                                  (Fixtures.add_ABC Fixtures.simple_manager)))).
  { unfold Fixtures.add_ABC. simpl SCPManager.memory.
    repeat apply add_case_keys_NoDup. constructor. }
  split; [exact H|].
  exact (proj1 (proj2 (proj2
           (delete_case_removes_one
              (SCPManager.memory (Fixtures.add_ABC Fixtures.simple_manager))
              "B" H)))).
Defined.

(** X4.  [add_case] files the stamped case under its id and touches no other
    entry; a new id goes to the end of the listing and raises the count by
    one, a stored id keeps its place and the count. *)
Theorem add_case_inserts_or_overwrites
  (now : datetime) (s : MemoryStore.t) (c : SupportCase.t) :
  let s' := MemoryStore.add_case now s c in
  MemoryStore.get_case s' (SupportCase.case_id c)
  = Some (SupportCase.set_updated_at c now)
  /\ (forall other, other <> SupportCase.case_id c ->
        MemoryStore.get_case s' other = MemoryStore.get_case s other)
  /\ (if MemoryStore.case_exists s (SupportCase.case_id c)
      then dict_keys s' = dict_keys s
           /\ MemoryStore.get_case_count s' = MemoryStore.get_case_count s
      else MemoryStore.get_all_cases s'
           = MemoryStore.get_all_cases s ++ [SupportCase.set_updated_at c now]
           /\ MemoryStore.get_case_count s' = S (MemoryStore.get_case_count s)).
Proof.
  intros s'. unfold s', MemoryStore.add_case, MemoryStore.get_case,
    MemoryStore.case_exists, MemoryStore.get_case_count,
    MemoryStore.get_all_cases.
  split; [apply dict_get_set_same|]. split.
  - intros other Ho. apply dict_get_set_other. congruence.
  - unfold dict_mem.
    destruct (dict_get s (SupportCase.case_id c)) eqn:E.
    + assert (Hin : In (SupportCase.case_id c) (dict_keys s)).
      { apply dict_get_In_keys. congruence. }
      pose proof (dict_keys_set_present s (SupportCase.case_id c)
                    (SupportCase.set_updated_at c now) Hin) as Hk.
      split; [exact Hk|].
      rewrite <- (length_map fst (dict_set _ _ _)), <- (length_map fst s).
      exact (f_equal (@List.length string) Hk).
    + assert (Hout : ~ In (SupportCase.case_id c) (dict_keys s)).
      { intros Hin. apply dict_get_In_keys in Hin. contradiction. }
      rewrite dict_set_absent_app by assumption.
      unfold dict_values. rewrite map_app, length_app. simpl.
      split; [reflexivity | lia].
Qed.

(** ** The embedding engine: rebuild, bounds, staleness *)

Lemma vector_fold_add (cases : list SupportCase.t) (e : VectorSearchEngine.t) :
  let e' := fold_left VectorSearchEngine.add_case cases e in
  VectorSearchEngine.encoder e' = VectorSearchEngine.encoder e
  /\ VectorSearchEngine.case_ids e'
     = VectorSearchEngine.case_ids e ++ map SupportCase.case_id cases
  /\ VectorSearchEngine.index e'
     = VectorSearchEngine.index e
       ++ map (fun c => VectorSearchEngine._encode_text e
                          (SupportCase.get_text_content c)) cases.
Proof.
  revert e. induction cases as [|c cases IH]; intros e; simpl.
  - now rewrite !app_nil_r.
  - destruct (IH (VectorSearchEngine.add_case e c)) as [H1 [H2 H3]].
    simpl in *. split; [exact H1|]. split.
    + rewrite H2. now rewrite <- app_assoc.
    + rewrite H3. unfold IndexFlatIP.add. now rewrite <- app_assoc.
Qed.

(** X5.  [rebuild_index] discards what was indexed: afterwards the engine
    lists exactly the ids of the given cases, in their order, and holds one
    row per case, the embedding of its text. *)
Theorem rebuild_index_indexes_exactly
  (e : VectorSearchEngine.t) (cases : list SupportCase.t) :
  let e' := VectorSearchEngine.rebuild_index e cases in
  VectorSearchEngine.encoder e' = VectorSearchEngine.encoder e
  /\ VectorSearchEngine.case_ids e' = map SupportCase.case_id cases
  /\ VectorSearchEngine.index e'
     = map (fun c => VectorSearchEngine._encode_text e
                       (SupportCase.get_text_content c)) cases
  /\ IndexFlatIP.ntotal (VectorSearchEngine.index e') = List.length cases.
Proof.
  intros e'. unfold e', VectorSearchEngine.rebuild_index.
  destruct (vector_fold_add cases
              (VectorSearchEngine.mk (VectorSearchEngine.encoder e) [] []))
    as [H1 [H2 H3]].
  simpl in *. split; [exact H1|]. split; [exact H2|].
  split; [exact H3|].
  unfold IndexFlatIP.ntotal. rewrite H3. apply length_map.
Qed.

Lemma keep_hit_id (e : VectorSearchEngine.t) (threshold : Q) (hit : Q * Z) r :
  In r (keep_hit e threshold hit) -> In (fst r) (VectorSearchEngine.case_ids e).
Proof.
  unfold keep_hit. destruct (_ && _) eqn:E; [|contradiction].
  intros [<-|[]]. simpl. apply andb_prop in E as [E _].
  apply andb_prop in E as [E1 E2].
  apply Z.leb_le in E1. apply Z.ltb_lt in E2.
  apply nth_In. lia.
Qed.

Lemma flat_map_length_le {A B : Type} (f : A -> list B) (l : list A) :
  (forall a, List.length (f a) <= 1) ->
  List.length (flat_map f l) <= List.length l.
Proof.
  intros H. induction l as [|a l IH]; simpl; [lia|].
  rewrite length_app. specialize (H a). lia.
Qed.

Lemma vector_search_ids_and_length
  (e : VectorSearchEngine.t) query k threshold rs :
  VectorSearchEngine.search e query k threshold = Ok rs ->
  (forall r, In r rs -> In (fst r) (VectorSearchEngine.case_ids e))
  /\ (Z.of_nat (List.length rs) <= Z.max 0 k)%Z.
Proof.
  unfold VectorSearchEngine.search.
  destruct (IndexFlatIP.ntotal (VectorSearchEngine.index e) =? 0).
  - intros H. injection H as <-. split; [intros r [] | simpl; lia].
  - unfold IndexFlatIP.search.
    set (n := Z.of_nat (List.length (VectorSearchEngine.case_ids e))).
    destruct (Z.min k n <=? 0)%Z eqn:Ek; simpl; [discriminate|].
    intros H. injection H as <-. fold (keep_hit e threshold).
    apply Z.leb_gt in Ek.
    set (best := firstn _ (sort_desc fst _)).
    rewrite flat_map_app.
    rewrite (flat_map_nil (keep_hit e threshold) (repeat _ _)).
    2:{ intros a Ha. apply repeat_spec in Ha. subst a. reflexivity. }
    rewrite app_nil_r. split.
    + intros r Hr. apply in_flat_map in Hr as [h [_ Hr]].
      now apply keep_hit_id in Hr.
    + assert (Hb : List.length best <= Z.to_nat (Z.min k n)).
      { unfold best. rewrite length_firstn. lia. }
      assert (Hf : List.length (flat_map (keep_hit e threshold) best)
                   <= List.length best).
      { apply flat_map_length_le. intros a.
        destruct (keep_hit_cases e threshold a) as [->|[r [-> _]]]; simpl; lia. }
      change (Z.of_nat (List.length (flat_map (keep_hit e threshold) best))
              <= Z.max 0 k)%Z.
      lia.
Qed.

(** X6.  An answer of the embedding engine names only ids the engine lists
    and holds at most [k] pairs. *)
Theorem vector_search_answers_listed_ids
  (e : VectorSearchEngine.t) (query : string) (k : Z) (threshold : Q)
  (rs : list (string * Q)) :
  VectorSearchEngine.search e query k threshold = Ok rs ->
  (forall r, In r rs -> In (fst r) (VectorSearchEngine.case_ids e))
  /\ (Z.of_nat (List.length rs) <= Z.max 0 k)%Z.
Proof. apply vector_search_ids_and_length. Qed.

Lemma vector_search_answers_listed_ids_witness :
  (Z.of_nat (List.length [("A", (20 # 25)%Q)]) <= Z.max 0 1)%Z.
Proof.
  exact (proj2 (vector_search_answers_listed_ids
                  (Fixtures.vector_engine Fixtures.unit_encoder) "database"
                  1%Z 0%Q [("A", (20 # 25)%Q)] eq_refl)).
Defined.

(** X7.  Rebuild consistency: after [rebuild_index] on a list of cases, no
    search answers an id that is not the id of one of those cases, whatever
    the engine held before. *)
Theorem rebuild_then_search_answers_given_cases
  (e : VectorSearchEngine.t) (cases : list SupportCase.t)
  (query : string) (k : Z) (threshold : Q) (rs : list (string * Q)) :
  VectorSearchEngine.search (VectorSearchEngine.rebuild_index e cases)
    query k threshold = Ok rs ->
  forall r, In r rs ->
    exists c, In c cases /\ SupportCase.case_id c = fst r.
Proof.
  intros H r Hr.
  apply vector_search_ids_and_length in H as [H _]. apply H in Hr.
  unfold VectorSearchEngine.rebuild_index in Hr.
  destruct (vector_fold_add cases
              (VectorSearchEngine.mk (VectorSearchEngine.encoder e) [] []))
    as [_ [H2 _]].
  simpl in H2. rewrite H2 in Hr.
  apply in_map_iff in Hr as [c [Hc Hin]]. now exists c.
Qed.

Lemma rebuild_then_search_answers_given_cases_witness :
  exists c, In c [Fixtures.case_C; Fixtures.case_A]
            /\ SupportCase.case_id c = "A".
Proof.
  exact (rebuild_then_search_answers_given_cases
           (Fixtures.vector_engine Fixtures.unit_encoder)
           [Fixtures.case_C; Fixtures.case_A] "database" 1%Z 0%Q
           [("A", (20 # 25)%Q)] eq_refl ("A", (20 # 25)%Q)
           (or_introl eq_refl)).
Defined.

(** X8.  The embedding engine never drops a row.  [remove_case] leaves the
    engine as it is and only tells whether the id is listed; [update_case]
    appends a row and the id once more, also for an id that is listed
    already; both keep rows and ids equal in number.  So [delete_case] of
    the orchestrator leaves an embedding engine unchanged. *)
Theorem vector_engine_never_forgets
  (e : VectorSearchEngine.t) (c : SupportCase.t) (case_id : string) :
  VectorSearchEngine.remove_case e case_id
  = (e, PyStr.mem case_id (VectorSearchEngine.case_ids e))
  /\ VectorSearchEngine.case_ids (VectorSearchEngine.update_case e c)
     = VectorSearchEngine.case_ids e ++ [SupportCase.case_id c]
  /\ count_occ string_dec
       (VectorSearchEngine.case_ids (VectorSearchEngine.update_case e c))
       (SupportCase.case_id c)
     = S (count_occ string_dec (VectorSearchEngine.case_ids e)
            (SupportCase.case_id c))
  /\ IndexFlatIP.ntotal
       (VectorSearchEngine.index (VectorSearchEngine.update_case e c))
     = S (IndexFlatIP.ntotal (VectorSearchEngine.index e))
  /\ (forall m : SCPManager.t,
        SCPManager.search_engine m = Vector e ->
        SCPManager.search_engine (fst (SCPManager.delete_case m case_id))
        = Vector e).
Proof.
  assert (Hu : VectorSearchEngine.update_case e c
               = VectorSearchEngine.add_case e c).
  { unfold VectorSearchEngine.update_case.
    now destruct (PyStr.mem _ _). }
  rewrite Hu. split; [reflexivity|]. split; [reflexivity|]. split; [|split].
  - simpl. rewrite count_occ_app. simpl.
    destruct (string_dec _ _); [lia | contradiction].
  - unfold IndexFlatIP.ntotal. simpl. unfold IndexFlatIP.add.
    rewrite length_app. simpl. lia.
  - intros m Hm. unfold SCPManager.delete_case.
    destruct (MemoryStore.delete_case (SCPManager.memory m) case_id) as [s [|]];
      simpl; now rewrite Hm.
Qed.

(** ** The lexical engine: answers, empty queries, removal *)

Lemma score_case_shape (query_words : list string) (threshold : Q)
  (entry : string * SupportCase.t) :
  SimpleSearchEngine.score_case query_words threshold entry = []
  \/ (SimpleSearchEngine.score_case query_words threshold entry
      = [(fst entry,
          SimpleSearchEngine.jaccard query_words
            (SimpleSearchEngine.words
               (SupportCase.get_text_content (snd entry))))]
      /\ (threshold
          <= SimpleSearchEngine.jaccard query_words
               (SimpleSearchEngine.words
                  (SupportCase.get_text_content (snd entry))))%Q).
Proof.
  unfold SimpleSearchEngine.score_case.
  destruct (0 <? _); [|now left].
  destruct (Qle_bool threshold _) eqn:E; [|now left].
  right. split; [reflexivity | now apply Qle_bool_iff].
Qed.

Lemma scored_ids_NoDup (query_words : list string) (threshold : Q)
  (e : SimpleSearchEngine.t) :
  NoDup (dict_keys e) ->
  NoDup (map fst (flat_map (SimpleSearchEngine.score_case query_words threshold) e)).
Proof.
  unfold dict_keys. induction e as [|entry e IH]; simpl; intros H; [constructor|].
  inversion H as [|? ? Hout Hnd]; subst. rewrite map_app.
  destruct (score_case_shape query_words threshold entry) as [->|[-> _]];
    simpl; [auto|].
  constructor; [|auto].
  intros Hin. apply Hout. apply in_map_iff in Hin as [r [Hr Hin]].
  apply in_flat_map in Hin as [entry' [He Hin]].
  destruct (score_case_shape query_words threshold entry') as [E|[E _]];
    rewrite E in Hin; [contradiction|].
  destruct Hin as [<-|[]]. simpl in Hr. rewrite <- Hr. now apply in_map.
Qed.

Lemma firstn_NoDup {A : Type} (n : nat) (l : list A) :
  NoDup l -> NoDup (firstn n l).
Proof.
  revert n. induction l as [|x l IH]; intros [|n] H; simpl; try constructor.
  - inversion H; subst. intros Hin. apply firstn_In in Hin. contradiction.
  - inversion H; subst. auto.
Qed.

Lemma slice_NoDup {A : Type} (l : list A) (k : Z) :
  NoDup l -> NoDup (py_slice_to l k).
Proof. unfold py_slice_to. destruct (0 <=? k)%Z; apply firstn_NoDup. Qed.

Lemma slice_map {A B : Type} (f : A -> B) (l : list A) (k : Z) :
  map f (py_slice_to l k) = py_slice_to (map f l) k.
Proof.
  unfold py_slice_to. rewrite length_map.
  destruct (0 <=? k)%Z; symmetry; apply firstn_map.
Qed.

Lemma slice_length {A : Type} (l : list A) (k : Z) :
  (0 <= k)%Z -> List.length (py_slice_to l k) <= Z.to_nat k.
Proof.
  intros Hk. unfold py_slice_to.
  destruct (0 <=? k)%Z eqn:E; [|apply Z.leb_gt in E; lia].
  rewrite length_firstn. lia.
Qed.

Lemma simple_search_facts (e : SimpleSearchEngine.t) query k threshold :
  let rs := SimpleSearchEngine.search e query k threshold in
  (forall r, In r rs ->
     (threshold <= snd r)%Q
     /\ exists c, In (fst r, c) e
                  /\ snd r = SimpleSearchEngine.jaccard
                               (SimpleSearchEngine.words query)
                               (SimpleSearchEngine.words
                                  (SupportCase.get_text_content c)))
  /\ ((0 <= k)%Z -> List.length rs <= Z.to_nat k)
  /\ (NoDup (dict_keys e) -> NoDup (map fst rs)).
Proof.
  intros rs. unfold rs, SimpleSearchEngine.search.
  destruct (SimpleSearchEngine.words query) as [|w ws] eqn:Hw.
  - split; [intros r []|]. split; [simpl; lia | intros _; constructor].
  - split; [|split].
    + intros r Hr. apply slice_incl in Hr. apply sort_desc_In in Hr.
      apply in_flat_map in Hr as [[id c] [He Hr]].
      destruct (score_case_shape (w :: ws) threshold (id, c)) as [E|[E Ht]];
        rewrite E in Hr; [contradiction|].
      destruct Hr as [<-|[]]. simpl. split; [exact Ht|]. now exists c.
    + apply slice_length.
    + intros Hnd. rewrite slice_map. apply slice_NoDup.
      eapply Permutation_NoDup;
        [apply Permutation_map, sort_desc_Permutation|].
      now apply scored_ids_NoDup.
Qed.

(** X9.  An answer of the lexical engine: every pair names an indexed case,
    carries the Jaccard score of the query against that case's text, and
    reaches the threshold; the answer holds at most [k] pairs for [k >= 0],
    and no id twice when the engine's keys are distinct. *)
Theorem simple_search_answers
  (e : SimpleSearchEngine.t) (query : string) (k : Z) (threshold : Q) :
  let rs := SimpleSearchEngine.search e query k threshold in
  (forall r, In r rs ->
     (threshold <= snd r)%Q
     /\ exists c, In (fst r, c) e
                  /\ snd r = SimpleSearchEngine.jaccard
                               (SimpleSearchEngine.words query)
                               (SimpleSearchEngine.words
                                  (SupportCase.get_text_content c)))
  /\ ((0 <= k)%Z -> List.length rs <= Z.to_nat k)
  /\ (NoDup (dict_keys e) -> NoDup (map fst rs)).
Proof. apply simple_search_facts. Qed.

Lemma isspace_lower (a : ascii) :
  PyStr.isspace (PyStr.lower_ascii a) = PyStr.isspace a.
Proof. destruct a as [[] [] [] [] [] [] [] []]; reflexivity. Qed.

Lemma strip_is_empty_lower (s : string) :
  PyStr.strip_is_empty (PyStr.lower s) = PyStr.strip_is_empty s.
Proof.
  induction s as [|a s IH]; simpl; [reflexivity|].
  now rewrite isspace_lower, IH.
Qed.

Lemma split_aux_blank (s : string) (acc : list string) :
  PyStr.strip_is_empty s = true ->
  PyStr.split_aux s EmptyString acc = rev acc.
Proof.
  revert acc. induction s as [|a s IH]; simpl; intros acc H; [reflexivity|].
  apply andb_prop in H as [Ha Hs]. rewrite Ha. simpl. now apply IH.
Qed.

Lemma words_blank (s : string) :
  PyStr.strip_is_empty s = true -> SimpleSearchEngine.words s = [].
Proof.
  intros H. unfold SimpleSearchEngine.words, PyStr.split.
  rewrite split_aux_blank; [reflexivity | now rewrite strip_is_empty_lower].
Qed.

(** X10.  A query that is empty or holds only white space: the lexical
    engine answers nothing, whatever it indexes; the embedding engine
    encodes the placeholder text "empty case" in its place. *)
Theorem blank_query_answers (query : string) :
  PyStr.strip_is_empty query = true ->
  (forall (e : SimpleSearchEngine.t) k threshold,
      SimpleSearchEngine.search e query k threshold = [])
  /\ (forall (e : VectorSearchEngine.t) k threshold,
         VectorSearchEngine.search e query k threshold
         = VectorSearchEngine.search e "empty case" k threshold).
Proof.
  intros H. split.
  - intros e k threshold. unfold SimpleSearchEngine.search.
    now rewrite words_blank.
  - intros e k threshold.
    unfold VectorSearchEngine.search, VectorSearchEngine._encode_text.
    now rewrite H.
Qed.

Lemma blank_query_answers_witness :
  PyStr.strip_is_empty "   " = true
  /\ SimpleSearchEngine.search Fixtures.simple_engine "   " 10%Z 0%Q = [].
Proof.
  split; [reflexivity|].
  exact (proj1 (blank_query_answers "   " eq_refl)
           Fixtures.simple_engine 10%Z 0%Q).
Defined.

(** X11.  [remove_case] of the lexical engine removes in place: it answers
    true exactly when the id was indexed, and afterwards, the keys being
    distinct, no search and no [find_similar_cases] names the id. *)
Theorem simple_remove_case_removes
  (e : SimpleSearchEngine.t) (case_id : string) :
  NoDup (dict_keys e) ->
  let e' := fst (SimpleSearchEngine.remove_case e case_id) in
  snd (SimpleSearchEngine.remove_case e case_id) = dict_mem e case_id
  /\ NoDup (dict_keys e')
  /\ (forall query k threshold,
        ~ In case_id
             (map fst (SimpleSearchEngine.search e' query k threshold)))
  /\ (forall c k threshold,
        ~ In case_id
             (map fst (SimpleSearchEngine.find_similar_cases e' c k threshold))).
Proof.
  intros Hnd e'.
  assert (Hout : ~ In case_id (dict_keys e')).
  { unfold e', SimpleSearchEngine.remove_case.
    destruct (dict_mem e case_id) eqn:E; simpl.
    - now apply dict_del_keys_not_In.
    - unfold dict_mem in E. intros H. apply dict_get_In_keys in H.
      now destruct (dict_get e case_id). }
  assert (Hs : forall query k threshold,
             ~ In case_id
                  (map fst (SimpleSearchEngine.search e' query k threshold))).
  { intros query k threshold Hin. apply Hout.
    apply in_map_iff in Hin as [r [Hr Hin]].
    apply (proj1 (simple_search_facts e' query k threshold)) in Hin
      as [_ [c [Hc _]]].
    rewrite Hr in Hc. unfold dict_keys. apply in_map_iff.
    now exists (case_id, c). }
  split; [|split; [|split]].
  - unfold SimpleSearchEngine.remove_case. now destruct (dict_mem e case_id).
  - unfold e', SimpleSearchEngine.remove_case.
    destruct (dict_mem e case_id); simpl; [now apply dict_del_keys_NoDup | assumption].
  - exact Hs.
  - intros c k threshold Hin. unfold SimpleSearchEngine.find_similar_cases in Hin.
    apply in_map_iff in Hin as [r [Hr Hin]]. apply filter_In in Hin as [Hin _].
    apply (Hs (SupportCase.get_text_content c) (k + 1)%Z threshold).
    apply in_map_iff. now exists r.
Qed.

Lemma simple_remove_case_removes_witness :
  NoDup (dict_keys Fixtures.simple_engine)
  /\ ~ In "A"
       (map fst
          (SimpleSearchEngine.search
             (fst (SimpleSearchEngine.remove_case Fixtures.simple_engine "A"))
             "database" 10%Z 0%Q)).
Proof.
  assert (H : NoDup (dict_keys Fixtures.simple_engine)).
  { vm_compute. repeat constructor; simpl; intuition discriminate. }
  split; [exact H|].
  exact (proj1 (proj2 (proj2
           (simple_remove_case_removes Fixtures.simple_engine "A" H)))
           "database" 10%Z 0%Q).
Defined.

Lemma filter_out_one {A : Type} (l : list (string * A)) (id : string) :
  NoDup (map fst l) -> In id (map fst l) ->
  S (List.length (filter (fun r => negb (String.eqb (fst r) id)) l))
  = List.length l.
Proof.
  induction l as [|[k v] l IH]; simpl; intros Hnd Hin; [contradiction|].
  inversion Hnd as [|? ? Hout Hnd']; subst.
  destruct (String.eqb k id) eqn:E; simpl.
  - apply String.eqb_eq in E. subst k. f_equal.
    clear IH Hin Hnd Hnd'. induction l as [|[k v'] l IH]; simpl; [reflexivity|].
    simpl in Hout.
    destruct (String.eqb k id) eqn:E; simpl.
    + apply String.eqb_eq in E. tauto.
    + f_equal. apply IH. tauto.
  - f_equal. apply IH; [assumption|].
    destruct Hin as [Hin|Hin]; [|assumption].
    subst k. rewrite String.eqb_refl in E. discriminate.
Qed.

(** X12.  [find_similar_cases] of the lexical engine searches for [k + 1]
    pairs and drops the case's own id: it answers at most [k + 1] pairs, and
    at most [k] when the case itself is among the pairs found (the keys
    being distinct). *)
Theorem simple_find_similar_length
  (e : SimpleSearchEngine.t) (c : SupportCase.t) (k : Z) (threshold : Q) :
  (0 <= k)%Z ->
  let found := SimpleSearchEngine.search e (SupportCase.get_text_content c)
                 (k + 1)%Z threshold in
  let rs := SimpleSearchEngine.find_similar_cases e c k threshold in
  List.length rs <= Z.to_nat k + 1
  /\ (NoDup (dict_keys e) ->
      In (SupportCase.case_id c) (map fst found) ->
      List.length rs <= Z.to_nat k).
Proof.
  intros Hk found rs.
  destruct (simple_search_facts e (SupportCase.get_text_content c)
              (k + 1)%Z threshold) as [_ [Hlen Hnd]].
  fold found in Hlen, Hnd. specialize (Hlen ltac:(lia)).
  unfold rs, SimpleSearchEngine.find_similar_cases. fold found. split.
  - pose proof (filter_length_le
                  (fun r => negb (String.eqb (fst r) (SupportCase.case_id c)))
                  found). lia.
  - intros He Hin.
    pose proof (filter_out_one found (SupportCase.case_id c) (Hnd He) Hin). lia.
Qed.

Lemma simple_find_similar_length_witness :
  (0 <= 1)%Z
  /\ List.length
       (SimpleSearchEngine.find_similar_cases Fixtures.simple_engine
          Fixtures.case_A 1%Z 0%Q) <= Z.to_nat 1 + 1.
Proof.
  assert (H : (0 <= 1)%Z) by lia.
  split; [exact H|].
  exact (proj1 (simple_find_similar_length Fixtures.simple_engine
                  Fixtures.case_A 1%Z 0%Q H)).
Defined.

(** ** The orchestrator: queries *)

Lemma new_score_in_unit (case : SupportCase.t) (score : Q) (r : SearchResult.t) :
  SearchResult.new case score = Ok r ->
  SearchResult.case r = case
  /\ SearchResult.similarity_score r = score
  /\ (0 <= score)%Q /\ (score <= 1)%Q.
Proof.
  unfold SearchResult.new. destruct (in_range 0 1 score) eqn:E; [|discriminate].
  intros H. injection H as <-. apply in_range_iff in E. simpl. tauto.
Qed.

Lemma scored_cases_scores (m : SCPManager.t) (q : CaseQuery.t)
  (xs : list SearchResult.t) :
  SCPManager.scored_cases m q = Ok xs ->
  forall r, In r xs ->
    (0 <= SearchResult.similarity_score r)%Q
    /\ (SearchResult.similarity_score r <= 1)%Q.
Proof.
  unfold SCPManager.scored_cases.
  set (cases := SCPManager.candidates m q).
  assert (Hm : forall g ys,
             mapM (fun case => SearchResult.new case (g case)) cases = Ok ys ->
             forall r, In r ys ->
               (0 <= SearchResult.similarity_score r)%Q
               /\ (SearchResult.similarity_score r <= 1)%Q).
  { intros g ys Hys. apply mapM_Forall2 in Hys.
    induction Hys as [|c r cs rs Hr _ IH]; intros r' Hr'; [contradiction|].
    destruct Hr' as [<-|Hr']; [|auto].
    apply new_score_in_unit in Hr as [_ [-> H]]. exact H. }
  destruct (SCPManager.search_engine m) as [v|s];
    [|apply (Hm (fun _ => 1%Q))].
  destruct (PyStr.truthy (CaseQuery.query q)); [|apply (Hm (fun _ => 1%Q))].
  destruct (VectorSearchEngine.search v _ _ _) as [vr|]; simpl; [|discriminate].
  destruct (mapM (fun case => SearchResult.new case (SCPManager.score_map_get _ _))
                 cases) as [ys|] eqn:Ey; simpl; [|discriminate].
  intros H. injection H as <-. intros r Hr. apply sort_desc_In in Hr.
  exact (Hm (fun case => SCPManager.score_map_get (SCPManager.score_map_of vr)
                           (SupportCase.case_id case)) ys Ey r Hr).
Qed.

(** X13.  An answer of [search_cases], with either engine: every result is
    a stored case that passes the query's filters, carries a score between 0
    and 1, and there are at most [limit] results (for a limit that is not
    negative, as the query model requires). *)
Theorem search_cases_answer_bounds
  (m : SCPManager.t) (q : CaseQuery.t) (rs : list SearchResult.t) :
  SCPManager.search_cases m q = Ok rs ->
  (forall r, In r rs ->
     In (SearchResult.case r) (SCPManager.candidates m q)
     /\ In (SearchResult.case r) (MemoryStore.get_all_cases (SCPManager.memory m))
     /\ (0 <= SearchResult.similarity_score r)%Q
     /\ (SearchResult.similarity_score r <= 1)%Q)
  /\ ((0 <= CaseQuery.limit q)%Z ->
      List.length rs <= Z.to_nat (CaseQuery.limit q)).
Proof.
  intros H. pose proof (search_cases_incl m q rs H) as Hincl.
  unfold SCPManager.search_cases in H.
  destruct (SCPManager.scored_cases m q) as [xs|] eqn:Ex; simpl in H;
    [|discriminate].
  injection H as <-. split.
  - intros r Hr.
    assert (Hc : In (SearchResult.case r) (SCPManager.candidates m q)).
    { apply Hincl. now apply in_map. }
    split; [exact Hc|]. split; [now apply (candidates_incl m q)|].
    apply (scored_cases_scores m q xs Ex). now apply slice_incl in Hr.
  - apply slice_length.
Qed.

Lemma search_cases_answer_bounds_witness :
  (0 <= 10)%Z
  /\ List.length
       (py_slice_to
          (map unscored
             (SCPManager.candidates (Fixtures.add_ABC Fixtures.simple_manager)
                (CaseQuery.of_str "database"))) 10%Z) <= Z.to_nat 10.
Proof.
  assert (H : (0 <= 10)%Z) by lia.
  split; [exact H|].
  exact (proj2 (search_cases_answer_bounds
                  (Fixtures.add_ABC Fixtures.simple_manager)
                  (CaseQuery.of_str "database") _ eq_refl) H).
Defined.

(** X14.  A query without text is never scored, with either engine: the
    answer is the candidates in store order, each with score 1.0, cut to the
    limit, and the embedding index is not consulted. *)
Theorem search_without_text_is_uniform (m : SCPManager.t) (q : CaseQuery.t) :
  CaseQuery.query q = EmptyString ->
  SCPManager.search_cases m q
  = Ok (py_slice_to (map unscored (SCPManager.candidates m q))
                    (CaseQuery.limit q)).
Proof.
  intros Hq. unfold SCPManager.search_cases, SCPManager.scored_cases.
  rewrite Hq. simpl PyStr.truthy.
  destruct (SCPManager.search_engine m); now rewrite mapM_unscored.
Qed.

Lemma search_without_text_is_uniform_witness :
  SCPManager.search_cases (Fixtures.add_ABC Fixtures.vector_manager)
    (CaseQuery.of_str EmptyString)
  = Ok (py_slice_to
          (map unscored
             (SCPManager.candidates (Fixtures.add_ABC Fixtures.vector_manager)
                (CaseQuery.of_str EmptyString))) 10%Z).
Proof.
  exact (search_without_text_is_uniform
           (Fixtures.add_ABC Fixtures.vector_manager)
           (CaseQuery.of_str EmptyString) eq_refl).
Defined.

Lemma mapM_total {A B : Type} (f : A -> result B) (l : list A) :
  (forall a, In a l -> exists b, f a = Ok b) -> exists bs, mapM f l = Ok bs.
Proof.
  induction l as [|a l IH]; simpl; intros H; [eauto|].
  destruct (H a (or_introl eq_refl)) as [b ->].
  destruct IH as [bs ->]; [intros; apply H; now right|]. simpl. eauto.
Qed.

(** The loop of [find_similar_cases] over the engine's answer: the pairs
    with the asked id and the pairs whose id the store does not hold are
    passed over, every other pair becomes a result with the stored case and
    the pair's score, which the constructor checks. *)
Lemma find_similar_loop (S : MemoryStore.t) (case_id : string)
  (hits : list (string * Q)) :
  let answered := fun hit : string * Q =>
    negb (String.eqb (fst hit) case_id)
    && match MemoryStore.get_case S (fst hit) with
       | Some _ => true
       | None => false
       end in
  (rs <- mapM (fun r =>
                 if negb (String.eqb (fst r) case_id) then
                   match MemoryStore.get_case S (fst r) with
                   | Some similar_case =>
                       x <- SearchResult.new similar_case (snd r) ;; Ok [x]
                   | None => Ok []
                   end
                 else Ok [])
              hits ;;
   Ok (List.concat rs))
  = if forallb (fun hit => in_range 0 1 (snd hit)) (filter answered hits)
    then Ok (flat_map
               (fun hit =>
                  if negb (String.eqb (fst hit) case_id) then
                    match MemoryStore.get_case S (fst hit) with
                    | Some similar_case =>
                        [SearchResult.mk similar_case (snd hit) []]
                    | None => []
                    end
                  else [])
               hits)
    else Raise ValidationError.
Proof.
  intros answered. induction hits as [|hit hits IH]; [reflexivity|].
  cbn [mapM filter flat_map]. unfold answered at 1.
  destruct (negb (String.eqb (fst hit) case_id)); cbn [andb bind].
  - destruct (MemoryStore.get_case S (fst hit)) as [sc|].
    + cbn [forallb]. unfold SearchResult.new.
      destruct (in_range 0 1 (snd hit)); cbn [bind andb]; [|reflexivity].
      destruct (mapM _ hits) as [parts|]; cbn [bind] in *.
      * destruct (forallb _ _); [|discriminate].
        injection IH as IH. cbn [List.concat]. now rewrite IH.
      * now destruct (forallb _ _).
    + cbn [bind]. destruct (mapM _ hits) as [parts|]; cbn [bind] in *.
      * destruct (forallb _ _); [|discriminate].
        injection IH as IH. cbn [List.concat app]. now rewrite IH.
      * now destruct (forallb _ _).
  - destruct (mapM _ hits) as [parts|]; cbn [bind] in *.
    + destruct (forallb _ _); [|discriminate].
      injection IH as IH. cbn [List.concat app]. now rewrite IH.
    + now destruct (forallb _ _).
Qed.

(** X15.  [find_similar_cases] of the orchestrator.  An unknown id gives
    the empty answer, not an error.  For a stored case the engine is asked
    once, and an error of the engine is the error of the call.  Of the pairs
    the engine answers, those with the asked id and those whose id the store
    does not hold are dropped, so an id the index still lists but the store
    no longer holds is not returned.  The results are the remaining pairs,
    one each and in the engine's order: the case is the one the store holds
    under the pair's id, the score is the pair's score, and no matched field
    is named.  When one of these scores is negative or exceeds 1 the call
    raises [ValidationError] instead.  With the lexical engine the call always
    answers. *)
Theorem find_similar_returns_stored_cases
  (m : SCPManager.t) (case_id : string) (limit : Z) (threshold : Q) :
  let answered := fun hit : string * Q =>
    negb (String.eqb (fst hit) case_id)
    && match SCPManager.get_case m (fst hit) with
       | Some _ => true
       | None => false
       end in
  let found := SCPManager.find_similar_cases m case_id limit threshold in
  (SCPManager.get_case m case_id = None -> found = Ok [])
  /\ (forall c,
        SCPManager.get_case m case_id = Some c ->
        (forall e,
           SCPManager.engine_find_similar_cases (SCPManager.search_engine m)
             c limit threshold = Raise e ->
           found = Raise e)
        /\ (forall hits,
              SCPManager.engine_find_similar_cases (SCPManager.search_engine m)
                c limit threshold = Ok hits ->
              let kept := filter answered hits in
              (forallb (fun hit => in_range 0 1 (snd hit)) kept = false ->
               found = Raise ValidationError)
              /\ (forallb (fun hit => in_range 0 1 (snd hit)) kept = true ->
                  exists rs,
                    found = Ok rs
                    /\ Forall2
                         (fun r hit =>
                            fst hit <> case_id
                            /\ SCPManager.get_case m (fst hit)
                               = Some (SearchResult.case r)
                            /\ SearchResult.similarity_score r = snd hit
                            /\ SearchResult.matched_fields r = [])
                         rs kept)))
  /\ (forall rs,
        found = Ok rs ->
        forall r, In r rs ->
          exists hit_id,
            hit_id <> case_id
            /\ SCPManager.get_case m hit_id = Some (SearchResult.case r))
  /\ (SCPManager.vector_search_enabled m = false -> exists rs, found = Ok rs).
Proof.
  intros answered found. unfold found, SCPManager.find_similar_cases.
  unfold SCPManager.get_case in *. split; [|split; [|split]].
  - now intros ->.
  - intros c ->. split; [now intros e ->|]. intros hits ->. cbn [bind].
    rewrite find_similar_loop. fold answered.
    split; [now intros ->|]. intros ->. eexists. split; [reflexivity|].
    clear. induction hits as [|hit hits IH]; [constructor|].
    cbn [flat_map filter]. unfold answered at 1.
    destruct (negb (String.eqb (fst hit) case_id)) eqn:Hne; cbn [andb];
      [|exact IH].
    destruct (MemoryStore.get_case (SCPManager.memory m) (fst hit)) as [sc|]
      eqn:Hg; [|exact IH].
    cbn [app]. constructor; [|exact IH]. cbn.
    split; [|now repeat split].
    intros E. rewrite E, String.eqb_refl in Hne. discriminate.
  - intros rs.
    destruct (MemoryStore.get_case (SCPManager.memory m) case_id) as [c|];
      [|intros H; injection H as <-; intros r []].
    destruct (SCPManager.engine_find_similar_cases _ _ _ _) as [sim|]; simpl;
      [|discriminate].
    destruct (mapM _ sim) as [parts|] eqn:Ep; simpl; [|discriminate].
    intros H. injection H as <-. apply mapM_Forall2 in Ep.
    intros r Hr. apply in_concat in Hr as [part [Hpart Hr]].
    induction Ep as [|a part' sims parts Ha _ IH]; [contradiction|].
    destruct Hpart as [->|Hpart]; [|auto].
    destruct (negb (String.eqb (fst a) case_id)) eqn:Hne;
      [|injection Ha as <-; contradiction].
    destruct (MemoryStore.get_case (SCPManager.memory m) (fst a)) as [sc|] eqn:Hg;
      [|injection Ha as <-; contradiction].
    destruct (SearchResult.new sc (snd a)) as [x|] eqn:Hx; simpl in Ha;
      [|discriminate].
    injection Ha as <-. destruct Hr as [<-|[]].
    apply new_score_in_unit in Hx as [-> _].
    exists (fst a). split; [|exact Hg].
    intros E. rewrite E, String.eqb_refl in Hne. discriminate.
  - unfold SCPManager.vector_search_enabled.
    destruct (SCPManager.search_engine m) as [v|s] eqn:Es; [discriminate|].
    intros _.
    destruct (MemoryStore.get_case (SCPManager.memory m) case_id) as [c|];
      [|eauto].
    simpl.
    destruct (mapM_total
                (fun r =>
                   if negb (String.eqb (fst r) case_id) then
                     match MemoryStore.get_case (SCPManager.memory m) (fst r) with
                     | Some similar_case =>
                         x <- SearchResult.new similar_case (snd r) ;; Ok [x]
                     | None => Ok []
                     end
                   else Ok [])
                (SimpleSearchEngine.find_similar_cases s c limit threshold))
      as [parts Hparts].
    + intros r Hr. destruct (negb _); [|eauto].
      destruct (MemoryStore.get_case _ _) as [sc|]; [|eauto].
      unfold SimpleSearchEngine.find_similar_cases in Hr.
      apply filter_In in Hr as [Hr _].
      apply simple_search_in_unit in Hr as [H0 H1].
      unfold SearchResult.new.
      assert (E : in_range 0 1 (snd r) = true) by now apply in_range_iff.
      rewrite E. simpl. eauto.
    + rewrite Hparts. simpl. eauto.
Qed.

(** ** The orchestrator: keeping the lexical engine in step *)

Lemma simple_fold_set (vs : list SupportCase.t) (acc : SimpleSearchEngine.t) :
  NoDup (map SupportCase.case_id vs) ->
  (forall c, In c vs -> ~ In (SupportCase.case_id c) (dict_keys acc)) ->
  fold_left (fun d case => dict_set d (SupportCase.case_id case) case) vs acc
  = acc ++ map (fun c => (SupportCase.case_id c, c)) vs.
Proof.
  revert acc. induction vs as [|c vs IH]; simpl; intros acc Hnd Hout.
  - now rewrite app_nil_r.
  - inversion Hnd as [|? ? Hc Hnd']; subst.
    rewrite dict_set_absent_app by (apply Hout; now left).
    rewrite IH; [now rewrite <- app_assoc | assumption |].
    intros c' Hc' Hin. unfold dict_keys in Hin. rewrite map_app in Hin.
    apply in_app_or in Hin as [Hin|[Hin|[]]].
    + apply (Hout c'); [now right | exact Hin].
    + simpl in Hin. apply Hc. rewrite Hin. now apply in_map.
Qed.

Lemma rebuild_index_of_store (s : MemoryStore.t) :
  store_wf s -> SimpleSearchEngine.rebuild_index (dict_values s) = s.
Proof.
  intros Hwf. unfold SimpleSearchEngine.rebuild_index.
  rewrite simple_fold_set.
  - simpl. destruct Hwf as [_ Hid]. unfold dict_values. rewrite map_map.
    rewrite <- (map_id s) at 2. apply map_ext_in.
    intros [k c] Hin. simpl. now rewrite (Hid k c Hin).
  - rewrite store_wf_ids by assumption. apply Hwf.
  - intros c _ [].
Qed.

Lemma add_case_in_sync (now : datetime) (m : SCPManager.t) (c : SupportCase.t) :
  lexical_in_sync m -> lexical_in_sync (SCPManager.add_case now m c).
Proof.
  unfold lexical_in_sync, SCPManager.add_case. intros H. simpl.
  rewrite H. reflexivity.
Qed.

Lemma delete_case_in_sync (m : SCPManager.t) (case_id : string) :
  lexical_in_sync m -> lexical_in_sync (fst (SCPManager.delete_case m case_id)).
Proof.
  unfold lexical_in_sync, SCPManager.delete_case, MemoryStore.delete_case.
  intros H. destruct (dict_mem (SCPManager.memory m) case_id) eqn:E; simpl.
  - rewrite H. simpl. unfold SimpleSearchEngine.remove_case. now rewrite E.
  - exact H.
Qed.

Lemma store_changed_in_sync (now : datetime) (m : SCPManager.t)
  (case_id : string) (c c0 : SupportCase.t) :
  lexical_in_sync m ->
  MemoryStore.get_case (SCPManager.memory m) case_id = Some c0 ->
  lexical_in_sync
    (SCPManager.store_changed now m case_id (SupportCase.set_updated_at c now)).
Proof.
  unfold lexical_in_sync, SCPManager.store_changed, MemoryStore.get_case.
  intros H Hg. cbn [SCPManager.memory SCPManager.search_engine].
  rewrite H. cbn [SCPManager.engine_changed_in_place].
  unfold dict_mem. rewrite Hg. reflexivity.
Qed.

Lemma update_case_in_sync (now : datetime) (m : SCPManager.t)
  (case_id : string) (u : CaseUpdate.t) :
  lexical_in_sync m ->
  lexical_in_sync (fst (SCPManager.update_case now m case_id u)).
Proof.
  unfold SCPManager.update_case. intros H.
  destruct (MemoryStore.get_case (SCPManager.memory m) case_id) eqn:Hg;
    [|exact H].
  cbn [fst]. now apply store_changed_in_sync with t.
Qed.

Lemma bulk_update_in_sync (clock : nat -> datetime)
  (mappings : list (string * list string)) :
  forall tick m n,
    lexical_in_sync m ->
    lexical_in_sync (fst (SCPManager.bulk_update_loop clock tick m mappings n)).
Proof.
  induction mappings as [|[id tags] mappings IH]; intros tick m n H;
    cbn [SCPManager.bulk_update_loop]; [exact H|].
  destruct (MemoryStore.get_case (SCPManager.memory m) id) eqn:Hg; apply IH;
    [|exact H].
  now apply store_changed_in_sync with t.
Qed.

(** X16.  With the lexical engine the index is the store: if the engine
    holds exactly the stored cases, it still does after [add_case],
    [delete_case], [update_case], [bulk_update_tags], and after an
    [import_data] that answers a count (the store's cases being filed under
    their own ids). *)
Theorem lexical_engine_stays_in_sync (m : SCPManager.t) :
  lexical_in_sync m ->
  (forall now c, lexical_in_sync (SCPManager.add_case now m c))
  /\ (forall case_id, lexical_in_sync (fst (SCPManager.delete_case m case_id)))
  /\ (forall now case_id u,
        lexical_in_sync (fst (SCPManager.update_case now m case_id u)))
  /\ (forall clock mappings,
        lexical_in_sync (fst (SCPManager.bulk_update_tags clock m mappings)))
  /\ (forall (fmt : DatetimeFormat) clock doc m' n,
        store_wf (SCPManager.memory m) ->
        SCPManager.import_data clock m doc = (m', Ok n) ->
        lexical_in_sync m').
Proof.
  intros H. split; [|split; [|split; [|split]]].
  - intros. now apply add_case_in_sync.
  - intros. now apply delete_case_in_sync.
  - intros. now apply update_case_in_sync.
  - intros. now apply bulk_update_in_sync.
  - intros fmt clock doc m' n Hwf. unfold SCPManager.import_data.
    pose proof (import_from_json_wf clock (SCPManager.memory m) doc Hwf)
      as [Hwf1 [Hlen _]].
    destruct (MemoryStore.import_from_json clock (SCPManager.memory m) doc)
      as [memory1 [k|e]]; simpl in *; [|discriminate].
    intros E. injection E as <- _.
    unfold SCPManager._sync_search_index, lexical_in_sync in *. simpl.
    destruct (MemoryStore.get_all_cases memory1) as [|c cs] eqn:Eall; simpl.
    + rewrite H. f_equal.
      unfold MemoryStore.get_all_cases, dict_values in Eall.
      apply map_eq_nil in Eall. subst memory1.
      destruct (SCPManager.memory m); [reflexivity | simpl in Hlen; lia].
    + rewrite H. simpl. f_equal. rewrite <- Eall.
      now apply rebuild_index_of_store.
Qed.

Lemma lexical_engine_stays_in_sync_witness :
  lexical_in_sync Fixtures.simple_manager
  /\ lexical_in_sync
       (fst (SCPManager.delete_case
               (SCPManager.add_case 1%Z Fixtures.simple_manager Fixtures.case_A)
               "A")).
Proof.
  assert (H0 : lexical_in_sync Fixtures.simple_manager) by reflexivity.
  assert (H1 : lexical_in_sync
                 (SCPManager.add_case 1%Z Fixtures.simple_manager Fixtures.case_A)).
  { exact (proj1 (lexical_engine_stays_in_sync Fixtures.simple_manager H0)
             1%Z Fixtures.case_A). }
  split; [exact H0|].
  exact (proj1 (proj2 (lexical_engine_stays_in_sync _ H1)) "A").
Defined.

(** ** The orchestrator: partial update and bulk tagging *)

Lemma restore_same_id (now : datetime) (s : MemoryStore.t) (id : string)
  (c c' : SupportCase.t) :
  store_wf s ->
  MemoryStore.get_case s id = Some c ->
  SupportCase.case_id c' = id ->
  let s' := MemoryStore.add_case now s c' in
  store_wf s'
  /\ MemoryStore.get_case s' id = Some (SupportCase.set_updated_at c' now)
  /\ dict_keys s' = dict_keys s
  /\ (forall other, other <> id ->
        MemoryStore.get_case s' other = MemoryStore.get_case s other).
Proof.
  intros Hwf Hg Hid s'. unfold s'. split; [now apply store_wf_add|].
  unfold MemoryStore.add_case, MemoryStore.get_case in *. rewrite Hid.
  split; [apply dict_get_set_same|]. split.
  - apply dict_keys_set_present. apply dict_get_In_keys. congruence.
  - intros other Ho. apply dict_get_set_other. congruence.
Qed.

Lemma store_changed_get (now : datetime) (m : SCPManager.t)
  (case_id : string) (c : SupportCase.t) :
  let m' := SCPManager.store_changed now m case_id
              (SupportCase.set_updated_at c now) in
  SCPManager.get_case m' case_id = Some (SupportCase.set_updated_at c now)
  /\ SCPManager.get_case m' (SupportCase.case_id c)
     = Some (SupportCase.set_updated_at c now).
Proof.
  unfold SCPManager.get_case, SCPManager.store_changed, MemoryStore.get_case,
    MemoryStore.add_case.
  cbn [SCPManager.memory SupportCase.set_updated_at SupportCase.case_id].
  split; [|apply dict_get_set_same].
  destruct (string_dec (SupportCase.case_id c) case_id) as [->|Hne].
  - apply dict_get_set_same.
  - rewrite dict_get_set_other by assumption. apply dict_get_set_same.
Qed.

Lemma omap_exact_strs (a b : list string) :
  omap exact_str (map PStr a ++ map PStr b) = Some (a ++ b).
Proof.
  induction a as [|x a IH]; simpl.
  - induction b as [|y b IHb]; simpl; [reflexivity | now rewrite IHb].
  - now rewrite IH.
Qed.

Lemma apply_update_dict_app (d1 d2 : list (string * pyval)) :
  forall c,
    SCPManager.apply_update_dict c (d1 ++ d2)
    = (c1 <~ SCPManager.apply_update_dict c d1 ;;
       SCPManager.apply_update_dict c1 d2).
Proof.
  induction d1 as [|[field value] d1 IH]; intros c; [reflexivity|].
  cbn [app SCPManager.apply_update_dict].
  destruct (PyStr.mem field SupportCase_fields).
  - destruct (PyStr.mem field _).
    + destruct value; try apply IH.
      destruct (SupportCase_setattr c field _); [apply IH | reflexivity].
    + destruct (SupportCase_setattr c field value); [apply IH | reflexivity].
  - destruct (SupportCase_other_attribute field); [reflexivity | apply IH].
Qed.

Ltac loop_step U :=
  match goal with
  | |- SCPManager.apply_update_dict ?c (entry ?n ?e ?o ++ ?rest) = _ =>
      rewrite (apply_update_dict_app (entry n e o) rest c);
      replace (SCPManager.apply_update_dict c (entry n e o))
        with (Some (SupportCase.apply_update c U));
      [ cbn [obind]
      | symmetry; destruct c;
        first
          [ destruct o as [[[]|]|]; reflexivity
          | destruct o as [[?|]|]; reflexivity
          | destruct o as [?|]; [|reflexivity];
            cbn; rewrite omap_exact_strs; reflexivity ] ]
  end.

(** An update object goes through the loop as the mapping of the fields it
    sets, and the embedding has a place for each of its values. *)
Lemma apply_update_dict_of_update (c : SupportCase.t) (u : CaseUpdate.t) :
  SCPManager.apply_update_dict c (CaseUpdate_dict u)
  = Some (SupportCase.apply_update c u).
Proof.
  destruct u as [o1 o2 o3 o4 o5 o6 o7 o8 o9 o10 o11].
  unfold CaseUpdate_dict.
  cbn [CaseUpdate.title CaseUpdate.status CaseUpdate.priority
       CaseUpdate.description CaseUpdate.solution CaseUpdate.workaround
       CaseUpdate.root_cause CaseUpdate.symptoms CaseUpdate.error_messages
       CaseUpdate.reproduction_steps CaseUpdate.notes].
  rewrite <- (app_nil_r (entry "notes" str_list o11)).
  loop_step (CaseUpdate.mk o1 None None None None None None None None None None).
  loop_step (CaseUpdate.mk None o2 None None None None None None None None None).
  loop_step (CaseUpdate.mk None None o3 None None None None None None None None).
  loop_step (CaseUpdate.mk None None None o4 None None None None None None None).
  loop_step (CaseUpdate.mk None None None None o5 None None None None None None).
  loop_step (CaseUpdate.mk None None None None None o6 None None None None None).
  loop_step (CaseUpdate.mk None None None None None None o7 None None None None).
  loop_step (CaseUpdate.mk None None None None None None None o8 None None None).
  loop_step (CaseUpdate.mk None None None None None None None None o9 None None).
  loop_step (CaseUpdate.mk None None None None None None None None None o10 None).
  loop_step (CaseUpdate.mk None None None None None None None None None None o11).
  cbn [SCPManager.apply_update_dict]. reflexivity.
Qed.

(** X17.  [update_case] with an update object, for a stored id.  The case
    returned is the one the store then holds under that id and under the
    id the case carries.  Each of the seven scalar fields the update sets
    is overwritten, also with [None] when the update sets it to [None];
    each of the four list fields is extended by the new entries rather than
    replaced; id, tags and creation time are kept and [updated_at] is the
    clock reading.  In a store whose cases are filed under their own ids
    the store stays so, no key is added and no other case is touched.  The
    update object is applied as the mapping of the fields it sets.  An
    unknown id gives [None] and changes nothing. *)
Theorem update_case_applies_update
  (now : datetime) (m : SCPManager.t) (case_id : string) (u : CaseUpdate.t)
  (c : SupportCase.t) :
  SCPManager.get_case m case_id = Some c ->
  let r := SCPManager.update_case now m case_id u in
  (exists c',
      snd r = Some c'
      /\ SCPManager.get_case (fst r) case_id = Some c'
      /\ SCPManager.get_case (fst r) (SupportCase.case_id c) = Some c'
      /\ SupportCase.case_id c' = SupportCase.case_id c
      /\ SupportCase.updated_at c' = now
      /\ SupportCase.created_at c' = SupportCase.created_at c
      /\ SupportCase.tags c' = SupportCase.tags c
      /\ SupportCase.title c'
         = match CaseUpdate.title u with
           | Some x => x
           | None => SupportCase.title c
           end
      /\ SupportCase.status c'
         = match CaseUpdate.status u with
           | Some x => x
           | None => SupportCase.status c
           end
      /\ SupportCase.priority c'
         = match CaseUpdate.priority u with
           | Some x => x
           | None => SupportCase.priority c
           end
      /\ SupportCase.description c'
         = match CaseUpdate.description u with
           | Some x => x
           | None => SupportCase.description c
           end
      /\ SupportCase.solution c'
         = match CaseUpdate.solution u with
           | Some x => x
           | None => SupportCase.solution c
           end
      /\ SupportCase.workaround c'
         = match CaseUpdate.workaround u with
           | Some x => x
           | None => SupportCase.workaround c
           end
      /\ SupportCase.root_cause c'
         = match CaseUpdate.root_cause u with
           | Some x => x
           | None => SupportCase.root_cause c
           end
      /\ SupportCase.symptoms c'
         = extended (SupportCase.symptoms c) (CaseUpdate.symptoms u)
      /\ SupportCase.error_messages c'
         = extended (SupportCase.error_messages c)
             (CaseUpdate.error_messages u)
      /\ SupportCase.reproduction_steps c'
         = extended (SupportCase.reproduction_steps c)
             (CaseUpdate.reproduction_steps u)
      /\ SupportCase.notes c'
         = extended (SupportCase.notes c) (CaseUpdate.notes u))
  /\ (store_wf (SCPManager.memory m) ->
      store_wf (SCPManager.memory (fst r))
      /\ dict_keys (SCPManager.memory (fst r)) = dict_keys (SCPManager.memory m)
      /\ forall other, other <> case_id ->
           SCPManager.get_case (fst r) other = SCPManager.get_case m other)
  /\ SCPManager.update_case_dict now m case_id (CaseUpdate_dict u) = Some r
  /\ (forall unknown,
        SCPManager.get_case m unknown = None ->
        SCPManager.update_case now m unknown u = (m, None)).
Proof.
  intros Hg r. unfold r, SCPManager.update_case, SCPManager.update_case_dict.
  unfold SCPManager.get_case in Hg. rewrite Hg.
  set (c' := SupportCase.set_updated_at (SupportCase.apply_update c u) now).
  cbn [fst snd]. split; [|split; [|split]].
  - exists c'.
    destruct (store_changed_get now m case_id (SupportCase.apply_update c u))
      as [G1 G2].
    fold c' in G1, G2. split; [reflexivity|]. split; [exact G1|].
    split; [exact G2|].
    unfold c', extended. destruct u; cbn. repeat split;
      match goal with
      | |- context [match ?x with _ => _ end] => now destruct x
      end.
  - intros Hwf.
    assert (Hid : SupportCase.case_id c = case_id).
    { apply (proj2 Hwf). now apply dict_get_In. }
    unfold SCPManager.get_case.
    rewrite store_changed_memory by exact Hid.
    destruct (restore_same_id now (SCPManager.memory m) case_id c c' Hwf Hg Hid)
      as [H0 [_ [H2 H3]]].
    split; [exact H0|]. split; [exact H2|]. exact H3.
  - now rewrite apply_update_dict_of_update.
  - intros unknown Hu. unfold SCPManager.get_case in Hu. now rewrite Hu.
Qed.

Lemma update_case_applies_update_witness :
  let u := CaseUpdate.mk (Some None) (Some (Some IN_PROGRESS)) None None
             (Some (Some "restart the pool")) None None (Some ["slow"]) None
             None None in
  exists c',
    snd (SCPManager.update_case 9%Z (Fixtures.add_ABC Fixtures.simple_manager)
           "A" u) = Some c'
    /\ SupportCase.title c' = None
    /\ SupportCase.status c' = Some IN_PROGRESS
    /\ SupportCase.solution c' = Some "restart the pool"
    /\ SupportCase.symptoms c' = ["slow"].
Proof.
  intros u.
  destruct (proj1 (update_case_applies_update 9%Z
                     (Fixtures.add_ABC Fixtures.simple_manager) "A" u
                     (SupportCase.set_updated_at Fixtures.case_A 1%Z) eq_refl))
    as (c' & H1 & _ & _ & _ & _ & _ & _ & Ht & Hs & _ & _ & Hso & _ & _ & Hsy & _).
  exists c'. split; [exact H1|]. split; [exact Ht|]. split; [exact Hs|].
  split; [exact Hso|]. exact Hsy.
Defined.

Lemma count_names_filter_other (name other : string) (ts : list CaseTag.t) :
  name <> other ->
  count_occ string_dec (map CaseTag.name (filter (other_name other) ts)) name
  = count_occ string_dec (map CaseTag.name ts) name.
Proof.
  intros Hne. induction ts as [|t ts IH]; simpl; [reflexivity|].
  unfold other_name at 1.
  destruct (String.eqb (CaseTag.name t) other) eqn:E; simpl.
  - apply String.eqb_eq in E.
    destruct (string_dec (CaseTag.name t) name); [congruence | exact IH].
  - destruct (string_dec (CaseTag.name t) name); now rewrite IH.
Qed.

Lemma bulk_add_tag_count (c : SupportCase.t) (name other : string) :
  count_occ string_dec
    (tag_names (fst (SupportCase.add_tag c other 1%Q "bulk_update"))) name
  = if String.eqb other name then 1
    else count_occ string_dec (tag_names c) name.
Proof.
  unfold tag_names. rewrite add_tag_tags. simpl. rewrite map_app, count_occ_app.
  simpl. destruct (String.eqb other name) eqn:E.
  - apply String.eqb_eq in E. subst other.
    rewrite count_occ_names_filter_other.
    destruct (string_dec name name); [reflexivity | contradiction].
  - assert (Hne : name <> other).
    { intros ->. rewrite String.eqb_refl in E. discriminate. }
    rewrite count_names_filter_other by assumption.
    destruct (string_dec other name); [congruence | lia].
Qed.

Lemma add_tag_names_count (tags : list string) (c : SupportCase.t)
  (name : string) :
  count_occ string_dec (tag_names (SCPManager.add_tag_names c tags)) name
  = if PyStr.mem name tags then 1
    else count_occ string_dec (tag_names c) name.
Proof.
  unfold SCPManager.add_tag_names. revert c.
  induction tags as [|t tags IH]; intros c; cbn [fold_left PyStr.mem existsb];
    [reflexivity|].
  rewrite IH, bulk_add_tag_count. fold (PyStr.mem name tags).
  rewrite (String.eqb_sym name t).
  destruct (PyStr.mem name tags); simpl; [now rewrite orb_true_r|].
  now rewrite orb_false_r.
Qed.

Lemma dict_mem_keys {V : Type} (d d' : list (string * V)) (k : string) :
  dict_keys d = dict_keys d' -> dict_mem d k = dict_mem d' k.
Proof.
  intros H. unfold dict_mem.
  pose proof (dict_get_In_keys d k) as H1.
  pose proof (dict_get_In_keys d' k) as H2. rewrite H in H1.
  destruct (dict_get d k), (dict_get d' k); try reflexivity; exfalso.
  - apply (proj1 H2); [|reflexivity]. apply H1. discriminate.
  - apply (proj1 H1); [|reflexivity]. apply H2. discriminate.
Qed.

Lemma bulk_update_loop_facts (clock : nat -> datetime)
  (mappings : list (string * list string)) :
  forall tick m n,
    store_wf (SCPManager.memory m) ->
    let r := SCPManager.bulk_update_loop clock tick m mappings n in
    store_wf (SCPManager.memory (fst r))
    /\ snd r
       = n + List.length
               (filter (fun entry => dict_mem (SCPManager.memory m) (fst entry))
                       mappings)
    /\ dict_keys (SCPManager.memory (fst r)) = dict_keys (SCPManager.memory m)
    /\ (forall id, ~ In id (map fst mappings) ->
          SCPManager.get_case (fst r) id = SCPManager.get_case m id)
    /\ (NoDup (map fst mappings) ->
        forall id tags c,
          In (id, tags) mappings ->
          SCPManager.get_case m id = Some c ->
          exists t,
            SCPManager.get_case (fst r) id
            = Some (SupportCase.set_updated_at
                      (SCPManager.add_tag_names c tags) t)).
Proof.
  induction mappings as [|[id tags] mappings IH]; intros tick m n Hwf;
    cbn [SCPManager.bulk_update_loop].
  - simpl. repeat split; auto; try apply Hwf; try lia;
      try (intros _ ? ? ? []).
  - unfold SCPManager.get_case in *. cbn [filter fst].
    destruct (MemoryStore.get_case (SCPManager.memory m) id) as [c|] eqn:Hg.
    + assert (Hid : SupportCase.case_id c = id).
      { apply (proj2 Hwf). now apply dict_get_In. }
      set (c' := SupportCase.set_updated_at
                   (SCPManager.add_tag_names c tags) (clock tick)).
      assert (Hid' : SupportCase.case_id c' = id).
      { unfold c'. simpl. now rewrite add_tag_names_keeps_id. }
      destruct (restore_same_id (clock tick) (SCPManager.memory m) id c c'
                  Hwf Hg Hid') as [Hwf1 [H1 [H2 H3]]].
      set (m1 := SCPManager.store_changed (clock tick) m id c').
      assert (Hm1 : SCPManager.memory m1
                    = MemoryStore.add_case (clock tick) (SCPManager.memory m) c').
      { apply store_changed_memory. exact Hid'. }
      rewrite <- Hm1 in Hwf1, H1, H2, H3.
      destruct (IH (S tick) m1 (n + 1) Hwf1) as [I1 [I2 [I3 [I4 I5]]]].
      assert (Hmem : dict_mem (SCPManager.memory m) id = true).
      { unfold dict_mem. unfold MemoryStore.get_case in Hg. now rewrite Hg. }
      rewrite Hmem. cbn [List.length].
      split; [exact I1|]. split; [|split; [|split]].
      * rewrite I2.
        rewrite (filter_ext _
                   (fun entry => dict_mem (SCPManager.memory m) (fst entry))).
        -- lia.
        -- intros entry. now apply dict_mem_keys.
      * rewrite I3. exact H2.
      * intros id' Hout. simpl in Hout. rewrite I4 by tauto.
        apply H3. intros ->. tauto.
      * intros Hnd id' tags' c0 Hin Hg0.
        simpl in Hnd. apply NoDup_cons_iff in Hnd as [Hout Hnd'].
        destruct Hin as [Hin|Hin].
        -- injection Hin as <- <-. exists (clock tick).
           rewrite I4 by assumption.
           unfold MemoryStore.get_case in Hg0, Hg. rewrite Hg in Hg0.
           injection Hg0 as <-. exact H1.
        -- assert (Hne : id' <> id).
           { intros ->. apply Hout. apply in_map_iff. now exists (id, tags'). }
           apply (I5 Hnd' id' tags' c0 Hin).
           rewrite H3 by assumption. exact Hg0.
    + assert (Hmem : dict_mem (SCPManager.memory m) id = false).
      { unfold dict_mem. unfold MemoryStore.get_case in Hg. now rewrite Hg. }
      rewrite Hmem.
      destruct (IH (S tick) m n Hwf) as [I1 [I2 [I3 [I4 I5]]]].
      split; [exact I1|]. split; [exact I2|]. split; [exact I3|]. split.
      * intros id' Hout. apply I4. simpl in Hout. tauto.
      * intros Hnd id' tags' c0 Hin Hg0.
        simpl in Hnd. apply NoDup_cons_iff in Hnd as [Hout Hnd'].
        destruct Hin as [Hin|Hin]; [|now apply (I5 Hnd' id' tags' c0)].
        injection Hin as <- <-. unfold MemoryStore.get_case in Hg0, Hg.
        congruence.
Qed.

(** X18.  [bulk_update_tags] on a mapping (its keys distinct, as in a dict)
    over a store whose cases are filed under their own ids: the count
    returned is the number of mapping ids the store holds, ids it does not
    hold are passed over without an error, no key is added or removed and
    cases the mapping does not name are untouched; a case it names then
    holds every listed tag name exactly once and every other name as often
    as before. *)
Theorem bulk_update_tags_counts_and_tags
  (clock : nat -> datetime) (m : SCPManager.t)
  (mappings : list (string * list string)) :
  store_wf (SCPManager.memory m) ->
  NoDup (map fst mappings) ->
  let r := SCPManager.bulk_update_tags clock m mappings in
  snd r
  = List.length
      (filter (fun entry =>
                 MemoryStore.case_exists (SCPManager.memory m) (fst entry))
              mappings)
  /\ store_wf (SCPManager.memory (fst r))
  /\ dict_keys (SCPManager.memory (fst r)) = dict_keys (SCPManager.memory m)
  /\ (forall id, ~ In id (map fst mappings) ->
        SCPManager.get_case (fst r) id = SCPManager.get_case m id)
  /\ (forall id tags c,
        In (id, tags) mappings ->
        SCPManager.get_case m id = Some c ->
        exists c',
          SCPManager.get_case (fst r) id = Some c'
          /\ forall name,
               count_occ string_dec (tag_names c') name
               = if PyStr.mem name tags then 1
                 else count_occ string_dec (tag_names c) name).
Proof.
  intros Hwf Hnd r. unfold r, SCPManager.bulk_update_tags.
  destruct (bulk_update_loop_facts clock mappings 0 m 0 Hwf)
    as [H1 [H2 [H3 [H4 H5]]]].
  split; [exact H2|]. split; [exact H1|]. split; [exact H3|].
  split; [exact H4|].
  intros id tags c Hin Hg. destruct (H5 Hnd id tags c Hin Hg) as [t Ht].
  eexists. split; [exact Ht|].
  intros name. unfold tag_names at 1. simpl SupportCase.tags.
  apply add_tag_names_count.
Qed.

Lemma bulk_update_tags_counts_and_tags_witness :
  store_wf (SCPManager.memory (Fixtures.add_ABC Fixtures.simple_manager))
  /\ NoDup (map fst [("A", ["db"; "db"]); ("Z", ["x"])])
  /\ snd (SCPManager.bulk_update_tags (fun i => Z.of_nat i)
            (Fixtures.add_ABC Fixtures.simple_manager)
            [("A", ["db"; "db"]); ("Z", ["x"])])
     = List.length
         (filter (fun entry =>
                    MemoryStore.case_exists
                      (SCPManager.memory
                         (Fixtures.add_ABC Fixtures.simple_manager))
                      (fst entry))
                 [("A", ["db"; "db"]); ("Z", ["x"])]).
Proof.
  assert (Hwf : store_wf
                  (SCPManager.memory (Fixtures.add_ABC Fixtures.simple_manager))).
  { unfold Fixtures.add_ABC. simpl SCPManager.memory.
    repeat apply store_wf_add. apply store_wf_empty. }
  assert (Hnd : NoDup (map fst [("A", ["db"; "db"]); ("Z", ["x"])])).
  { simpl. repeat constructor; simpl; intuition discriminate. }
  split; [exact Hwf|]. split; [exact Hnd|].
  exact (proj1 (bulk_update_tags_counts_and_tags (fun i => Z.of_nat i)
                  (Fixtures.add_ABC Fixtures.simple_manager)
                  [("A", ["db"; "db"]); ("Z", ["x"])] Hwf Hnd)).
Defined.

(** ** The case model: flags and text *)

Lemma EscalationFlag_eqb_eq (a b : EscalationFlag) :
  SupportCase.EscalationFlag_eqb a b = true <-> a = b.
Proof.
  destruct a, b; split; intros H; try reflexivity; try discriminate;
    vm_compute in H; discriminate.
Qed.

Lemma existsb_flag (x : EscalationFlag) (l : list EscalationFlag) :
  existsb (SupportCase.EscalationFlag_eqb x) l = true <-> In x l.
Proof.
  rewrite existsb_exists. split.
  - intros [y [Hy He]]. apply EscalationFlag_eqb_eq in He. now subst.
  - intros H. exists x. split; [assumption | now apply EscalationFlag_eqb_eq].
Qed.

(** X19.  [add_escalation_flag] never stores a flag twice: afterwards the
    flag is present, flags that were distinct stay distinct, the flags
    already there keep their order, and adding the same flag again changes
    nothing. *)
Theorem add_escalation_flag_is_idempotent
  (c : SupportCase.t) (flag : EscalationFlag) :
  let c' := SupportCase.add_escalation_flag c flag in
  In flag (SupportCase.escalation_flags c')
  /\ (NoDup (SupportCase.escalation_flags c) ->
      NoDup (SupportCase.escalation_flags c'))
  /\ (exists added,
         SupportCase.escalation_flags c'
         = SupportCase.escalation_flags c ++ added
         /\ (added = [] \/ added = [flag]))
  /\ SupportCase.add_escalation_flag c' flag = c'.
Proof.
  intros c'. unfold c', SupportCase.add_escalation_flag.
  destruct (existsb _ (SupportCase.escalation_flags c)) eqn:E.
  - rewrite E. apply existsb_flag in E.
    repeat split; auto. exists []. rewrite app_nil_r. auto.
  - assert (Hout : ~ In flag (SupportCase.escalation_flags c)).
    { intros H. apply existsb_flag in H. congruence. }
    simpl. split; [apply in_or_app; right; now left|]. split; [|split].
    + intros Hnd. apply NoDup_app; [assumption | repeat constructor; simpl; tauto|].
      intros x Hx [<-|[]]. contradiction.
    + exists [flag]. auto.
    + assert (E' : existsb (SupportCase.EscalationFlag_eqb flag)
                     (SupportCase.escalation_flags c ++ [flag]) = true).
      { apply existsb_flag. apply in_or_app. right. now left. }
      now rewrite E'.
Qed.

Lemma prefix_app_l (n h t : string) :
  prefix n h = true -> prefix n (h ++ t)%string = true.
Proof.
  revert h. induction n as [|a n IH]; intros h H;
    [now destruct (h ++ t)%string|].
  destruct h as [|b h]; simpl in *; [discriminate|].
  destruct (ascii_dec a b); [auto | discriminate].
Qed.

Lemma contains_cons (n : string) (b : ascii) (h : string) :
  PyStr.contains n (String b h)
  = if prefix n (String b h) then true else PyStr.contains n h.
Proof. reflexivity. Qed.

Lemma contains_app_l (n h t : string) :
  PyStr.contains n h = true -> PyStr.contains n (h ++ t)%string = true.
Proof.
  induction h as [|b h IH].
  - destruct n as [|a n]; simpl; [|discriminate].
    intros _. now destruct t.
  - change (String b h ++ t)%string with (String b (h ++ t)%string).
    rewrite !contains_cons.
    destruct (prefix n (String b h)) eqn:E.
    + intros _. pose proof (prefix_app_l _ _ t E) as P.
      change (String b h ++ t)%string with (String b (h ++ t)%string) in P.
      now rewrite P.
    + intros H.
      destruct (prefix n (String b (h ++ t))); [reflexivity | now apply IH].
Qed.

Lemma lower_app (a b : string) :
  PyStr.lower (a ++ b) = (PyStr.lower a ++ PyStr.lower b)%string.
Proof. induction a as [|x a IH]; simpl; [reflexivity | now rewrite IH]. Qed.

Lemma string_app_nil_r (s : string) : (s ++ EmptyString)%string = s.
Proof. induction s as [|a s IH]; simpl; [reflexivity | now rewrite IH]. Qed.

Lemma join_head (x : string) (l : list string) :
  exists rest, PyStr.join " " (x :: l) = (x ++ rest)%string.
Proof.
  destruct l as [|p l'].
  - exists EmptyString. simpl. now rewrite string_app_nil_r.
  - exists (" " ++ PyStr.join " " (p :: l'))%string. reflexivity.
Qed.

Lemma text_starts_with_title (c : SupportCase.t) (title : string) :
  SupportCase.title c = Some title ->
  title <> EmptyString ->
  exists rest,
    SupportCase.get_text_content c = (title ++ rest)%string.
Proof.
  intros E Ht. unfold SupportCase.get_text_content. rewrite E.
  cbn [app SupportCase.filter_none flat_map SupportCase.truthy_part].
  destruct title as [|a t]; [contradiction|].
  cbn [PyStr.truthy app]. apply join_head.
Qed.

(** X20.  A stored case is found by the store's text search whenever the
    query occurs in its title, letter case aside. *)
Theorem title_match_is_found
  (s : MemoryStore.t) (query title : string) (c : SupportCase.t) :
  In c (MemoryStore.get_all_cases s) ->
  SupportCase.title c = Some title ->
  PyStr.contains (PyStr.lower query) (PyStr.lower title) = true ->
  In c (MemoryStore.search_cases s query None None None).
Proof.
  intros Hin Htitle Hq. unfold MemoryStore.search_cases.
  simpl MemoryStore.given.
  destruct (PyStr.truthy query) eqn:Et; [|exact Hin].
  apply filter_In. split; [exact Hin|].
  destruct (string_dec title EmptyString) as [E|E].
  - rewrite E in Hq. simpl in Hq.
    destruct (PyStr.lower query) eqn:El; [|discriminate].
    now destruct (PyStr.lower (SupportCase.get_text_content c)).
  - destruct (text_starts_with_title c title Htitle E) as [rest ->].
    rewrite lower_app. now apply contains_app_l.
Qed.

Lemma title_match_is_found_witness :
  In (SupportCase.set_updated_at Fixtures.case_C 3%Z)
     (MemoryStore.search_cases
        (SCPManager.memory (Fixtures.add_ABC Fixtures.simple_manager))
        "Connection POOL" None None None).
Proof.
  apply (title_match_is_found _ _ "database connection pool exhausted");
    [|reflexivity|reflexivity].
  simpl. tauto.
Defined.

(** ** The parser's normalising helpers *)

Lemma lower_ascii_idem (a : ascii) :
  PyStr.lower_ascii (PyStr.lower_ascii a) = PyStr.lower_ascii a.
Proof. destruct a as [[] [] [] [] [] [] [] []]; reflexivity. Qed.

Lemma lower_idem (s : string) : PyStr.lower (PyStr.lower s) = PyStr.lower s.
Proof.
  induction s as [|a s IH]; simpl; [reflexivity|].
  now rewrite lower_ascii_idem, IH.
Qed.

Lemma replace_space_idem (s : string) :
  ICMParser.replace_space (ICMParser.replace_space s) = ICMParser.replace_space s.
Proof.
  induction s as [|a s IH]; simpl; [reflexivity|]. rewrite IH. f_equal.
  destruct (Ascii.eqb a " ") eqn:E; [reflexivity | now rewrite E].
Qed.

Lemma lower_replace_space (s : string) :
  PyStr.lower (ICMParser.replace_space s)
  = ICMParser.replace_space (PyStr.lower s).
Proof.
  induction s as [|a s IH]; simpl; [reflexivity|]. rewrite IH. f_equal.
  destruct a as [[] [] [] [] [] [] [] []]; reflexivity.
Qed.

(** X21.  [_normalize_status] reads a status back from its value, ignores
    letter case, takes a space for an underscore, and answers [OPEN] for
    every text that does not then spell a status value. *)
Theorem normalize_status_reads_values :
  (forall st, ICMParser._normalize_status (PStr (Status_value st)) = st)
  /\ (forall s,
        ICMParser._normalize_status (PStr (PyStr.lower s))
        = ICMParser._normalize_status (PStr s))
  /\ (forall s,
        ICMParser._normalize_status (PStr (ICMParser.replace_space s))
        = ICMParser._normalize_status (PStr s))
  /\ (forall s,
        (forall st, ICMParser.replace_space (PyStr.lower s) <> Status_value st) ->
        ICMParser._normalize_status (PStr s) = OPEN).
Proof.
  split; [intros []; reflexivity|]. split; [|split].
  - intros s. unfold ICMParser._normalize_status. now rewrite lower_idem.
  - intros s. unfold ICMParser._normalize_status.
    now rewrite lower_replace_space, replace_space_idem.
  - intros s H. unfold ICMParser._normalize_status. cbv zeta.
    destruct (Status_of_value _) as [st|] eqn:E; [|reflexivity].
    apply find_some in E as [_ E]. apply String.eqb_eq in E.
    now destruct (H st).
Qed.

(** X22.  [_normalize_priority] reads a priority back from its value,
    ignores letter case, and answers [MEDIUM] for every text that is not one
    of its ten spellings. *)
Theorem normalize_priority_reads_values :
  (forall p, ICMParser._normalize_priority (PStr (Priority_value p)) = p)
  /\ (forall s,
        ICMParser._normalize_priority (PStr (PyStr.lower s))
        = ICMParser._normalize_priority (PStr s))
  /\ (forall s,
        PyStr.mem (PyStr.lower s)
          ["critical"; "crit"; "1"; "high"; "2"; "medium"; "med"; "3"; "low"; "4"]
        = false ->
        ICMParser._normalize_priority (PStr s) = MEDIUM)
  /\ (forall s p,
        ICMParser._normalize_priority (PStr s) = p -> p <> MEDIUM ->
        exists alias,
          PyStr.lower s = alias
          /\ In (alias, p)
               [("critical", CRITICAL); ("crit", CRITICAL); ("1", CRITICAL);
                ("high", HIGH); ("2", HIGH); ("low", LOW); ("4", LOW)]).
Proof.
  split; [intros []; reflexivity|]. split; [|split].
  - intros s. unfold ICMParser._normalize_priority. now rewrite lower_idem.
  - intros s. unfold ICMParser._normalize_priority, PyStr.mem. cbn [existsb].
    generalize (PyStr.lower s). intros x H.
    repeat (apply orb_false_elim in H as [?E H]).
    repeat match goal with
    | E : String.eqb _ _ = false |- _ => rewrite E; clear E
    end.
    reflexivity.
  - intros s p. unfold ICMParser._normalize_priority, PyStr.mem. cbn [existsb].
    generalize (PyStr.lower s). intros x.
    repeat match goal with
    | |- context [String.eqb x ?v] =>
        let E := fresh "E" in
        destruct (String.eqb x v) eqn:E;
        [apply String.eqb_eq in E; subst x; cbn|]
    end; intros <- Hp; try (now destruct Hp);
      eexists; (split; [reflexivity|]); simpl; tauto.
Qed.

(** ** The parser's keyword tables *)

Lemma string_app_assoc (a b c : string) :
  ((a ++ b) ++ c)%string = (a ++ b ++ c)%string.
Proof. induction a as [|x a IH]; simpl; [reflexivity | now rewrite IH]. Qed.

Lemma prefix_iff (n h : string) :
  prefix n h = true <-> exists b, h = (n ++ b)%string.
Proof.
  revert h. induction n as [|a n IH]; intros h.
  - split; [intros _; now exists h | intros _; now destruct h].
  - destruct h as [|c h]; simpl.
    + split; [discriminate | intros [b H]; discriminate].
    + destruct (ascii_dec a c) as [->|Hne].
      * rewrite IH. split; intros [b H]; exists b; congruence.
      * split; [discriminate | intros [b H]; congruence].
Qed.

Lemma contains_prefix (n h : string) :
  prefix n h = true -> PyStr.contains n h = true.
Proof. intros H. destruct h; simpl in *; now rewrite H. Qed.

Lemma contains_app_r (n p h : string) :
  PyStr.contains n h = true -> PyStr.contains n (p ++ h)%string = true.
Proof.
  intros H. induction p as [|c p IH]; [exact H|].
  change (String c p ++ h)%string with (String c (p ++ h)%string).
  rewrite contains_cons. now destruct (prefix n _).
Qed.

Lemma contains_iff (n h : string) :
  PyStr.contains n h = true <-> exists a b, h = (a ++ n ++ b)%string.
Proof.
  split.
  - induction h as [|c h IH].
    + destruct n as [|x n]; simpl; [|discriminate].
      intros _. now exists EmptyString, EmptyString.
    + rewrite contains_cons. destruct (prefix n (String c h)) eqn:E.
      * intros _. apply prefix_iff in E as [b E]. now exists EmptyString, b.
      * intros H. destruct (IH H) as [a [b ->]]. now exists (String c a), b.
  - intros [a [b ->]]. apply contains_app_r, contains_prefix, prefix_iff.
    now exists b.
Qed.

Lemma contains_trans (a b t : string) :
  PyStr.contains a b = true -> PyStr.contains b t = true ->
  PyStr.contains a t = true.
Proof.
  rewrite !contains_iff. intros [x [y ->]] [u [v ->]].
  exists (u ++ x)%string, (y ++ v)%string.
  now rewrite !string_app_assoc.
Qed.

Lemma contains_within (n pre t post : string) :
  PyStr.contains n (PyStr.lower t) = true ->
  PyStr.contains n (PyStr.lower (pre ++ t ++ post)) = true.
Proof.
  intros H. rewrite !lower_app. now apply contains_app_r, contains_app_l.
Qed.

Lemma existsb_within (keywords : list string) (pre t post : string) :
  existsb (fun keyword => PyStr.contains keyword (PyStr.lower t)) keywords = true ->
  existsb (fun keyword =>
             PyStr.contains keyword (PyStr.lower (pre ++ t ++ post)))
          keywords = true.
Proof.
  rewrite !existsb_exists. intros [k [Hk H]]. exists k.
  split; [exact Hk | now apply contains_within].
Qed.

Lemma matches_in_pos (text_lower : string) (keywords : list string) :
  (0 <? ICMParser.matches_in text_lower keywords)
  = existsb (fun keyword => PyStr.contains keyword text_lower) keywords.
Proof.
  unfold ICMParser.matches_in.
  induction keywords as [|k ks IH]; [reflexivity|]. simpl.
  destruct (PyStr.contains k text_lower); [reflexivity | exact IH].
Qed.

Lemma filter_keeps_distinct_keys {K V : Type}
  (keep : K * V -> bool) (rows : list (K * V)) :
  NoDup (map fst rows) -> NoDup (map fst (filter keep rows)).
Proof.
  induction rows as [|row rows IH]; simpl; [auto|]. intros H.
  apply NoDup_cons_iff in H as [Hout Hnd].
  destruct (keep row); simpl; [|auto]. constructor; [|auto].
  intros Hin. apply Hout. apply in_map_iff in Hin as [x [<- Hx]].
  apply filter_In in Hx as [Hx _]. now apply in_map.
Qed.

Lemma incl_map_filter {A B : Type} (f : A -> B) (p q : A -> bool) (l : list A) :
  (forall a, p a = true -> q a = true) ->
  incl (map f (filter p l)) (map f (filter q l)).
Proof.
  intros H b Hb. apply in_map_iff in Hb as [a [<- Ha]].
  apply filter_In in Ha as [Ha Hp]. apply in_map, filter_In. auto.
Qed.

Lemma tag_for_shape (text_lower : string) (row : string * list string) :
  exists tags,
    ICMParser.tag_for text_lower row = Ok tags
    /\ map CaseTag.name tags
       = (if existsb (fun keyword => PyStr.contains keyword text_lower) (snd row)
          then [fst row] else [])
    /\ Forall (fun tag =>
                 CaseTag.source tag = "auto_parser"
                 /\ (2 # 10 <= CaseTag.confidence tag)%Q
                 /\ (CaseTag.confidence tag <= 1)%Q) tags.
Proof.
  unfold ICMParser.tag_for. cbv zeta. rewrite matches_in_pos.
  destruct (existsb _ (snd row)) eqn:E; [|now exists []].
  rewrite <- matches_in_pos in E. apply Nat.ltb_lt in E.
  set (m := ICMParser.matches_in text_lower (snd row)) in *.
  set (c := Qmult (2 # 10) (inject_Z (Z.of_nat m))).
  assert (Hc : (2 # 10 <= c)%Q).
  { unfold c, Qle, Qmult, inject_Z. cbn [Qnum Qden]. rewrite Pos.mul_1_r. lia. }
  set (c' := if Qle_bool c 1 then c else 1%Q).
  assert (Hc' : (2 # 10 <= c')%Q /\ (c' <= 1)%Q).
  { unfold c'. destruct (Qle_bool c 1) eqn:E1.
    - split; [exact Hc | now apply Qle_bool_iff].
    - split; [unfold Qle; simpl; lia | apply Qle_refl]. }
  unfold CaseTag.new.
  assert (Hr : in_range 0 1 c' = true).
  { apply in_range_iff. split; [|tauto].
    apply Qle_trans with (2 # 10)%Q; [unfold Qle; simpl; lia | tauto]. }
  rewrite Hr. simpl. eexists. split; [reflexivity|]. split; [reflexivity|].
  constructor; [|constructor]. simpl. tauto.
Qed.

Lemma generate_rows (text_lower : string) (rows : list (string * list string)) :
  exists tagss,
    mapM (ICMParser.tag_for text_lower) rows = Ok tagss
    /\ map CaseTag.name (List.concat tagss)
       = map fst
           (filter (fun row =>
                      existsb (fun keyword => PyStr.contains keyword text_lower)
                              (snd row))
                   rows)
    /\ Forall (fun tag =>
                 CaseTag.source tag = "auto_parser"
                 /\ (2 # 10 <= CaseTag.confidence tag)%Q
                 /\ (CaseTag.confidence tag <= 1)%Q) (List.concat tagss).
Proof.
  induction rows as [|row rows IH]; [exists []; simpl; auto|].
  destruct IH as [tagss [H1 [H2 H3]]].
  destruct (tag_for_shape text_lower row) as [tags [T1 [T2 T3]]].
  exists (tags :: tagss). cbn [mapM]. rewrite T1, H1. simpl.
  split; [reflexivity|]. split.
  - rewrite map_app, T2, H2. now destruct (existsb _ (snd row)).
  - apply Forall_app. auto.
Qed.

(** X23.  [_generate_tags] never raises.  It answers one tag for each row of
    the keyword table that has a keyword in the lowered text, in table
    order, so no name comes twice; every tag has the source [auto_parser]
    and a confidence between 0.2 and 1; and text around a text takes no tag
    away. *)
Theorem generate_tags_answers (text : string) :
  exists tags,
    ICMParser._generate_tags text = Ok tags
    /\ map CaseTag.name tags
       = map fst
           (filter (fun row =>
                      existsb (fun keyword =>
                                 PyStr.contains keyword (PyStr.lower text))
                              (snd row))
                   ICMParser.TAG_KEYWORDS)
    /\ NoDup (map CaseTag.name tags)
    /\ Forall (fun tag =>
                 CaseTag.source tag = "auto_parser"
                 /\ (2 # 10 <= CaseTag.confidence tag)%Q
                 /\ (CaseTag.confidence tag <= 1)%Q) tags
    /\ (forall pre post tags',
          ICMParser._generate_tags (pre ++ text ++ post) = Ok tags' ->
          incl (map CaseTag.name tags) (map CaseTag.name tags')).
Proof.
  unfold ICMParser._generate_tags. cbv zeta.
  destruct (generate_rows (PyStr.lower text) ICMParser.TAG_KEYWORDS)
    as [tagss [H1 [H2 H3]]].
  exists (List.concat tagss). rewrite H1. split; [reflexivity|].
  split; [exact H2|]. split; [|split; [exact H3|]].
  - rewrite H2. apply filter_keeps_distinct_keys.
    repeat (constructor; [simpl; intuition discriminate|]). constructor.
  - intros pre post tags'.
    destruct (generate_rows (PyStr.lower (pre ++ text ++ post))
                ICMParser.TAG_KEYWORDS) as [tagss' [G1 [G2 _]]].
    rewrite G1. simpl. intros E. injection E as <-.
    rewrite H2, G2. apply incl_map_filter.
    intros row. apply existsb_within.
Qed.

(** X24.  [_detect_escalation_flags] answers the flags of the table rows
    that have a keyword in the lowered text, each once and in table order:
    the answer is the list [EPS_CRITICAL], [EPS_HIGH], [BRANDON_FLAG],
    [CUSTOMER_ESCALATION], [MEDIA_ATTENTION] restricted to the flags it
    holds; text around a text takes no flag away; and since one keyword can lie
    inside another, [business critical] also raises [EPS_CRITICAL] and
    [customer escalation] also raises [BRANDON_FLAG]. *)
Theorem detect_escalation_flags_answers (text : string) :
  let flags := ICMParser._detect_escalation_flags text in
  NoDup flags
  /\ flags
     = filter (fun flag => existsb (SupportCase.EscalationFlag_eqb flag) flags)
         [EPS_CRITICAL; EPS_HIGH; BRANDON_FLAG; CUSTOMER_ESCALATION;
          MEDIA_ATTENTION]
  /\ (forall flag,
        In flag flags <->
        exists keywords keyword,
          In (flag, keywords) ICMParser.EPS_KEYWORDS
          /\ In keyword keywords
          /\ PyStr.contains keyword (PyStr.lower text) = true)
  /\ (forall pre post,
        incl flags (ICMParser._detect_escalation_flags (pre ++ text ++ post)))
  /\ (PyStr.contains "business critical" (PyStr.lower text) = true ->
      In EPS_HIGH flags /\ In EPS_CRITICAL flags)
  /\ (PyStr.contains "customer escalation" (PyStr.lower text) = true ->
      In CUSTOMER_ESCALATION flags /\ In BRANDON_FLAG flags).
Proof.
  intros flags.
  assert (Hiff : forall flag,
            In flag flags <->
            exists keywords keyword,
              In (flag, keywords) ICMParser.EPS_KEYWORDS
              /\ In keyword keywords
              /\ PyStr.contains keyword (PyStr.lower text) = true).
  { intros flag. unfold flags, ICMParser._detect_escalation_flags.
    rewrite in_map_iff. split.
    - intros [[f kws] [<- H]]. apply filter_In in H as [Hin H].
      apply existsb_exists in H as [k [Hk H]]. now exists kws, k.
    - intros [kws [k [Hin [Hk H]]]]. exists (flag, kws).
      split; [reflexivity|]. apply filter_In. split; [exact Hin|].
      apply existsb_exists. now exists k. }
  split; [|split; [|split; [exact Hiff|split; [|split]]]].
  - unfold flags, ICMParser._detect_escalation_flags.
    apply filter_keeps_distinct_keys.
    repeat (constructor; [simpl; intuition discriminate|]). constructor.
  - unfold flags, ICMParser._detect_escalation_flags, ICMParser.EPS_KEYWORDS.
    generalize (fun row : EscalationFlag * list string =>
                  existsb (fun keyword =>
                             PyStr.contains keyword (PyStr.lower text))
                          (snd row)).
    intros found. cbn [filter].
    repeat match goal with
           | |- context [if found ?row then _ else _] =>
               destruct (found row)
           end; reflexivity.
  - intros pre post. unfold flags, ICMParser._detect_escalation_flags.
    apply incl_map_filter. intros row. apply existsb_within.
  - intros H. split; apply Hiff.
    + exists ["high priority"; "urgent"; "business critical"], "business critical".
      simpl. tauto.
    + exists ["critical"; "outage"; "down"; "service unavailable"], "critical".
      simpl. split; [tauto|]. split; [tauto|].
      now apply contains_trans with "business critical".
  - intros H. split; apply Hiff.
    + exists ["customer escalation"; "complaint"; "dissatisfied"],
             "customer escalation".
      simpl. tauto.
    + exists ["brandon"; "escalation"; "management attention"], "escalation".
      simpl. split; [tauto|]. split; [tauto|].
      now apply contains_trans with "customer escalation".
Qed.

(** ** Statistics of the store *)

Lemma dict_In_get {V : Type} (d : list (string * V)) k v :
  NoDup (dict_keys d) -> In (k, v) d -> dict_get d k = Some v.
Proof.
  unfold dict_keys. induction d as [|[k0 v0] d IH]; simpl; [tauto|].
  intros Hnd [H|H]; apply NoDup_cons_iff in Hnd as [Hout Hnd].
  - injection H as -> ->. now rewrite String.eqb_refl.
  - destruct (String.eqb k0 k) eqn:E; [|auto].
    apply String.eqb_eq in E. subst k0. destruct Hout.
    change k with (fst (k, v)). now apply in_map.
Qed.

Lemma count_names_fold (names : list string) :
  forall d : list (string * nat),
    NoDup (dict_keys d) ->
    let d' :=
      fold_left
        (fun tag_counts name =>
           dict_set tag_counts name
             (match dict_get tag_counts name with
              | Some n => n + 1
              | None => 1
              end))
        names d in
    NoDup (dict_keys d')
    /\ forall k,
         dict_get d' k
         = match dict_get d k, count_occ string_dec names k with
           | Some n, c => Some (n + c)
           | None, 0 => None
           | None, c => Some c
           end.
Proof.
  induction names as [|name names IH]; intros d Hnd; cbn [fold_left].
  - split; [exact Hnd|]. intros k. simpl.
    destruct (dict_get d k); [now rewrite Nat.add_0_r | reflexivity].
  - set (d1 := dict_set d name _).
    destruct (IH d1) as [H1 H2]; [now apply dict_keys_set_NoDup|].
    split; [exact H1|]. intros k. rewrite H2. cbn [count_occ].
    destruct (string_dec name k) as [->|Hne].
    + unfold d1. rewrite dict_get_set_same.
      destruct (dict_get d k); f_equal; lia.
    + unfold d1. rewrite dict_get_set_other by assumption. reflexivity.
Qed.

Lemma count_names_spec (names : list string) :
  NoDup (dict_keys (MemoryStore.count_names names))
  /\ forall k n,
       In (k, n) (MemoryStore.count_names names) <->
       n = count_occ string_dec names k /\ 0 < n.
Proof.
  destruct (count_names_fold names [] (NoDup_nil _)) as [H1 H2].
  fold (MemoryStore.count_names names) in H1, H2.
  split; [exact H1|]. intros k n. split.
  - intros H. apply dict_In_get in H; [|exact H1].
    rewrite H2 in H. simpl in H.
    destruct (count_occ string_dec names k); [discriminate|].
    injection H as <-. split; [reflexivity | lia].
  - intros [-> Hn]. apply dict_get_In. rewrite H2. simpl.
    destruct (count_occ string_dec names k); [lia | reflexivity].
Qed.

Lemma status_counts_sum (cases : list SupportCase.t) :
  list_sum
    (map (fun status =>
            List.length
              (filter (fun case => Status_is (SupportCase.status case) status)
                      cases))
         [OPEN; IN_PROGRESS; PENDING_CUSTOMER; PENDING_MICROSOFT; RESOLVED;
          CLOSED])
  = List.length
      (filter (fun case =>
                 match SupportCase.status case with
                 | Some _ => true
                 | None => false
                 end) cases).
Proof.
  induction cases as [|c cases IH]; [reflexivity|].
  simpl in *. destruct (SupportCase.status c) as [[]|]; simpl; lia.
Qed.

Lemma priority_counts_sum (cases : list SupportCase.t) :
  list_sum
    (map (fun priority =>
            List.length
              (filter (fun case =>
                         Priority_is (SupportCase.priority case) priority)
                      cases))
         [CRITICAL; HIGH; MEDIUM; LOW])
  = List.length
      (filter (fun case =>
                 match SupportCase.priority case with
                 | Some _ => true
                 | None => false
                 end) cases).
Proof.
  induction cases as [|c cases IH]; [reflexivity|].
  simpl in *. destruct (SupportCase.priority c) as [[]|]; simpl; lia.
Qed.

Lemma filter_all {A : Type} (f : A -> bool) (l : list A) :
  (forall a, In a l -> f a = true) -> filter f l = l.
Proof.
  induction l as [|a l IH]; simpl; intros H; [reflexivity|].
  rewrite (H a) by now left. f_equal. apply IH. intros; apply H. now right.
Qed.

(** A count over the cases that reaches their number leaves no case out. *)
Lemma counted_all {A : Type} (f : A -> bool) (cases : list A) :
  List.length (filter f cases) = List.length cases ->
  forall case, In case cases -> f case = true.
Proof.
  induction cases as [|c cases IH]; intros H case Hin; [destruct Hin|].
  pose proof (filter_length_le f cases) as Hle. cbn [filter] in H.
  destruct (f c) eqn:E; cbn [List.length] in H; [|lia].
  destruct Hin as [<-|Hin]; [exact E|]. apply IH; [lia|exact Hin].
Qed.

Lemma sorted_app_le {A : Type} (R : A -> A -> Prop) (l1 l2 : list A) :
  StronglySorted R (l1 ++ l2) ->
  forall x y, In x l1 -> In y l2 -> R x y.
Proof.
  induction l1 as [|a l1 IH]; intros H x y Hx Hy; [destruct Hx|].
  simpl in H. inversion H as [|? ? Hs Hf]; subst.
  destruct Hx as [<-|Hx]; [|now apply IH].
  rewrite Forall_forall in Hf. apply Hf. apply in_or_app. now right.
Qed.

(** X25.  [get_stats]: the counts by status add up to the number of cases
    whose status is not [None], and the counts by priority to the number of
    cases whose priority is not [None]: a case that [update_case] left
    without status or priority is counted in [total_cases] and under no
    member, so the counts by status add up to the total exactly when every
    case holds a status, and likewise for priority.  The average resolution time is [None] exactly when no case is
    resolved; [top_tags] lists at most ten names, none twice, by falling
    count, each count being the number of tags of that name over all cases;
    and a tag name that is left out is no more frequent than any listed
    one. *)
Theorem get_stats_counts (s : MemoryStore.t) :
  let stats := MemoryStore.get_stats s in
  let cases := MemoryStore.get_all_cases s in
  let names :=
    flat_map (fun case => map CaseTag.name (SupportCase.tags case)) cases in
  SCPStats.total_cases stats = MemoryStore.get_case_count s
  /\ list_sum (map snd (SCPStats.cases_by_status stats))
     = List.length
         (filter (fun case =>
                    match SupportCase.status case with
                    | Some _ => true
                    | None => false
                    end) cases)
  /\ list_sum (map snd (SCPStats.cases_by_priority stats))
     = List.length
         (filter (fun case =>
                    match SupportCase.priority case with
                    | Some _ => true
                    | None => false
                    end) cases)
  /\ list_sum (map snd (SCPStats.cases_by_status stats))
     <= SCPStats.total_cases stats
  /\ list_sum (map snd (SCPStats.cases_by_priority stats))
     <= SCPStats.total_cases stats
  /\ ((forall case, In case cases -> SupportCase.status case <> None) <->
      list_sum (map snd (SCPStats.cases_by_status stats))
      = SCPStats.total_cases stats)
  /\ ((forall case, In case cases -> SupportCase.priority case <> None) <->
      list_sum (map snd (SCPStats.cases_by_priority stats))
      = SCPStats.total_cases stats)
  /\ (SCPStats.avg_resolution_time_hours stats = None <->
      MemoryStore.get_cases_by_status s RESOLVED = [])
  /\ List.length (SCPStats.top_tags stats) <= 10
  /\ NoDup (map fst (SCPStats.top_tags stats))
  /\ non_increasing (fun nc => inject_Z (Z.of_nat (snd nc)))
       (SCPStats.top_tags stats)
  /\ (forall name n,
        In (name, n) (SCPStats.top_tags stats) ->
        n = count_occ string_dec names name /\ 0 < n)
  /\ (forall name,
        In name names ->
        In name (map fst (SCPStats.top_tags stats))
        \/ (List.length (SCPStats.top_tags stats) = 10
            /\ forall nc, In nc (SCPStats.top_tags stats) ->
                 count_occ string_dec names name <= snd nc)).
Proof.
  intros stats cases names. unfold stats, MemoryStore.get_stats. cbv zeta.
  cbn [SCPStats.total_cases SCPStats.cases_by_status SCPStats.cases_by_priority
       SCPStats.avg_resolution_time_hours SCPStats.top_tags].
  fold (MemoryStore.get_all_cases s). fold cases. fold names.
  destruct (count_names_spec names) as [Hnd Hspec].
  set (key := fun nc : string * nat => inject_Z (Z.of_nat (snd nc))).
  set (sorted := sort_desc key (MemoryStore.count_names names)).
  assert (Hsorted : non_increasing key sorted) by apply sort_desc_sorted.
  assert (Hperm : Permutation (MemoryStore.count_names names) sorted)
    by apply sort_desc_Permutation.
  split; [apply length_map|]. rewrite !map_map. cbn [snd].
  rewrite status_counts_sum, priority_counts_sum.
  split; [reflexivity|]. split; [reflexivity|].
  split; [apply filter_length_le|]. split; [apply filter_length_le|].
  split; [|split].
  { split.
    - intros H. rewrite filter_all; [reflexivity|].
      intros c Hc. specialize (H c Hc). now destruct (SupportCase.status c).
    - intros H c Hc E. apply (counted_all _ _ H) in Hc.
      rewrite E in Hc. discriminate. }
  { split.
    - intros H. rewrite filter_all; [reflexivity|].
      intros c Hc. specialize (H c Hc). now destruct (SupportCase.priority c).
    - intros H c Hc E. apply (counted_all _ _ H) in Hc.
      rewrite E in Hc. discriminate. }
  split; [|split; [|split; [|split; [|split]]]].
  - unfold MemoryStore.get_cases_by_status, cases, MemoryStore.get_all_cases.
    destruct (filter _ (dict_values s)); split; congruence.
  - rewrite length_firstn. lia.
  - rewrite <- firstn_map. apply firstn_NoDup.
    apply Permutation_NoDup with (dict_keys (MemoryStore.count_names names));
      [|exact Hnd].
    now apply Permutation_map.
  - now apply non_increasing_firstn.
  - intros name n Hin. apply Hspec.
    apply firstn_In in Hin. eapply Permutation_in; [|exact Hin].
    now apply Permutation_sym.
  - intros name Hname.
    set (c := count_occ string_dec names name).
    assert (Hc : 0 < c) by now apply count_occ_In.
    assert (Hin : In (name, c) sorted).
    { eapply Permutation_in; [exact Hperm|]. now apply Hspec. }
    rewrite <- (firstn_skipn 10 sorted) in Hin, Hsorted.
    apply in_app_or in Hin as [Hin|Hin].
    + left. change name with (fst (name, c)). now apply in_map.
    + right. split.
      * rewrite length_firstn. apply Nat.min_l.
        destruct (Nat.le_gt_cases 10 (List.length sorted)) as [Hl|Hl];
          [exact Hl|].
        rewrite skipn_all2 in Hin by lia. destruct Hin.
      * intros nc Hnc.
        pose proof (sorted_app_le _ _ _ Hsorted nc (name, c) Hnc Hin) as Hle.
        unfold key, Qle in Hle. simpl in Hle. lia.
Qed.

(** ** Import: counts and the rebuilt index *)

Lemma import_loop_count {fmt : DatetimeFormat} (clock : nat -> datetime)
  (records : list pyval) :
  forall tick s n s' n',
    MemoryStore.import_loop clock tick s records n = (s', Ok n') ->
    (n <= n' <= n + Z.of_nat (List.length records))%Z
    /\ List.length s' <= List.length s + Z.to_nat (n' - n).
Proof.
  induction records as [|record records IH]; intros tick s n s' n';
    cbn [MemoryStore.import_loop List.length].
  - intros E. injection E as <- <-. lia.
  - destruct (SupportCase_validate (clock tick) record) as [c|].
    + intros E. apply IH in E as [E1 E2].
      destruct (add_case_count (clock (S tick)) s c); lia.
    + destruct record; try discriminate.
      intros E. apply IH in E as [E1 E2]. lia.
Qed.

(** X26.  [import_from_json] into a store whose cases are filed under their
    own ids: the store stays so and loses no id, whatever the document; a
    count that is answered is not negative, and the store has grown by at
    most that many cases; a document without [cases] imports nothing and
    answers 0; a document that is not an object raises [AttributeError] and
    leaves the store as it was. *)
Theorem import_from_json_counts {fmt : DatetimeFormat}
  (clock : nat -> datetime) (s : MemoryStore.t) (doc : json) :
  store_wf s ->
  let r := MemoryStore.import_from_json clock s doc in
  store_wf (fst r)
  /\ (forall id, In id (dict_keys s) -> In id (dict_keys (fst r)))
  /\ (forall n,
        snd r = Ok n ->
        (0 <= n)%Z
        /\ MemoryStore.get_case_count s <= MemoryStore.get_case_count (fst r)
        /\ MemoryStore.get_case_count (fst r)
           <= MemoryStore.get_case_count s + Z.to_nat n)
  /\ (forall data,
        json_loads doc = PDict data -> dict_get data "cases" = None ->
        r = (s, Ok 0%Z))
  /\ ((forall data, json_loads doc <> PDict data) ->
      r = (s, Raise AttributeError)).
Proof.
  intros Hwf r.
  destruct (import_from_json_wf clock s doc Hwf) as [H1 [H2 H3]].
  fold r in H1, H2, H3.
  split; [exact H1|]. split; [exact H3|]. split; [|split].
  - intros n Hn. unfold MemoryStore.get_case_count.
    split; [|split; [exact H2|]]; revert Hn; unfold r;
      unfold MemoryStore.import_from_json;
      (destruct (json_loads doc); try discriminate);
      (destruct (MemoryStore.py_iter _) as [records|]; [|discriminate]);
      destruct (MemoryStore.import_loop clock 0 s records 0) as [s' [k|e]] eqn:E;
      simpl; try discriminate; intros Hn; injection Hn as ->;
      apply import_loop_count in E; lia.
  - intros data Hd Hc. unfold r, MemoryStore.import_from_json.
    now rewrite Hd, Hc.
  - intros Hd. unfold r, MemoryStore.import_from_json.
    destruct (json_loads doc); try reflexivity. now destruct (Hd d).
Qed.

Lemma import_from_json_counts_witness :
  store_wf
    (fst (MemoryStore.import_from_json (fmt := Fixtures.decimal_format)
            (fun tick => Z.of_nat tick) MemoryStore.empty Fixtures.only_A)).
Proof.
  exact (proj1 (import_from_json_counts (fmt := Fixtures.decimal_format)
                  (fun tick => Z.of_nat tick) MemoryStore.empty
                  Fixtures.only_A store_wf_empty)).
Defined.

(** X27.  [import_data] that answers a count, with the embedding engine:
    if the store then holds a case, the index has been rebuilt from the
    whole store, so the engine lists exactly the ids of the stored cases,
    in store order, with one row each, whatever it listed before; if the
    store holds none, the engine is left as it was. *)
Theorem import_data_rebuilds_vector_index {fmt : DatetimeFormat}
  (clock : nat -> datetime) (m m' : SCPManager.t) (v : VectorSearchEngine.t)
  (doc : json) (n : Z) :
  SCPManager.search_engine m = Vector v ->
  SCPManager.import_data clock m doc = (m', Ok n) ->
  (SCPManager.memory m' = [] /\ SCPManager.search_engine m' = Vector v)
  \/ (SCPManager.memory m' <> []
      /\ exists v',
           SCPManager.search_engine m' = Vector v'
           /\ VectorSearchEngine.encoder v' = VectorSearchEngine.encoder v
           /\ VectorSearchEngine.case_ids v' = SCPManager.get_case_ids m'
           /\ IndexFlatIP.ntotal (VectorSearchEngine.index v')
              = MemoryStore.get_case_count (SCPManager.memory m')).
Proof.
  intros Hv. unfold SCPManager.import_data.
  destruct (MemoryStore.import_from_json clock (SCPManager.memory m) doc)
    as [memory1 [k|e]]; [|discriminate].
  intros E. injection E as <- _.
  unfold SCPManager._sync_search_index. cbn [SCPManager.memory
    SCPManager.search_engine]. rewrite Hv.
  destruct memory1 as [|kc memory1]; [left; split; reflexivity|].
  right. cbn [MemoryStore.get_all_cases dict_values map SCPManager.memory
              SCPManager.search_engine SCPManager.engine_rebuild_index].
  split; [discriminate|].
  eexists. split; [reflexivity|].
  unfold VectorSearchEngine.rebuild_index.
  destruct (vector_fold_add (snd kc :: map snd memory1)
              (VectorSearchEngine.mk (VectorSearchEngine.encoder v) [] []))
    as [H1 [H2 H3]].
  cbn [VectorSearchEngine.encoder VectorSearchEngine.case_ids
       VectorSearchEngine.index app] in H1, H2, H3.
  split; [exact H1|]. split; [exact H2|].
  unfold IndexFlatIP.ntotal, MemoryStore.get_case_count. rewrite H3.
  rewrite length_map. simpl. now rewrite length_map.
Qed.

Lemma import_data_rebuilds_vector_index_witness :
  exists v',
    SCPManager.search_engine
      (fst (SCPManager.import_data (fmt := Fixtures.decimal_format)
              (fun tick => Z.of_nat tick) Fixtures.vector_manager
              Fixtures.only_A))
    = Vector v'
    /\ VectorSearchEngine.case_ids v' = ["A"].
Proof.
  destruct (import_data_rebuilds_vector_index (fmt := Fixtures.decimal_format)
              (fun tick => Z.of_nat tick) Fixtures.vector_manager
              (fst (SCPManager.import_data (fmt := Fixtures.decimal_format)
                      (fun tick => Z.of_nat tick) Fixtures.vector_manager
                      Fixtures.only_A))
              (VectorSearchEngine.mk Fixtures.unit_encoder [] [])
              Fixtures.only_A 1%Z eq_refl eq_refl)
    as [[H _]|[_ [v' [H1 [_ [H2 _]]]]]].
  - discriminate H.
  - exists v'. split; [exact H1|]. rewrite H2. reflexivity.
Defined.

(** ** What the constructor accepts *)

Lemma conv_CaseTag_in_range (v : pyval) (tag : CaseTag.t) :
  conv_CaseTag v = Some tag -> in_range 0 1 (CaseTag.confidence tag) = true.
Proof.
  unfold conv_CaseTag.
  destruct (conv_dict v) as [kw|]; cbn [obind]; [|discriminate].
  destruct (required kw "name" conv_str); cbn [obind]; [|discriminate].
  destruct (required kw "confidence" conv_float) as [q|]; cbn [obind];
    [|discriminate].
  destruct (required kw "source" conv_str); cbn [obind]; [|discriminate].
  destruct (in_range 0 1 q) eqn:E; [|discriminate].
  intros H. injection H as <-. exact E.
Qed.

Lemma omap_forallb {A B : Type} (f : A -> option B) (p : B -> bool) :
  (forall a b, f a = Some b -> p b = true) ->
  forall l bs, omap f l = Some bs -> forallb p bs = true.
Proof.
  intros H. induction l as [|a l IH]; intros bs; cbn [omap].
  - intros E. now injection E as <-.
  - destruct (f a) as [b|] eqn:Ea; cbn [obind]; [|discriminate].
    destruct (omap f l) as [bs'|]; cbn [obind]; [|discriminate].
    intros E. injection E as <-. simpl. rewrite (H a b Ea). now apply IH.
Qed.

Lemma conv_tags_in_range (kw : list (string * pyval)) (tags : list CaseTag.t) :
  optional kw "tags" (conv_list conv_CaseTag) [] = Some tags ->
  forallb (fun tag => in_range 0 1 (CaseTag.confidence tag)) tags = true.
Proof.
  unfold optional. destruct (dict_get kw "tags") as [v|].
  - destruct v; try discriminate; cbn [conv_list];
      apply omap_forallb; apply conv_CaseTag_in_range.
  - intros E. now injection E as <-.
Qed.

Lemma conv_metrics_in_range (kw : list (string * pyval)) (m : CaseMetrics.t) :
  optional kw "metrics" conv_CaseMetrics CaseMetrics.default = Some m ->
  match CaseMetrics.customer_satisfaction m with
  | Some q => in_range 1 5 q
  | None => true
  end = true.
Proof.
  unfold optional. destruct (dict_get kw "metrics") as [v|].
  - unfold conv_CaseMetrics.
    destruct (conv_dict v) as [d|]; cbn [obind]; [|discriminate].
    destruct (optional d "response_time_hours" _ _); cbn [obind];
      [|discriminate].
    destruct (optional d "resolution_time_hours" _ _); cbn [obind];
      [|discriminate].
    destruct (optional d "customer_satisfaction" _ _) as [cs|] eqn:E;
      cbn [obind]; [|discriminate].
    destruct (optional d "engineering_effort_hours" _ _); cbn [obind];
      [|discriminate].
    destruct (optional d "escalation_count" _ _); cbn [obind];
      [|discriminate].
    intros H. injection H as <-. cbn [CaseMetrics.customer_satisfaction].
    unfold optional in E. destruct (dict_get d "customer_satisfaction") as [x|].
    + unfold conv_optional_range in E.
      destruct (conv_optional conv_float x) as [[q|]|]; cbn [obind] in E;
        try discriminate.
      * destruct (in_range 1 5 q) eqn:Er; [|discriminate].
        now injection E as <-.
      * now injection E as <-.
    + now injection E as <-.
  - intros E. now injection E as <-.
Qed.

(** X28.  A case the constructor accepts: the record is a mapping that holds
    an id and a title; [updated_at] is the clock reading whatever the record
    says, and so is [created_at] when the record has none; every tag has a
    confidence between 0 and 1 and a satisfaction figure lies between 1
    and 5. *)
Theorem accepted_case_is_valid {fmt : DatetimeFormat}
  (now : datetime) (case_data : pyval) (c : SupportCase.t) :
  SupportCase_validate now case_data = Ok c ->
  (exists kw,
      case_data = PDict kw
      /\ dict_get kw "case_id" <> None
      /\ dict_get kw "title" <> None
      /\ (dict_get kw "created_at" = None -> SupportCase.created_at c = now))
  /\ SupportCase.updated_at c = now
  /\ valid_case c = true.
Proof.
  unfold SupportCase_validate.
  destruct case_data as [ | | | | | | |kw| ]; try discriminate.
  destruct (SupportCase_validate_opt now kw) as [c'|] eqn:E; [|discriminate].
  intros H. injection H as ->. revert E.
  unfold SupportCase_validate_opt. cbv zeta.
  destruct (required kw "case_id" conv_str) as [case_id|] eqn:Eid;
    cbn [obind]; [|discriminate].
  destruct (required kw "title" conv_str) as [title|] eqn:Etitle;
    cbn [obind]; [|discriminate].
  do 6 bind_step.
  match goal with
  | |- obind ?o _ = _ -> _ =>
      destruct o as [created|] eqn:Ecreated; cbn [obind]; [|discriminate]
  end.
  do 10 bind_step.
  match goal with
  | |- obind ?o _ = _ -> _ =>
      destruct o as [tags|] eqn:Etags; cbn [obind]; [|discriminate]
  end.
  do 9 bind_step.
  match goal with
  | |- obind ?o _ = _ -> _ =>
      destruct o as [metrics|] eqn:Emetrics; cbn [obind]; [|discriminate]
  end.
  bind_step.
  intros E. injection E as <-.
  cbn [SupportCase.case_id SupportCase.title SupportCase.created_at
       SupportCase.updated_at].
  split; [|split; [reflexivity|]].
  - exists kw. split; [reflexivity|].
    unfold required in Eid, Etitle.
    split; [now destruct (dict_get kw "case_id")|].
    split; [now destruct (dict_get kw "title")|].
    intros Hc. unfold optional in Ecreated. rewrite Hc in Ecreated.
    now injection Ecreated as <-.
  - unfold valid_case. cbn [SupportCase.tags SupportCase.metrics].
    rewrite (conv_tags_in_range kw tags Etags).
    now rewrite (conv_metrics_in_range kw metrics Emetrics).
Qed.

Lemma accepted_case_is_valid_witness :
  valid_case (SupportCase.new 5%Z "A" "database timeout") = true.
Proof.
  exact (proj2 (proj2
    (accepted_case_is_valid (fmt := Fixtures.decimal_format) 5%Z
       (PDict [("case_id", PStr "A"); ("title", PStr "database timeout")])
       (SupportCase.new 5%Z "A" "database timeout") eq_refl))).
Defined.

(** ** The store stays keyed by case id *)

(** X29.  Which operations of the orchestrator keep the cases of the store
    filed under their own ids, one case per id.  [add_case], [delete_case],
    [update_case] with an update object, [bulk_update_tags] and
    [import_data], whether it answers a count or raises, all do; so does
    [update_case] with a mapping, as long as the case it returns carries
    the id it was found under, which is so when the mapping has no key
    [case_id].  [update_case] with a mapping that gives the case another
    id does not: the case is then filed under the old key and under the
    new id.  In a store that is keyed by id [get_case_ids] lists the keys
    in insertion order, none twice, and [get_case] answers a case that
    carries the id asked for. *)
Theorem store_stays_keyed_by_id (m : SCPManager.t) :
  store_wf (SCPManager.memory m) ->
  (forall now c, store_wf (SCPManager.memory (SCPManager.add_case now m c)))
  /\ (forall case_id,
        store_wf (SCPManager.memory (fst (SCPManager.delete_case m case_id))))
  /\ (forall now case_id updates,
        store_wf
          (SCPManager.memory
             (fst (SCPManager.update_case now m case_id updates))))
  /\ (forall now case_id update_dict m' c',
        SCPManager.update_case_dict now m case_id update_dict
        = Some (m', Some c') ->
        (~ In "case_id" (dict_keys update_dict) ->
         SupportCase.case_id c' = case_id)
        /\ (SupportCase.case_id c' = case_id ->
            store_wf (SCPManager.memory m'))
        /\ (SupportCase.case_id c' <> case_id ->
            SCPManager.get_case m' case_id = Some c'
            /\ SCPManager.get_case m' (SupportCase.case_id c') = Some c'
            /\ ~ store_wf (SCPManager.memory m')))
  /\ (forall clock mappings,
        store_wf
          (SCPManager.memory
             (fst (SCPManager.bulk_update_tags clock m mappings))))
  /\ (forall (fmt : DatetimeFormat) clock doc,
        store_wf (SCPManager.memory (fst (SCPManager.import_data clock m doc))))
  /\ SCPManager.get_case_ids m = dict_keys (SCPManager.memory m)
  /\ NoDup (SCPManager.get_case_ids m)
  /\ (forall case_id c,
        SCPManager.get_case m case_id = Some c ->
        SupportCase.case_id c = case_id).
Proof.
  intros Hwf.
  assert (Hids : SCPManager.get_case_ids m = dict_keys (SCPManager.memory m))
    by now apply store_wf_ids.
  split; [|split; [|split; [|split; [|split; [|split; [|split; [|split]]]]]]].
  - intros now c. now apply store_wf_add.
  - intros case_id. rewrite (proj1 (manager_delete_memory m case_id)).
    now apply store_wf_delete.
  - intros now case_id u. now apply update_case_wf.
  - intros now case_id d m' c'. unfold SCPManager.update_case_dict.
    destruct (MemoryStore.get_case (SCPManager.memory m) case_id) as [c|] eqn:Hg;
      [|discriminate].
    destruct (SCPManager.apply_update_dict c d) as [c1|] eqn:E; [|discriminate].
    cbn [obind]. intros H. injection H as <- <-.
    destruct (store_changed_get now m case_id c1) as [G1 G2].
    split; [|split].
    + intros Hout. cbn [SupportCase.set_updated_at SupportCase.case_id].
      rewrite (apply_update_dict_keeps_id d c c1 Hout E).
      exact (stored_under_own_id _ _ _ Hwf Hg).
    + intros Hid. now apply store_changed_wf.
    + intros Hne. split; [exact G1|]. split; [exact G2|].
      intros Hwf'. apply Hne.
      exact (stored_under_own_id _ _ _ Hwf' G1).
  - intros clock mappings. now apply bulk_update_loop_wf.
  - intros fmt clock doc. now apply import_data_wf.
  - exact Hids.
  - rewrite Hids. apply Hwf.
  - intros case_id c H. exact (stored_under_own_id _ _ _ Hwf H).
Qed.

Lemma store_stays_keyed_by_id_witness :
  let m := Fixtures.add_ABC Fixtures.simple_manager in
  SCPManager.get_case_ids m = ["A"; "B"; "C"]
  /\ NoDup (SCPManager.get_case_ids m)
  /\ store_wf
       (SCPManager.memory
          (fst (SCPManager.update_case 9%Z m "B" CaseUpdate.empty))).
Proof.
  intros m.
  assert (H : store_wf (SCPManager.memory m)).
  { unfold m, Fixtures.add_ABC. simpl SCPManager.memory.
    repeat apply store_wf_add. apply store_wf_empty. }
  pose proof (store_stays_keyed_by_id m H)
    as (_ & _ & Hupdate & _ & _ & _ & _ & Hnd & _).
  split; [reflexivity|]. split; [exact Hnd|]. apply Hupdate.
Defined.
